(** * A shallow embedding of the JSON decoder/encoder of [src/json.cpp]

    The C++ class [Json::JsonHandler] converts between JSON text (a
    null-terminated sequence of [wchar_t] code units) and a tagged value
    tree.  Every function of [json.cpp] is transcribed below as an
    executable Rocq function; the cursor [int &pos] that the C++ code
    threads through its recursive calls by reference is passed in and
    returned explicitly, and a C++ exception is an explicit [Raise]. *)

From Stdlib Require Import ZArith List String Ascii Bool Lia PrimFloat Uint63.
Import ListNotations.

Set Warnings "-register-all".

Local Open Scope Z_scope.

(** ** Code units and wide strings *)

(** [wchar_t]: one code unit, kept as its integer value. *)
Definition wchar_t := Z.

(** [std::wstring]. *)
Definition wstring := list wchar_t.

(** [data[pos]] on the buffer returned by [c_str()]: the code units of the
    string followed by the terminator [0]. *)
Definition char_at (data : wstring) (pos : nat) : wchar_t := nth pos data 0.

(** The wide string literal of an ASCII text. *)
Fixpoint wstr (s : string) : wstring :=
  match s with
  | EmptyString => []
  | String a s' => Z.of_nat (nat_of_ascii a) :: wstr s'
  end.

(** JSON text written with an apostrophe wherever the text has a double
    quote (code unit 34), so that inputs stay readable. *)
Definition jtext (s : string) : wstring :=
  map (fun c => if c =? 39 then 34 else c) (wstr s).

(** Character constants of the source. *)
Module Ch.
Definition quote : wchar_t := 34.       (* the double quote *)
Definition backslash : wchar_t := 92.   (* the backslash *)
Definition slash : wchar_t := 47.       (* L'/'  *)
Definition backspace : wchar_t := 8.    (* L'\b' *)
Definition formfeed : wchar_t := 12.    (* L'\f' *)
Definition newline : wchar_t := 10.     (* L'\n' *)
Definition cr : wchar_t := 13.          (* L'\r' *)
Definition tab : wchar_t := 9.          (* L'\t' *)
Definition comma : wchar_t := 44.
Definition colon : wchar_t := 58.
Definition lbracket : wchar_t := 91.
Definition rbracket : wchar_t := 93.
Definition lbrace : wchar_t := 123.
Definition rbrace : wchar_t := 125.
Definition minus : wchar_t := 45.
Definition plus : wchar_t := 43.
Definition dot : wchar_t := 46.
Definition zero : wchar_t := 48.        (* '0' *)
End Ch.

(** ** Machine integers *)

(** A C [int]: 32 bits, two's complement; arithmetic wraps. *)
Definition wrap_int (z : Z) : Z := (z + 2 ^ 31) mod 2 ^ 32 - 2 ^ 31.

(** Conversion of an [int] to [unsigned]. *)
Definition to_unsigned (z : Z) : Z := z mod 2 ^ 32.

(** The cast [(short)]: 16 bits, two's complement. *)
Definition to_short (z : Z) : Z := (z + 2 ^ 15) mod 2 ^ 16 - 2 ^ 15.

(** The conversion [(double)i] of an [int]; exact, since a double has 53
    bits of mantissa. *)
Definition int_to_double (i : Z) : float :=
  if i <? 0 then PrimFloat.opp (PrimFloat.of_uint63 (Uint63.of_Z (- i)))
  else PrimFloat.of_uint63 (Uint63.of_Z i).

(** ** The value tree *)

(** Modelled from the spec: [Json::Value] is declared in [json/value.h],
    which is not part of the sources; section 3 of the specification gives
    its seven variants and their payloads.  [Value::List] is an ordered
    sequence and [Value::Object] a mapping from string keys to values, kept
    here as the sequence of its entries in iteration order. *)
Inductive Value : Type :=
| Null
| Boolean (b : bool)
| Integer (i : Z)
| Float (d : float)
| String (s : wstring)
| List (l : list Value)
| Object (o : list (wstring * Value)).

Definition wstring_eqb (a b : wstring) : bool :=
  if list_eq_dec Z.eq_dec a b then true else false.

(** Does the mapping hold the key? *)
Definition object_mem (key : wstring) (o : list (wstring * Value)) : bool :=
  existsb (fun kv => wstring_eqb (fst kv) key) o.


(** Modelled from the spec: [object.insert(std::make_pair(key, value))] on
    a [Value::Object]; the container type comes from [json/value.h].  Per
    section 3 the insertion is insert-if-absent: a key that is present keeps
    its value and the new pair is dropped. *)
Definition object_insert (key : wstring) (value : Value)
    (o : list (wstring * Value)) : list (wstring * Value) :=
  if object_mem key o then o else o ++ [(key, value)].

(** ** Errors *)

(** The two exception classes of [json.h], both derived from [ParseError];
    [raise_error<E>(message, position)] throws [E] with the text
    [message at position]. *)
Inductive ParseError : Type :=
| InvalidCharacter (message : string) (position : nat)
| UnexpectedEof (message : string) (position : nat).

(** The outcome of a call: a returned value, a thrown exception, or
    [OutOfFuel] when the recursion budget of the model ran out (the C++
    code has no such case; [decode_total] below shows the budget given by
    [decode] always suffices). *)
Inductive outcome (A : Type) : Type :=
| Ok (a : A)
| Raise (e : ParseError)
| OutOfFuel.
Arguments Ok {A} a.
Arguments Raise {A} e.
Arguments OutOfFuel {A}.

Definition bind {A B : Type} (m : outcome A) (k : A -> outcome B) : outcome B :=
  match m with
  | Ok a => k a
  | Raise e => Raise e
  | OutOfFuel => OutOfFuel
  end.

Notation "'let*' x ':=' m 'in' k" := (bind m (fun x => k))
  (at level 10, x pattern, m at level 100, k at level 200).

(** ** Character classes *)

(** [iswdigit]: the ten decimal digits, in every locale. *)
Definition iswdigit (c : wchar_t) : bool := (48 <=? c) && (c <=? 57).

(** [iswxdigit]: the hexadecimal digits, in every locale. *)
Definition iswxdigit (c : wchar_t) : bool :=
  iswdigit c || ((65 <=? c) && (c <=? 70)) || ((97 <=? c) && (c <=? 102)).

(** [isupper], which [unescape] only reaches on a hexadecimal letter. *)
Definition isupper (c : wchar_t) : bool := (65 <=? c) && (c <=? 90).

Definition is_ascii (c : wchar_t) : bool := (0 <=? c) && (c <? 128).

Section Platform.

(** What the C library decides outside this program: the classification
    of the code units beyond ASCII depends on the locale in force, [pow]
    is libm's, and the text of a [double] is what [operator<<] of the
    stream prints. *)
Variable locale_space : wchar_t -> bool.
Variable locale_print : wchar_t -> bool.
Variable pow : float -> float -> float.
Variable show_double : float -> wstring.

(** [iswspace]: on ASCII, the space and the five controls [\t \n \v \f \r]. *)
Definition iswspace (c : wchar_t) : bool :=
  if is_ascii c then (c =? 32) || ((9 <=? c) && (c <=? 13)) else locale_space c.

(** [iswprint]: on ASCII, the code units from the space to the tilde. *)
Definition iswprint (c : wchar_t) : bool :=
  if is_ascii c then (32 <=? c) && (c <=? 126) else locale_print c.

(** *** [skip_spaces] (json.cpp, lines 22-26) *)

(** The loop [while (data[pos] && iswspace(data[pos])) pos++], unrolled
    at most [n] times. *)
Fixpoint skip_spaces_loop (n : nat) (data : wstring) (pos : nat) : nat :=
  match n with
  | O => pos
  | S n' =>
      if negb (char_at data pos =? 0) && iswspace (char_at data pos)
      then skip_spaces_loop n' data (S pos)
      else pos
  end.

Definition skip_spaces (data : wstring) (pos : nat) : nat :=
  skip_spaces_loop (List.length data - pos) data pos.

(** *** [compare_forward] (json.cpp, lines 520-539) *)

(** The loop advancing [datapos] and [exppos] together. *)
Fixpoint compare_forward_loop (n : nat) (data expected : wstring)
    (datapos exppos : nat) : nat * nat :=
  match n with
  | O => (datapos, exppos)
  | S n' =>
      if negb (char_at data datapos =? 0) && negb (char_at expected exppos =? 0)
         && (char_at data datapos =? char_at expected exppos)
      then compare_forward_loop n' data expected (S datapos) (S exppos)
      else (datapos, exppos)
  end.

(** Returns the boolean result and the cursor after the call. *)
Definition compare_forward (data : wstring) (pos : nat) (expected : wstring)
    : bool * nat :=
  let '(datapos, exppos) :=
    compare_forward_loop (List.length expected) data expected pos 0 in
  if char_at expected exppos =? 0 then (true, datapos) else (false, pos).

(** *** [decode_integer] (json.cpp, lines 506-518) *)

Fixpoint decode_integer_loop (n : nat) (data : wstring) (pos : nat) (res : Z)
    : Z * nat :=
  match n with
  | O => (res, pos)
  | S n' =>
      if negb (char_at data pos =? 0) && iswdigit (char_at data pos)
      then decode_integer_loop n' data (S pos)
             (wrap_int (res * 10 + char_at data pos - Ch.zero))
      else (res, pos)
  end.

Definition decode_integer (data : wstring) (pos : nat) : Z * nat :=
  decode_integer_loop (List.length data - pos) data pos 0.

(** *** [unescape] (json.cpp, lines 394-451) *)

(** The [for] loop over the four hexadecimal digits: [i] is the loop
    counter, [n] the number of rounds left. *)
Fixpoint unescape_hex (n : nat) (data : wstring) (pos i : nat) (code : Z)
    : outcome Z :=
  match n with
  | O => Ok code
  | S n' =>
      let code := to_unsigned (Z.shiftl code 4) in
      let c := char_at data (pos + i) in
      if negb (iswxdigit c)
      then Raise (InvalidCharacter "Invalid hex code" (pos + i))
      else
        let code :=
          if iswdigit c then to_unsigned (code + (c - 48))
          else if isupper c then to_unsigned (code + (c - 65 + 10))
          else to_unsigned (code + (c - 97 + 10)) in
        unescape_hex n' data pos (S i) code
  end.

Definition unescape (data : wstring) (pos : nat) : outcome (wchar_t * nat) :=
  let c := char_at data pos in
  if c =? 98 then Ok (Ch.backspace, S pos)          (* b *)
  else if c =? 102 then Ok (Ch.formfeed, S pos)     (* f *)
  else if c =? 110 then Ok (Ch.newline, S pos)      (* n *)
  else if c =? 114 then Ok (Ch.cr, S pos)           (* r *)
  else if c =? 116 then Ok (Ch.tab, S pos)          (* t *)
  else if (c =? Ch.quote) || (c =? Ch.backslash) || (c =? Ch.slash)
  then Ok (char_at data (S pos - 1), S pos)
  else if c =? 117 then                             (* u *)
    let pos := S pos in
    let* code := unescape_hex 4 data pos 0 0 in
    Ok (wrap_int code, (pos + 4)%nat)
  else Raise (InvalidCharacter "Invalid escape character found" pos).

(** *** [decode_string] (json.cpp, lines 112-148) *)

(** The [while] loop of [decode_string]; [n] bounds the number of rounds. *)
Fixpoint decode_string_loop (n : nat) (data : wstring) (pos : nat)
    (str : wstring) (escape : bool) : outcome (wstring * nat) :=
  let c := char_at data pos in
  if negb (c =? 0) && (escape || negb (c =? Ch.quote)) then
    match n with
    | O => OutOfFuel
    | S n' =>
        if escape then
          let* (ch, pos) := unescape data pos in
          decode_string_loop n' data pos (str ++ [ch]) false
        else if c =? Ch.backslash then
          decode_string_loop n' data (S pos) str true
        else
          decode_string_loop n' data (S pos) (str ++ [c]) false
    end
  else Ok (str, pos).

Definition decode_string (data : wstring) (pos : nat) : outcome (Value * nat) :=
  let pos := S pos in
  let* (str, pos) := decode_string_loop (List.length data - pos) data pos [] false in
  if char_at data pos =? 0
  then Raise (UnexpectedEof "Unexpected end of input" pos)
  else Ok (String str, S pos).

(** *** [decode_number] (json.cpp, lines 150-232) *)

Definition decode_number (data : wstring) (pos : nat) : outcome (Value * nat) :=
  (* See if there is a signature *)
  let '(neg_mantissa, pos) :=
    if char_at data pos =? Ch.minus then (true, S pos) else (false, pos) in
  if negb (iswdigit (char_at data pos))
  then Raise (InvalidCharacter "Invalid digit" pos)
  else
  (* Zero is a separate case *)
  let '(integer, pos) :=
    if negb (char_at data pos =? Ch.zero)
    then decode_integer data pos else (0, S pos) in
  let* (remainder, remainder_count, pos) :=
    if char_at data pos =? Ch.dot then
      let pos := S pos in
      if negb (iswdigit (char_at data pos))
      then Raise (InvalidCharacter "Invalid digit" pos)
      else
        let oldpos := pos in
        let '(remainder, pos) := decode_integer data pos in
        Ok (remainder, Z.of_nat (pos - oldpos), pos)
    else Ok (0, 0, pos) in
  let* (exponent, neg_exponent, pos) :=
    if (char_at data pos =? 101) || (char_at data pos =? 69) then
      let pos := S pos in
      let '(neg_exponent, pos) :=
        if char_at data pos =? Ch.plus then (false, S pos)
        else if char_at data pos =? Ch.minus then (true, S pos)
        else (false, pos) in
      if negb (iswdigit (char_at data pos))
      then Raise (InvalidCharacter "Invalid digit" pos)
      else
        let '(exponent, pos) := decode_integer data pos in
        Ok (exponent, neg_exponent, pos)
    else Ok (0, false, pos) in
  if (remainder_count =? 0) && (exponent =? 0) then
    let integer := if neg_mantissa then wrap_int (- integer) else integer in
    Ok (Integer integer, pos)
  else
    let res :=
      (int_to_double integer
       + int_to_double remainder / pow 10 (int_to_double remainder_count))%float in
    let res := if neg_mantissa then (- res)%float else res in
    let exponent := if neg_exponent then wrap_int (- exponent) else exponent in
    let res := (res * pow 10 (int_to_double exponent))%float in
    Ok (Float res, pos).

(** *** [decode_value], [decode_array], [decode_object]
        (json.cpp, lines 70-110 and 234-324) *)

(** The three productions call each other; every call spends one unit
    of [fuel].  [decode_array_loop] and [decode_object_loop] are the
    [while] loops of [decode_array] and [decode_object], with the local
    variables [list]/[object] and [last] as arguments and results. *)
Fixpoint decode_value (fuel : nat) (data : wstring) (pos : nat)
    {struct fuel} : outcome (Value * nat) :=
  match fuel with
  | O => OutOfFuel
  | S fuel =>
      let pos := skip_spaces data pos in
      let c := char_at data pos in
      if c =? 116 then                                   (* t *)
        match compare_forward data pos (wstr "true") with
        | (true, pos) => Ok (Boolean true, pos)
        | (false, pos) => Raise (InvalidCharacter "Invalid token found" pos)
        end
      else if c =? 102 then                              (* f *)
        match compare_forward data pos (wstr "false") with
        | (true, pos) => Ok (Boolean false, pos)
        | (false, pos) => Raise (InvalidCharacter "Invalid token found" pos)
        end
      else if c =? 110 then                              (* n *)
        match compare_forward data pos (wstr "null") with
        | (true, pos) => Ok (Null, pos)
        | (false, pos) => Raise (InvalidCharacter "Invalid token found" pos)
        end
      else if c =? Ch.quote then decode_string data pos
      else if c =? Ch.lbrace then decode_object fuel data pos
      else if c =? Ch.lbracket then decode_array fuel data pos
      else if iswdigit c || (c =? Ch.minus) then decode_number data pos
      else Raise (InvalidCharacter "Invalid character found" pos)
  end

with decode_array (fuel : nat) (data : wstring) (pos : nat)
    {struct fuel} : outcome (Value * nat) :=
  match fuel with
  | O => OutOfFuel
  | S fuel =>
      let pos := S pos in
      let pos := skip_spaces data pos in
      let* (list, last, pos) :=
        if negb (char_at data pos =? Ch.rbracket)
        then decode_array_loop fuel data pos [] false
        else Ok ([], true, pos) in
      if negb last || negb (char_at data pos =? Ch.rbracket)
      then Raise (InvalidCharacter "List ended with an invalid character" pos)
      else Ok (List list, pos)
  end

with decode_array_loop (fuel : nat) (data : wstring) (pos : nat)
    (list : Datatypes.list Value) (last : bool)
    {struct fuel} : outcome (Datatypes.list Value * bool * nat) :=
  if negb (char_at data pos =? 0) && negb last
     && negb (char_at data pos =? Ch.rbracket)
  then
    match fuel with
    | O => OutOfFuel
    | S fuel =>
        let pos := skip_spaces data pos in
        let* (value, pos) := decode_value fuel data pos in
        let list := list ++ [value] in
        let pos := skip_spaces data pos in
        let '(last, pos) :=
          if char_at data pos =? Ch.comma then (false, S pos) else (true, pos) in
        let pos := skip_spaces data pos in
        decode_array_loop fuel data pos list last
    end
  else Ok (list, last, pos)

with decode_object (fuel : nat) (data : wstring) (pos : nat)
    {struct fuel} : outcome (Value * nat) :=
  match fuel with
  | O => OutOfFuel
  | S fuel =>
      let pos := S pos in
      let pos := skip_spaces data pos in
      let* (object, last, pos) :=
        if negb (char_at data pos =? Ch.rbrace)
        then decode_object_loop fuel data pos [] false
        else Ok ([], true, pos) in
      if negb last || negb (char_at data pos =? Ch.rbrace)
      then Raise (InvalidCharacter "Object ended with invalid character" pos)
      else Ok (Object object, pos)
  end

with decode_object_loop (fuel : nat) (data : wstring) (pos : nat)
    (object : Datatypes.list (wstring * Value)) (last : bool)
    {struct fuel} : outcome (Datatypes.list (wstring * Value) * bool * nat) :=
  if negb (char_at data pos =? 0) && negb last
     && negb (char_at data pos =? Ch.rbrace)
  then
    match fuel with
    | O => OutOfFuel
    | S fuel =>
        let pos := skip_spaces data pos in
        if negb (char_at data pos =? Ch.quote)
        then Raise (InvalidCharacter "Expected string for key" pos)
        else
        let* (key, pos) := decode_string data pos in
        let pos := skip_spaces data pos in
        if negb (char_at data pos =? Ch.colon)
        then Raise (InvalidCharacter "Expected ':'" pos)
        else
        let pos := S pos in
        let pos := skip_spaces data pos in
        let* (value, pos) := decode_value fuel data pos in
        let object :=
          match key with
          | String k => object_insert k value object
          | _ => object
          end in
        let pos := skip_spaces data pos in
        let '(last, pos) :=
          if char_at data pos =? Ch.comma then (false, S pos) else (true, pos) in
        let pos := skip_spaces data pos in
        decode_object_loop fuel data pos object last
    end
  else Ok (object, last, pos).

(** [decode(const std::wstring &)] (json.cpp, lines 47-52): the cursor
    starts at 0 and its final value is dropped.  Each production moves
    the cursor forward before it calls another one, so three units of
    fuel per code unit are enough. *)
Definition decode_fuel (json : wstring) : nat := 3 * List.length json + 4.

Definition decode_at (json : wstring) : outcome (Value * nat) :=
  decode_value (decode_fuel json) json 0.

Definition decode (json : wstring) : outcome Value :=
  let* (value, _) := decode_at json in Ok value.

(** ** The encoder *)

(** *** [hex] (json.cpp, lines 14-20) *)

(** One lowercase hexadecimal digit. *)
Definition hex_digit (d : Z) : wchar_t :=
  if d <? 10 then 48 + d else 97 + (d - 10).

(** The digits of [value] in base 16, most significant first, as the
    stream prints an [unsigned] under [std::hex]: no leading zero, and at
    most eight digits for 32 bits. *)
Fixpoint hex_digits (n : nat) (value : Z) (acc : wstring) : wstring :=
  match n with
  | O => acc
  | S n' =>
      let acc := hex_digit (value mod 16) :: acc in
      if value / 16 =? 0 then acc else hex_digits n' (value / 16) acc
  end.

(** [std::setw(4)] with [std::setfill(L'0')]: padded on the left to a
    width of at least four; a longer text is not cut. *)
Definition hex (value : Z) : wstring :=
  let digits := hex_digits 8 value [] in
  repeat Ch.zero (4 - List.length digits) ++ digits.

(** *** [dest << (int)value] *)

Fixpoint dec_digits (n : nat) (value : Z) (acc : wstring) : wstring :=
  match n with
  | O => acc
  | S n' =>
      let acc := (48 + value mod 10) :: acc in
      if value / 10 =? 0 then acc else dec_digits n' (value / 10) acc
  end.

(** The decimal text of an [int], which has at most ten digits. *)
Definition show_int (i : Z) : wstring :=
  if i <? 0 then Ch.minus :: dec_digits 10 (- i) [] else dec_digits 10 i [].

(** *** [escape] (json.cpp, lines 453-504) *)

(** The body of the loop: the [switch] on one code unit. *)
Definition escape_char (c : wchar_t) : wstring :=
  if c =? Ch.backslash then [Ch.backslash; Ch.backslash]
  else if c =? Ch.quote then [Ch.backslash; Ch.quote]
  else if c =? Ch.slash then [Ch.backslash; Ch.slash]
  else if c =? Ch.backspace then wstr "\b"
  else if c =? Ch.formfeed then wstr "\f"
  else if c =? Ch.newline then wstr "\n"
  else if c =? Ch.cr then wstr "\r"
  else if c =? Ch.tab then wstr "\t"
  else if negb (iswprint c)
  then wstr "\u" ++ hex (to_unsigned (to_short (Z.land c 65535)))
  else [c].

Fixpoint escape (value : wstring) : wstring :=
  match value with
  | [] => []
  | c :: rest => escape_char c ++ escape rest
  end.

(** *** [encode] (json.cpp, lines 326-392) *)

Fixpoint encode (value : Value) : wstring :=
  match value with
  | Null => wstr "null"
  | Boolean b => if b then wstr "true" else wstr "false"
  | Integer i => show_int i
  | Float d => show_double d
  | String s => [Ch.quote] ++ escape s ++ [Ch.quote]
  | List list =>
      wstr "["
      ++ (fix elements (first : bool) (l : Datatypes.list Value) : wstring :=
            match l with
            | [] => []
            | it :: l' =>
                (if first then [] else wstr ", ")
                ++ encode it ++ elements false l'
            end) true list
      ++ wstr "]"
  | Object obj =>
      wstr "{"
      ++ (fix pairs (first : bool) (o : Datatypes.list (wstring * Value)) : wstring :=
            match o with
            | [] => []
            | it :: o' =>
                (if first then [] else wstr ", ")
                ++ ([Ch.quote] ++ fst it ++ [Ch.quote] ++ wstr ":")
                ++ encode (snd it) ++ pairs false o'
            end) true obj
      ++ wstr "}"
  end.

End Platform.

Arguments decode_number pow data pos : simpl never.

(** The classification of the C locale, in which a program runs until it
    calls [setlocale]: nothing beyond ASCII is a space or printable. *)
Definition c_locale : wchar_t -> bool := fun _ => false.

(** * Notions used to state the properties *)

(** Does [text] begin with the code units of [expected]? *)
Fixpoint starts_with (expected text : wstring) : bool :=
  match expected, text with
  | [], _ => true
  | e :: expected', t :: text' => (e =? t) && starts_with expected' text'
  | _ :: _, [] => false
  end.

(** The whole literal [expected] stands in [data] at [pos]. *)
Definition literal_at (data : wstring) (pos : nat) (expected : wstring) : bool :=
  starts_with expected (skipn pos data).

(** The value of a hexadecimal digit, whatever its case. *)
Definition hex_value (c : wchar_t) : Z :=
  if iswdigit c then c - 48
  else if (97 <=? c) && (c <=? 102) then c - 97 + 10
  else c - 65 + 10.

(** The number written by hexadecimal digits, most significant first,
    continuing from [code]. *)
Fixpoint hex_number (digits : wstring) (code : Z) : Z :=
  match digits with
  | [] => code
  | d :: digits' => hex_number digits' (16 * code + hex_value d)
  end.

(** The [n] code units of [data] from offset [pos + i] on. *)
Definition units_at (data : wstring) (pos i n : nat) : wstring :=
  map (fun j => char_at data (pos + j)) (seq i n).

(** The code units that may follow a backslash: [b f n r t], the double
    quote, the backslash, the slash and [u]. *)
Definition escape_letters : wstring := [98; 102; 110; 114; 116; 34; 92; 47; 117].

(** The loop of [encode] over the entries of an object. *)
Definition encode_pairs (pr : wchar_t -> bool) (show_double : float -> wstring) :=
  fix pairs (first : bool) (o : list (wstring * Value)) : wstring :=
    match o with
    | [] => []
    | it :: o' =>
        (if first then [] else wstr ", ")
        ++ ([Ch.quote] ++ fst it ++ [Ch.quote] ++ wstr ":")
        ++ encode pr show_double (snd it) ++ pairs false o'
    end.

(** A code unit that the string loop copies as it is. *)
Definition plain_unit (c : wchar_t) : Prop :=
  c <> 0 /\ c <> Ch.quote /\ c <> Ch.backslash.

(** *** Number tokens *)

(** The sign that may follow the exponent marker. *)
Inductive exp_sign : Type := NoSign | PlusSign | MinusSign.

(** A number token by its parts: the minus sign, the digits of the integer
    part, the digits of the fraction when there is one, and the exponent
    when there is one (upper-case marker or not, its sign, its digits). *)
Record number_token : Type := {
  tok_negative : bool;
  tok_integer : wstring;
  tok_fraction : option wstring;
  tok_exponent : option (bool * exp_sign * wstring)
}.

(** At least one code unit, all of them decimal digits. *)
Definition digits_ok (ds : wstring) : bool :=
  negb (Nat.eqb (List.length ds) 0) && forallb iswdigit ds.

(** The grammar of a JSON number: the integer part is [0] alone or starts
    with another digit. *)
Definition token_ok (t : number_token) : bool :=
  digits_ok (tok_integer t)
  && (negb (hd 0 (tok_integer t) =? Ch.zero)
      || Nat.eqb (List.length (tok_integer t)) 1)
  && match tok_fraction t with Some fd => digits_ok fd | None => true end
  && match tok_exponent t with Some (_, _, ed) => digits_ok ed | None => true end.

(** The text of a token. *)
Definition token_text (t : number_token) : wstring :=
  (if tok_negative t then [Ch.minus] else [])
  ++ tok_integer t
  ++ match tok_fraction t with Some fd => Ch.dot :: fd | None => [] end
  ++ match tok_exponent t with
     | Some (upper, s, ed) =>
         (if upper then 69 else 101)
         :: match s with
            | NoSign => []
            | PlusSign => [Ch.plus]
            | MinusSign => [Ch.minus]
            end
         ++ ed
     | None => []
     end.

(** The code unit [c] after the token does not continue it. *)
Definition token_ends_before (t : number_token) (c : wchar_t) : bool :=
  negb (iswdigit c)
  && match tok_fraction t, tok_exponent t with
     | None, None => negb (c =? Ch.dot)
     | _, _ => true
     end
  && match tok_exponent t with
     | None => negb (c =? 101) && negb (c =? 69)
     | Some _ => true
     end.

(** The number a run of digits writes, accumulated in an [int]. *)
Definition digits_value (ds : wstring) : Z :=
  fold_left (fun res d => wrap_int (res * 10 + d - Ch.zero)) ds 0.

(** The value of the exponent digits; 0 without an exponent. *)
Definition exponent_value (t : number_token) : Z :=
  match tok_exponent t with Some (_, _, ed) => digits_value ed | None => 0 end.

(** The value of a token: an Integer when it has no fraction and its
    exponent is absent or worth zero, otherwise the Float
    [+-(integer + fraction / 10^digits) * 10^(+-exponent)]. *)
Definition token_value (pow : float -> float -> float) (t : number_token) : Value :=
  let integer := digits_value (tok_integer t) in
  match tok_fraction t, exponent_value t =? 0 with
  | None, true => Integer (if tok_negative t then wrap_int (- integer) else integer)
  | _, _ =>
      let fd := match tok_fraction t with Some fd => fd | None => [] end in
      let mantissa :=
        (int_to_double integer
         + int_to_double (digits_value fd)
           / pow 10 (int_to_double (Z.of_nat (List.length fd))))%float in
      let exponent :=
        match tok_exponent t with
        | Some (_, MinusSign, _) => wrap_int (- exponent_value t)
        | _ => exponent_value t
        end in
      Float ((if tok_negative t then - mantissa else mantissa)
             * pow 10 (int_to_double exponent))%float
  end.

(** The text of the fraction and of the exponent of a token. *)
Definition fraction_text (f : option wstring) : wstring :=
  match f with Some fd => Ch.dot :: fd | None => [] end.

Definition exponent_text (e : option (bool * exp_sign * wstring)) : wstring :=
  match e with
  | Some (upper, s, ed) =>
      (if upper then 69 else 101)
      :: match s with
         | NoSign => []
         | PlusSign => [Ch.plus]
         | MinusSign => [Ch.minus]
         end
      ++ ed
  | None => []
  end.

(** The two optional parts of [decode_number], each as the source reads
    it: the result and the cursor behind the part. *)
Definition number_fraction (data : wstring) (pos : nat) : outcome (Z * Z * nat) :=
  if char_at data pos =? Ch.dot then
    let pos := S pos in
    if negb (iswdigit (char_at data pos))
    then Raise (InvalidCharacter "Invalid digit" pos)
    else
      let oldpos := pos in
      let '(remainder, pos) := decode_integer data pos in
      Ok (remainder, Z.of_nat (pos - oldpos), pos)
  else Ok (0, 0, pos).

Definition number_exponent (data : wstring) (pos : nat) : outcome (Z * bool * nat) :=
  if (char_at data pos =? 101) || (char_at data pos =? 69) then
    let pos := S pos in
    let '(neg_exponent, pos) :=
      if char_at data pos =? Ch.plus then (false, S pos)
      else if char_at data pos =? Ch.minus then (true, S pos)
      else (false, pos) in
    if negb (iswdigit (char_at data pos))
    then Raise (InvalidCharacter "Invalid digit" pos)
    else
      let '(exponent, pos) := decode_integer data pos in
      Ok (exponent, neg_exponent, pos)
  else Ok (0, false, pos).

(** *** Values that the encoder writes so that the decoder reads them back *)

(** The loop of [encode] over the elements of a list. *)
Definition encode_elements (pr : wchar_t -> bool) (show_double : float -> wstring) :=
  fix elements (first : bool) (l : list Value) : wstring :=
    match l with
    | [] => []
    | it :: l' =>
        (if first then [] else wstr ", ")
        ++ encode pr show_double it ++ elements false l'
    end.

(** A code unit of a string value that comes back as it was: printable,
    or written as a [\u] escape of four digits. *)
Definition unit_round_trips (pr : wchar_t -> bool) (c : wchar_t) : Prop :=
  iswprint pr c = true \/ 0 <= c < 32768.

(** Null, the booleans, the integers of the [int] range and the strings
    of such code units. *)
Inductive scalar (pr : wchar_t -> bool) : Value -> Prop :=
| scalar_Null : scalar pr Null
| scalar_Boolean (b : bool) : scalar pr (Boolean b)
| scalar_Integer (i : Z) : - 2 ^ 31 <= i < 2 ^ 31 -> scalar pr (Integer i)
| scalar_String (s : wstring) :
    Forall (unit_round_trips pr) s -> scalar pr (String s).

(** The text of one entry of an object. *)
Definition pair_text (pr : wchar_t -> bool) (show_double : float -> wstring)
    (kv : wstring * Value) : wstring :=
  ([Ch.quote] ++ fst kv ++ [Ch.quote] ++ wstr ":") ++ encode pr show_double (snd kv).

(** An entry that comes back as it was: keys are written without escapes,
    so the key holds no terminator, double quote or backslash; the value
    is a scalar. *)
Definition pair_round_trips (pr : wchar_t -> bool) (kv : wstring * Value) : Prop :=
  Forall plain_unit (fst kv) /\ scalar pr (snd kv).

(** A scalar, a list of scalars, or an object of scalars under distinct
    keys. *)
Inductive flat (pr : wchar_t -> bool) : Value -> Prop :=
| flat_scalar (v : Value) : scalar pr v -> flat pr v
| flat_List (l : list Value) : Forall (scalar pr) l -> flat pr (List l)
| flat_Object (o : list (wstring * Value)) :
    Forall (pair_round_trips pr) o ->
    NoDup (map fst o) ->
    flat pr (Object o).

(** The number a run of digits writes, without the wrap of [int]. *)
Definition digits_number (ds : wstring) (res : Z) : Z :=
  fold_left (fun res d => res * 10 + (d - Ch.zero)) ds res.

(** A code unit that opens the text of a value: it ends no container
    and is no space. *)
Definition opens_value (c : wchar_t) : Prop :=
  c <> 0 /\ c <> Ch.rbracket /\ c <> Ch.rbrace
  /\ forall sp, iswspace sp c = false.

(** A code unit that may stand behind the text of a value: the end of the
    input, a comma, a closing bracket or a closing brace. *)
Definition after_value (c : wchar_t) : Prop :=
  In c [0; Ch.comma; Ch.rbracket; Ch.rbrace].

(** *** Notions used to state further properties of the code *)

(** The position an exception carries. *)
Definition error_position (e : ParseError) : nat :=
  match e with
  | InvalidCharacter _ position => position
  | UnexpectedEof _ position => position
  end.

(** A code unit on which [decode_value] raises [Invalid character found]:
    it is the terminator or no space, and none of the cases of the
    [switch] takes it. *)
Definition opens_no_value (sp : wchar_t -> bool) (c : wchar_t) : Prop :=
  (c = 0 \/ iswspace sp c = false)
  /\ ~ In c [116; 102; 110; Ch.quote; Ch.lbrace; Ch.lbracket; Ch.minus]
  /\ iswdigit c = false.

(** A code unit behind the text of [x] that does not continue it: after
    an integer, no digit, decimal point or exponent marker; after any other
    value, any code unit. *)
Definition ends_value (x : Value) (c : wchar_t) : Prop :=
  match x with
  | Integer _ => iswdigit c = false /\ c <> Ch.dot /\ c <> 101 /\ c <> 69
  | _ => True
  end.

(** An exponent marker, alone or with a sign. *)
Definition exponent_openings : list wstring :=
  [[101]; [69]; [101; Ch.plus]; [101; Ch.minus]; [69; Ch.plus]; [69; Ch.minus]].

(** The text of elements that each have the separator behind them: what
    [encode] writes for the elements in front of a further one. *)
Definition elements_then (pr : wchar_t -> bool) (show_double : float -> wstring)
    (l : list Value) : wstring :=
  flat_map (fun it => encode pr show_double it ++ wstr ", ") l.

(** Lists that nest only in their last element: a list of scalars, or
    scalars and then such a list. *)
Inductive right_nested (pr : wchar_t -> bool) : Value -> Prop :=
| right_nested_flat (l : list Value) :
    Forall (scalar pr) l -> right_nested pr (List l)
| right_nested_last (l : list Value) (v : Value) :
    Forall (scalar pr) l -> right_nested pr v -> right_nested pr (List (l ++ [v])).

(** Texts put one after the other with a separator between them. *)
Fixpoint join (sep : wstring) (texts : list wstring) : wstring :=
  match texts with
  | [] => []
  | [text] => text
  | text :: rest => text ++ sep ++ join sep rest
  end.

(** A text of printable code units. *)
Definition printable (pr : wchar_t -> bool) (text : wstring) : Prop :=
  Forall (fun c => iswprint pr c = true) text.

(** The keys of all objects in a value are printable. *)
Fixpoint keys_printable (pr : wchar_t -> bool) (v : Value) {struct v} : Prop :=
  match v with
  | List l =>
      (fix all (l : list Value) : Prop :=
         match l with
         | [] => True
         | it :: l' => keys_printable pr it /\ all l'
         end) l
  | Object o =>
      (fix all (o : list (wstring * Value)) : Prop :=
         match o with
         | [] => True
         | it :: o' =>
             (printable pr (fst it) /\ keys_printable pr (snd it)) /\ all o'
         end) o
  | _ => True
  end.

(** An exception as the decoder raises it on [data]: its position is a
    position of the buffer, the terminator included; an [UnexpectedEof]
    carries the message of [decode_string] and stands on a terminator,
    behind a double quote. *)
Definition sound_error (data : wstring) (e : ParseError) : Prop :=
  (error_position e <= List.length data)%nat
  /\ match e with
     | UnexpectedEof message position =>
         message = "Unexpected end of input"%string
         /\ char_at data position = 0
         /\ exists i, (i < position)%nat /\ char_at data i = Ch.quote
     | InvalidCharacter _ _ => True
     end.

(** The outcome of a production stays within the buffer: the cursor it
    returns, or the exception it raises. *)
Definition within {A : Type} (data : wstring) (r : outcome (A * nat)) : Prop :=
  match r with
  | Ok (_, pos) => (pos <= List.length data)%nat
  | Raise e => sound_error data e
  | OutOfFuel => True
  end.

(** An exception, and an outcome, with its position moved [k] code units
    to the right. *)
Definition shift_error (k : nat) (e : ParseError) : ParseError :=
  match e with
  | InvalidCharacter message position => InvalidCharacter message (k + position)
  | UnexpectedEof message position => UnexpectedEof message (k + position)
  end.

Definition shifted {A : Type} (k : nat) (r : outcome (A * nat)) : outcome (A * nat) :=
  match r with
  | Ok (a, pos) => Ok (a, (k + pos)%nat)
  | Raise e => Raise (shift_error k e)
  | OutOfFuel => OutOfFuel
  end.

Definition shifted_error {A : Type} (k : nat) (r : outcome A) : outcome A :=
  match r with
  | Raise e => Raise (shift_error k e)
  | _ => r
  end.

(** An element of a list with the white space in front of it and behind
    it, and the text of such elements with commas between them. *)
Definition spaced_element (pr : wchar_t -> bool) (show_double : float -> wstring)
    (it : wstring * Value * wstring) : wstring :=
  fst (fst it) ++ encode pr show_double (snd (fst it)) ++ snd it.

Definition spaced_elements (pr : wchar_t -> bool) (show_double : float -> wstring)
    (items : list (wstring * Value * wstring)) : wstring :=
  join [Ch.comma] (map (spaced_element pr show_double) items).

(** The element is a scalar and what surrounds it is white space. *)
Definition spaced_ok (sp pr : wchar_t -> bool) (it : wstring * Value * wstring)
    : Prop :=
  Forall (fun c => iswspace sp c = true) (fst (fst it))
  /\ scalar pr (snd (fst it))
  /\ Forall (fun c => iswspace sp c = true) (snd it).


Definition entries_then (pr : wchar_t -> bool) (show_double : float -> wstring)
    (ws : wstring) (o : list (wstring * Value)) : wstring :=
  flat_map (fun it => pair_text pr show_double it ++ Ch.comma :: ws) o.

(** The object that the loop of [decode_object] builds from entries read
    in this order: each one goes through [insert]. *)
Definition inserted (o object : list (wstring * Value)) : list (wstring * Value) :=
  fold_left (fun object it => object_insert (fst it) (snd it) object) o object.


(** An element of a list with a comma behind it: the element, white
    space, the comma, white space. *)
Definition element_then (pr : wchar_t -> bool) (show_double : float -> wstring)
    (it : Value * wstring * wstring) : wstring :=
  encode pr show_double (fst (fst it)) ++ snd (fst it) ++ Ch.comma :: snd it.

(** The element is a scalar and what stands around the comma is white
    space. *)
Definition element_then_ok (sp pr : wchar_t -> bool) (it : Value * wstring * wstring)
    : Prop :=
  scalar pr (fst (fst it))
  /\ Forall (fun c => iswspace sp c = true) (snd (fst it))
  /\ Forall (fun c => iswspace sp c = true) (snd it).

(** The decimal number that the exponent digits of a token write, and the
    digits of its fraction; 0 and no digits when the part is absent. *)
Definition exponent_number (t : number_token) : Z :=
  match tok_exponent t with Some (_, _, ed) => digits_number ed 0 | None => 0 end.

Definition fraction_digits (t : number_token) : wstring :=
  match tok_fraction t with Some fd => fd | None => [] end.

(** * Properties *)

Arguments skip_spaces locale_space data pos : simpl never.
Arguments compare_forward data pos expected : simpl never.
Arguments decode_string data pos : simpl never.
Arguments wstr s : simpl never.


(** ** Reading the buffer *)

Lemma char_at_overflow (data : wstring) (pos : nat) :
  (List.length data <= pos)%nat -> char_at data pos = 0.
Proof. intros H. unfold char_at. now apply nth_overflow. Qed.

Lemma char_at_nonzero (data : wstring) (pos : nat) :
  char_at data pos <> 0 -> (pos < List.length data)%nat.
Proof.
  intros H. destruct (Nat.lt_ge_cases pos (List.length data)) as [Hlt | Hge]; auto.
  exfalso. apply H. now apply char_at_overflow.
Qed.

Lemma skipn_cons_char_at (data : wstring) (pos : nat) (c : wchar_t) (rest : wstring) :
  skipn pos data = c :: rest -> char_at data pos = c /\ skipn (S pos) data = rest.
Proof.
  revert data. induction pos as [| pos IH]; intros [| d data] H; simpl in H; try discriminate.
  - injection H as -> ->. split; reflexivity.
  - apply IH in H. exact H.
Qed.

Lemma skipn_nil_char_at (data : wstring) (pos : nat) :
  skipn pos data = [] -> char_at data pos = 0.
Proof.
  revert data. induction pos as [| pos IH]; intros [| d data] H; simpl in H;
    try discriminate; try reflexivity.
  now apply IH.
Qed.

(** ** Integers and digits *)

Lemma wrap_int_small (z : Z) : - 2 ^ 31 <= z < 2 ^ 31 -> wrap_int z = z.
Proof.
  intros H. unfold wrap_int.
  change (2 ^ 31) with 2147483648 in *. change (2 ^ 32) with 4294967296.
  rewrite Z.mod_small; lia.
Qed.

Lemma iswdigit_range (c : wchar_t) : iswdigit c = true -> 48 <= c <= 57.
Proof.
  unfold iswdigit. destruct (Z.leb_spec 48 c), (Z.leb_spec c 57);
    cbn [andb]; try discriminate; lia.
Qed.

(** ** Literal matching *)

Lemma compare_forward_loop_spec (rest data expected : wstring) :
  Forall (fun c => c <> 0) rest ->
  forall datapos exppos,
    skipn exppos expected = rest ->
    (starts_with rest (skipn datapos data) = true ->
     compare_forward_loop (List.length rest) data expected datapos exppos
     = ((datapos + List.length rest)%nat, (exppos + List.length rest)%nat))
    /\ (starts_with rest (skipn datapos data) = false ->
        char_at expected
          (snd (compare_forward_loop (List.length rest) data expected datapos exppos))
        <> 0).
Proof.
  induction 1 as [| e rest He Hrest IH]; intros datapos exppos Hexp.
  - simpl. split; [intros _ | discriminate].
    now rewrite !Nat.add_0_r.
  - destruct (skipn_cons_char_at _ _ _ _ Hexp) as [Hce Hexp'].
    simpl compare_forward_loop. rewrite Hce.
    destruct (skipn datapos data) as [| t text] eqn:Hdata.
    + rewrite (skipn_nil_char_at _ _ Hdata). simpl.
      split; [discriminate | intros _; now rewrite Hce].
    + destruct (skipn_cons_char_at _ _ _ _ Hdata) as [Hcd Hdata'].
      rewrite Hcd. simpl starts_with.
      assert (Hne : (e =? 0) = false) by now apply Z.eqb_neq.
      rewrite Hne. simpl negb. rewrite andb_true_r.
      rewrite (Z.eqb_sym t e).
      destruct (e =? t) eqn:Het.
      * apply Z.eqb_eq in Het. rewrite <- Het. rewrite Hne. simpl.
        destruct (IH (S datapos) (S exppos) Hexp') as [IHt IHf].
        rewrite Hdata' in IHt, IHf.
        split.
        -- intros Hs. rewrite (IHt Hs). f_equal; lia.
        -- exact IHf.
      * rewrite andb_false_r. simpl.
        split; [discriminate | intros _; now rewrite Hce].
Qed.

(** The result of [compare_forward] on a literal (a C string, so without
    an inner terminator): [true] with the cursor behind the literal when
    the whole literal stands at the cursor, [false] with the cursor
    where it was otherwise. *)
Lemma compare_forward_spec (data : wstring) (pos : nat) (expected : wstring) :
  Forall (fun c => c <> 0) expected ->
  compare_forward data pos expected
  = if literal_at data pos expected
    then (true, (pos + List.length expected)%nat)
    else (false, pos).
Proof.
  intros Hnz. unfold compare_forward, literal_at.
  destruct (compare_forward_loop_spec expected data expected Hnz pos 0 eq_refl)
    as [Ht Hf].
  destruct (starts_with expected (skipn pos data)).
  - rewrite (Ht eq_refl). simpl Nat.add.
    now rewrite char_at_overflow by lia.
  - specialize (Hf eq_refl).
    destruct (compare_forward_loop _ _ _ _ _) as [datapos exppos].
    simpl in Hf. apply Z.eqb_neq in Hf. now rewrite Hf.
Qed.

(** ** The cursor only moves forward, and the fuel of [decode] suffices *)

Section Progress.

Variable sp : wchar_t -> bool.
Variable pow : float -> float -> float.

Lemma skip_spaces_loop_ge (n : nat) (data : wstring) :
  forall pos, (pos <= skip_spaces_loop sp n data pos)%nat.
Proof.
  induction n as [| n IH]; intros pos; cbn [skip_spaces_loop]; [lia | ].
  destruct (negb (char_at data pos =? 0) && iswspace sp (char_at data pos));
    [specialize (IH (S pos)) | ]; lia.
Qed.

Lemma skip_spaces_ge (data : wstring) (pos : nat) :
  (pos <= skip_spaces sp data pos)%nat.
Proof. apply skip_spaces_loop_ge. Qed.

(** [skip_spaces] stops on the terminator or on a code unit that is no
    space: the bound on the rounds of the loop is never what stops it. *)
Lemma skip_spaces_loop_stops (n : nat) (data : wstring) :
  forall pos, (List.length data - pos <= n)%nat ->
    negb (char_at data (skip_spaces_loop sp n data pos) =? 0)
    && iswspace sp (char_at data (skip_spaces_loop sp n data pos)) = false.
Proof.
  induction n as [| n IH]; intros pos Hn; cbn [skip_spaces_loop].
  - rewrite char_at_overflow by lia. reflexivity.
  - destruct (negb (char_at data pos =? 0) && iswspace sp (char_at data pos)) eqn:E.
    + apply IH. lia.
    + exact E.
Qed.

Lemma skip_spaces_stops (data : wstring) (pos : nat) :
  negb (char_at data (skip_spaces sp data pos) =? 0)
  && iswspace sp (char_at data (skip_spaces sp data pos)) = false.
Proof. apply skip_spaces_loop_stops. lia. Qed.

Lemma decode_integer_loop_ge (n : nat) (data : wstring) :
  forall pos res, (pos <= snd (decode_integer_loop n data pos res))%nat.
Proof.
  induction n as [| n IH]; intros pos res; cbn [decode_integer_loop]; [cbn; lia | ].
  destruct (negb (char_at data pos =? 0) && iswdigit (char_at data pos));
    [specialize (IH (S pos) (wrap_int (res * 10 + char_at data pos - Ch.zero))) | cbn];
    lia.
Qed.

Lemma decode_integer_ge (data : wstring) (pos : nat) :
  (pos <= snd (decode_integer data pos))%nat.
Proof. apply decode_integer_loop_ge. Qed.

(** On a digit, [decode_integer] reads at least that digit. *)
Lemma decode_integer_gt (data : wstring) (pos : nat) :
  iswdigit (char_at data pos) = true ->
  (pos < snd (decode_integer data pos))%nat.
Proof.
  intros Hd. pose proof (iswdigit_range _ Hd) as Hr.
  assert (Hlen : (pos < List.length data)%nat) by (apply char_at_nonzero; lia).
  unfold decode_integer.
  destruct (List.length data - pos)%nat as [| n] eqn:E; [lia | ].
  cbn [decode_integer_loop]. rewrite Hd.
  replace (char_at data pos =? 0) with false by (symmetry; apply Z.eqb_neq; lia).
  cbn [negb andb].
  pose proof (decode_integer_loop_ge n data (S pos)
                (wrap_int (0 * 10 + char_at data pos - Ch.zero))). lia.
Qed.

Lemma unescape_hex_fuel (n : nat) (data : wstring) (pos : nat) :
  forall i code, unescape_hex n data pos i code <> OutOfFuel.
Proof.
  induction n as [| n IH]; intros i code; cbn [unescape_hex]; [discriminate | ].
  destruct (negb (iswxdigit (char_at data (pos + i)))); [discriminate | apply IH].
Qed.

Lemma unescape_gt (data : wstring) (pos : nat) (c : wchar_t) (pos' : nat) :
  unescape data pos = Ok (c, pos') -> (pos < pos')%nat.
Proof.
  unfold unescape.
  repeat match goal with
  | |- context [if ?b then _ else _] => destruct b
  end;
    try (intros H; injection H as _ <-; lia); try discriminate.
  destruct (unescape_hex 4 data (S pos) 0 0); cbn [bind]; try discriminate.
  intros H; injection H as _ <-; lia.
Qed.

Lemma unescape_fuel (data : wstring) (pos : nat) : unescape data pos <> OutOfFuel.
Proof.
  unfold unescape.
  repeat match goal with
  | |- context [if ?b then _ else _] => destruct b
  end; try discriminate.
  pose proof (unescape_hex_fuel 4 data (S pos) 0 0).
  destruct (unescape_hex 4 data (S pos) 0 0); cbn [bind]; congruence.
Qed.

Lemma decode_string_loop_ge (n : nat) (data : wstring) :
  forall pos str escape str' pos',
    decode_string_loop n data pos str escape = Ok (str', pos') ->
    (pos <= pos')%nat.
Proof.
  induction n as [| n IH]; intros pos str escape str' pos';
    cbn [decode_string_loop];
    destruct (negb (char_at data pos =? 0)
              && (escape || negb (char_at data pos =? Ch.quote)));
    try discriminate; try (intros H; injection H as _ <-; lia).
  destruct escape.
  - destruct (unescape data pos) as [[ch p] | e | ] eqn:Eu; cbn [bind];
      try discriminate.
    intros H. apply IH in H. apply unescape_gt in Eu. lia.
  - destruct (char_at data pos =? Ch.backslash); intros H; apply IH in H; lia.
Qed.

Lemma decode_string_loop_fuel (n : nat) (data : wstring) :
  forall pos str escape,
    (List.length data - pos <= n)%nat ->
    decode_string_loop n data pos str escape <> OutOfFuel.
Proof.
  induction n as [| n IH]; intros pos str escape Hn; cbn [decode_string_loop];
    destruct (negb (char_at data pos =? 0)
              && (escape || negb (char_at data pos =? Ch.quote))) eqn:Ec;
    try discriminate.
  - rewrite char_at_overflow in Ec by lia. discriminate.
  - assert (Hlen : (pos < List.length data)%nat).
    { apply char_at_nonzero. intros E0. rewrite E0 in Ec. discriminate. }
    destruct escape.
    + pose proof (unescape_fuel data pos) as Hf.
      destruct (unescape data pos) as [[ch p] | e | ] eqn:Eu; cbn [bind];
        try discriminate; try congruence.
      apply unescape_gt in Eu. apply IH. lia.
    + destruct (char_at data pos =? Ch.backslash); apply IH; lia.
Qed.

Lemma decode_string_gt (data : wstring) (pos : nat) (value : Value) (pos' : nat) :
  decode_string data pos = Ok (value, pos') -> (pos < pos')%nat.
Proof.
  unfold decode_string.
  destruct (decode_string_loop _ data (S pos) [] false) as [[str p] | e | ] eqn:El;
    cbn [bind]; try discriminate.
  apply decode_string_loop_ge in El.
  destruct (char_at data p =? 0); try discriminate.
  intros H; injection H as _ <-; lia.
Qed.

Lemma decode_string_fuel (data : wstring) (pos : nat) :
  decode_string data pos <> OutOfFuel.
Proof.
  unfold decode_string.
  pose proof (decode_string_loop_fuel (List.length data - S pos) data (S pos) [] false
                ltac:(lia)) as Hf.
  destruct (decode_string_loop _ data (S pos) [] false) as [[str p] | e | ];
    cbn [bind]; try discriminate; try congruence.
  destruct (char_at data p =? 0); discriminate.
Qed.

Lemma decode_number_fuel (data : wstring) (pos : nat) :
  decode_number pow data pos <> OutOfFuel.
Proof.
  unfold decode_number.
  repeat match goal with
  | |- context [let '(_, _) := ?p in _] => destruct p
  | |- context [if ?b then _ else _] => destruct b
  | |- _ => progress cbn [bind]
  end; discriminate.
Qed.

Lemma decode_number_gt (data : wstring) (pos : nat) (value : Value) (pos' : nat) :
  decode_number pow data pos = Ok (value, pos') -> (pos < pos')%nat.
Proof.
  unfold decode_number.
  set (p0 := if char_at data pos =? Ch.minus then (true, S pos) else (false, pos)).
  assert (H0 : (pos <= snd p0)%nat)
    by (subst p0; destruct (char_at data pos =? Ch.minus); cbn; lia).
  destruct p0 as [neg_mantissa pos0]. cbn [snd] in H0.
  destruct (iswdigit (char_at data pos0)) eqn:Hd; cbn [negb]; [ | discriminate].
  set (p1 := if negb (char_at data pos0 =? Ch.zero)
             then decode_integer data pos0 else (0, S pos0)).
  assert (H1 : (pos0 < snd p1)%nat).
  { subst p1. destruct (negb (char_at data pos0 =? Ch.zero)); cbn [snd]; [ | lia].
    now apply decode_integer_gt. }
  destruct p1 as [integer pos1]. cbn [snd] in H1.
  match goal with |- context [bind ?m _] =>
    assert (H2 : forall r c p, m = Ok (r, c, p) -> (pos1 <= p)%nat);
      [ | destruct m as [[[remainder remainder_count] pos2] | e | ] eqn:E2;
          cbn [bind]; try discriminate; specialize (H2 _ _ _ eq_refl) ]
  end.
  { intros r c p. destruct (char_at data pos1 =? Ch.dot).
    - destruct (negb (iswdigit (char_at data (S pos1)))); [discriminate | ].
      pose proof (decode_integer_ge data (S pos1)) as Hge.
      destruct (decode_integer data (S pos1)) as [r' p']. cbn [snd] in Hge.
      intros H; injection H as _ _ <-. lia.
    - intros H; injection H as _ _ <-. lia. }
  match goal with |- context [bind ?m _] =>
    assert (H3 : forall x b p, m = Ok (x, b, p) -> (pos2 <= p)%nat);
      [ | destruct m as [[[exponent neg_exponent] pos3] | e | ] eqn:E3;
          cbn [bind]; try discriminate; specialize (H3 _ _ _ eq_refl) ]
  end.
  { intros x b p.
    destruct ((char_at data pos2 =? 101) || (char_at data pos2 =? 69));
      [ | intros H; injection H as _ _ <-; lia].
    set (ps := if char_at data (S pos2) =? Ch.plus then (false, S (S pos2))
               else if char_at data (S pos2) =? Ch.minus then (true, S (S pos2))
                    else (false, S pos2)).
    assert (Hs : (S pos2 <= snd ps)%nat).
    { subst ps. destruct (char_at data (S pos2) =? Ch.plus); cbn [snd]; [lia | ].
      destruct (char_at data (S pos2) =? Ch.minus); cbn [snd]; lia. }
    destruct ps as [ne ps']. cbn [snd] in Hs.
    destruct (negb (iswdigit (char_at data ps'))); [discriminate | ].
    pose proof (decode_integer_ge data ps') as Hge.
    destruct (decode_integer data ps') as [x' p']. cbn [snd] in Hge.
    intros H; injection H as _ _ <-. lia. }
  destruct ((remainder_count =? 0) && (exponent =? 0));
    intros H; injection H as _ <-; lia.
Qed.

Lemma wstr_nonzero_true : Forall (fun c => c <> 0) (wstr "true").
Proof. vm_compute. repeat constructor; discriminate. Qed.

Lemma wstr_nonzero_false : Forall (fun c => c <> 0) (wstr "false").
Proof. vm_compute. repeat constructor; discriminate. Qed.

Lemma wstr_nonzero_null : Forall (fun c => c <> 0) (wstr "null").
Proof. vm_compute. repeat constructor; discriminate. Qed.

(** The three literals of [decode_value]: never out of fuel, and the
    cursor moves. *)
Lemma literal_case (data : wstring) (pos p : nat) (expected : wstring)
    (value : Value) (r : outcome (Value * nat)) :
  Forall (fun c => c <> 0) expected -> (0 < List.length expected)%nat ->
  (pos <= p)%nat ->
  r = match compare_forward data p expected with
      | (true, p') => Ok (value, p')
      | (false, p') => Raise (InvalidCharacter "Invalid token found" p')
      end ->
  r <> OutOfFuel /\ (forall v q, r = Ok (v, q) -> (pos < q)%nat).
Proof.
  intros Hnz Hlen Hp ->. rewrite (compare_forward_spec _ _ _ Hnz).
  destruct (literal_at data p expected); split; try discriminate.
  intros v q H. injection H as _ <-. lia.
Qed.

(** One unfolding of each production. *)
Lemma decode_value_S (fuel : nat) (data : wstring) (pos : nat) :
  decode_value sp pow (S fuel) data pos
  = let pos := skip_spaces sp data pos in
    let c := char_at data pos in
    if c =? 116 then
      match compare_forward data pos (wstr "true") with
      | (true, pos) => Ok (Boolean true, pos)
      | (false, pos) => Raise (InvalidCharacter "Invalid token found" pos)
      end
    else if c =? 102 then
      match compare_forward data pos (wstr "false") with
      | (true, pos) => Ok (Boolean false, pos)
      | (false, pos) => Raise (InvalidCharacter "Invalid token found" pos)
      end
    else if c =? 110 then
      match compare_forward data pos (wstr "null") with
      | (true, pos) => Ok (Null, pos)
      | (false, pos) => Raise (InvalidCharacter "Invalid token found" pos)
      end
    else if c =? Ch.quote then decode_string data pos
    else if c =? Ch.lbrace then decode_object sp pow fuel data pos
    else if c =? Ch.lbracket then decode_array sp pow fuel data pos
    else if iswdigit c || (c =? Ch.minus) then decode_number pow data pos
    else Raise (InvalidCharacter "Invalid character found" pos).
Proof. reflexivity. Qed.

Lemma decode_array_S (fuel : nat) (data : wstring) (pos : nat) :
  decode_array sp pow (S fuel) data pos
  = let pos := skip_spaces sp data (S pos) in
    let* (list, last, pos) :=
      if negb (char_at data pos =? Ch.rbracket)
      then decode_array_loop sp pow fuel data pos [] false
      else Ok ([], true, pos) in
    if negb last || negb (char_at data pos =? Ch.rbracket)
    then Raise (InvalidCharacter "List ended with an invalid character" pos)
    else Ok (List list, pos).
Proof. reflexivity. Qed.

Lemma decode_array_loop_S (fuel : nat) (data : wstring) (pos : nat)
    (list : Datatypes.list Value) (last : bool) :
  decode_array_loop sp pow (S fuel) data pos list last
  = if negb (char_at data pos =? 0) && negb last
       && negb (char_at data pos =? Ch.rbracket)
    then
      let pos := skip_spaces sp data pos in
      let* (value, pos) := decode_value sp pow fuel data pos in
      let pos := skip_spaces sp data pos in
      let '(last, pos) :=
        if char_at data pos =? Ch.comma then (false, S pos) else (true, pos) in
      decode_array_loop sp pow fuel data (skip_spaces sp data pos)
        (list ++ [value]) last
    else Ok (list, last, pos).
Proof. reflexivity. Qed.

Lemma decode_object_S (fuel : nat) (data : wstring) (pos : nat) :
  decode_object sp pow (S fuel) data pos
  = let pos := skip_spaces sp data (S pos) in
    let* (object, last, pos) :=
      if negb (char_at data pos =? Ch.rbrace)
      then decode_object_loop sp pow fuel data pos [] false
      else Ok ([], true, pos) in
    if negb last || negb (char_at data pos =? Ch.rbrace)
    then Raise (InvalidCharacter "Object ended with invalid character" pos)
    else Ok (Object object, pos).
Proof. reflexivity. Qed.

Lemma decode_object_loop_S (fuel : nat) (data : wstring) (pos : nat)
    (object : Datatypes.list (wstring * Value)) (last : bool) :
  decode_object_loop sp pow (S fuel) data pos object last
  = if negb (char_at data pos =? 0) && negb last
       && negb (char_at data pos =? Ch.rbrace)
    then
      let pos := skip_spaces sp data pos in
      if negb (char_at data pos =? Ch.quote)
      then Raise (InvalidCharacter "Expected string for key" pos)
      else
      let* (key, pos) := decode_string data pos in
      let pos := skip_spaces sp data pos in
      if negb (char_at data pos =? Ch.colon)
      then Raise (InvalidCharacter "Expected ':'" pos)
      else
      let pos := skip_spaces sp data (S pos) in
      let* (value, pos) := decode_value sp pow fuel data pos in
      let object :=
        match key with
        | String k => object_insert k value object
        | _ => object
        end in
      let pos := skip_spaces sp data pos in
      let '(last, pos) :=
        if char_at data pos =? Ch.comma then (false, S pos) else (true, pos) in
      decode_object_loop sp pow fuel data (skip_spaces sp data pos) object last
    else Ok (object, last, pos).
Proof. reflexivity. Qed.

(** With no fuel left a loop can still take its exit. *)
Lemma decode_array_loop_O (data : wstring) (pos : nat)
    (list : Datatypes.list Value) (last : bool) :
  decode_array_loop sp pow 0 data pos list last
  = if negb (char_at data pos =? 0) && negb last
       && negb (char_at data pos =? Ch.rbracket)
    then OutOfFuel else Ok (list, last, pos).
Proof. reflexivity. Qed.

Lemma decode_object_loop_O (data : wstring) (pos : nat)
    (object : Datatypes.list (wstring * Value)) (last : bool) :
  decode_object_loop sp pow 0 data pos object last
  = if negb (char_at data pos =? 0) && negb last
       && negb (char_at data pos =? Ch.rbrace)
    then OutOfFuel else Ok (object, last, pos).
Proof. reflexivity. Qed.

Ltac bind_cases H :=
  match type of H with
  | bind ?m _ = _ =>
      let E := fresh "E" in
      destruct m as [[[? ?] ?] | ? | ] eqn:E; cbn [bind] in H; try discriminate
  end.

(** Every production that returns has moved the cursor forward; the two
    loops never move it back. *)
Lemma decode_progress (data : wstring) (fuel : nat) :
  (forall pos v q,
     decode_value sp pow fuel data pos = Ok (v, q) -> (pos < q)%nat)
  /\ (forall pos v q,
        decode_array sp pow fuel data pos = Ok (v, q) -> (pos < q)%nat)
  /\ (forall pos l last l' last' q,
        decode_array_loop sp pow fuel data pos l last = Ok (l', last', q) ->
        (pos <= q)%nat)
  /\ (forall pos v q,
        decode_object sp pow fuel data pos = Ok (v, q) -> (pos < q)%nat)
  /\ (forall pos o last o' last' q,
        decode_object_loop sp pow fuel data pos o last = Ok (o', last', q) ->
        (pos <= q)%nat).
Proof.
  induction fuel as [| fuel (IHv & IHa & IHal & IHo & IHol)].
  - repeat split; intros until q; try discriminate.
    + rewrite decode_array_loop_O.
      destruct (negb (char_at data pos =? 0) && negb last
                && negb (char_at data pos =? Ch.rbracket)); try discriminate.
      intros H; injection H as _ _ <-; lia.
    + rewrite decode_object_loop_O.
      destruct (negb (char_at data pos =? 0) && negb last
                && negb (char_at data pos =? Ch.rbrace)); try discriminate.
      intros H; injection H as _ _ <-; lia.
  - split; [ | split; [ | split; [ | split]]].
    + (* decode_value *)
      intros pos v q. rewrite decode_value_S. cbv zeta.
      pose proof (skip_spaces_ge data pos) as Hs.
      set (p := skip_spaces sp data pos) in *.
      destruct (char_at data p =? 116).
      { intros H.
        refine (proj2 (literal_case data pos p (wstr "true") (Boolean true) _
                         wstr_nonzero_true _ Hs eq_refl) v q H).
        vm_compute; lia. }
      destruct (char_at data p =? 102).
      { intros H.
        refine (proj2 (literal_case data pos p (wstr "false") (Boolean false) _
                         wstr_nonzero_false _ Hs eq_refl) v q H).
        vm_compute; lia. }
      destruct (char_at data p =? 110).
      { intros H.
        refine (proj2 (literal_case data pos p (wstr "null") (Null) _
                         wstr_nonzero_null _ Hs eq_refl) v q H).
        vm_compute; lia. }
      destruct (char_at data p =? Ch.quote).
      { intros H. apply decode_string_gt in H. lia. }
      destruct (char_at data p =? Ch.lbrace).
      { intros H. apply IHo in H. lia. }
      destruct (char_at data p =? Ch.lbracket).
      { intros H. apply IHa in H. lia. }
      destruct (iswdigit (char_at data p) || (char_at data p =? Ch.minus));
        [ | discriminate].
      intros H. apply decode_number_gt in H. lia.
    + (* decode_array *)
      intros pos v q. rewrite decode_array_S. cbv zeta.
      pose proof (skip_spaces_ge data (S pos)) as Hs.
      set (p := skip_spaces sp data (S pos)) in *.
      intros H. bind_cases H.
      assert (Hq : (p <= n)%nat).
      { destruct (negb (char_at data p =? Ch.rbracket)).
        - now apply IHal in E.
        - injection E as _ _ <-. lia. }
      destruct (negb b || negb (char_at data n =? Ch.rbracket)); try discriminate.
      injection H as _ <-. lia.
    + (* decode_array_loop *)
      intros pos l last l' last' q. rewrite decode_array_loop_S. cbv zeta.
      destruct (negb (char_at data pos =? 0) && negb last
                && negb (char_at data pos =? Ch.rbracket));
        [ | intros H; injection H as _ _ <-; lia].
      pose proof (skip_spaces_ge data pos) as Hs1.
      set (p1 := skip_spaces sp data pos) in *.
      intros H.
      destruct (decode_value sp pow fuel data p1) as [[value p2] | e | ] eqn:Ev;
        cbn [bind] in H; try discriminate.
      apply IHv in Ev.
      pose proof (skip_spaces_ge data p2) as Hs3.
      set (p3 := skip_spaces sp data p2) in *.
      destruct (char_at data p3 =? Ch.comma); apply IHal in H.
      * pose proof (skip_spaces_ge data (S p3)). lia.
      * pose proof (skip_spaces_ge data p3). lia.
    + (* decode_object *)
      intros pos v q. rewrite decode_object_S. cbv zeta.
      pose proof (skip_spaces_ge data (S pos)) as Hs.
      set (p := skip_spaces sp data (S pos)) in *.
      intros H. bind_cases H.
      assert (Hq : (p <= n)%nat).
      { destruct (negb (char_at data p =? Ch.rbrace)).
        - now apply IHol in E.
        - injection E as _ _ <-. lia. }
      destruct (negb b || negb (char_at data n =? Ch.rbrace)); try discriminate.
      injection H as _ <-. lia.
    + (* decode_object_loop *)
      intros pos o last o' last' q. rewrite decode_object_loop_S. cbv zeta.
      destruct (negb (char_at data pos =? 0) && negb last
                && negb (char_at data pos =? Ch.rbrace));
        [ | intros H; injection H as _ _ <-; lia].
      pose proof (skip_spaces_ge data pos) as Hs1.
      set (p1 := skip_spaces sp data pos) in *.
      destruct (negb (char_at data p1 =? Ch.quote)); [discriminate | ].
      intros H.
      destruct (decode_string data p1) as [[key p2] | e | ] eqn:Ek;
        cbn [bind] in H; try discriminate.
      apply decode_string_gt in Ek.
      pose proof (skip_spaces_ge data p2) as Hs3.
      set (p3 := skip_spaces sp data p2) in *.
      destruct (negb (char_at data p3 =? Ch.colon)); [discriminate | ].
      pose proof (skip_spaces_ge data (S p3)) as Hs4.
      set (p4 := skip_spaces sp data (S p3)) in *.
      destruct (decode_value sp pow fuel data p4) as [[value p5] | e | ] eqn:Ev;
        cbn [bind] in H; try discriminate.
      apply IHv in Ev.
      pose proof (skip_spaces_ge data p5) as Hs6.
      set (p6 := skip_spaces sp data p5) in *.
      destruct (char_at data p6 =? Ch.comma); apply IHol in H.
      * pose proof (skip_spaces_ge data (S p6)). lia.
      * pose proof (skip_spaces_ge data p6). lia.
Qed.

Lemma cond_in_data (data : wstring) (pos : nat) (last : bool) (close : wchar_t) :
  negb (char_at data pos =? 0) && negb last && negb (char_at data pos =? close)
  = true ->
  (pos < List.length data)%nat.
Proof.
  intros H. apply char_at_nonzero. intros E. rewrite E in H. discriminate.
Qed.

(** Three units of fuel for every code unit still ahead are enough. *)
Lemma decode_fuel_enough (data : wstring) (fuel : nat) :
  (forall pos,
     (3 * (List.length data - pos) + 1 <= fuel)%nat ->
     decode_value sp pow fuel data pos <> OutOfFuel)
  /\ (forall pos,
        (pos < List.length data)%nat ->
        (3 * (List.length data - pos) <= fuel)%nat ->
        decode_array sp pow fuel data pos <> OutOfFuel)
  /\ (forall pos l last,
        (3 * (List.length data - pos) + 2 <= fuel)%nat ->
        decode_array_loop sp pow fuel data pos l last <> OutOfFuel)
  /\ (forall pos,
        (pos < List.length data)%nat ->
        (3 * (List.length data - pos) <= fuel)%nat ->
        decode_object sp pow fuel data pos <> OutOfFuel)
  /\ (forall pos o last,
        (3 * (List.length data - pos) + 2 <= fuel)%nat ->
        decode_object_loop sp pow fuel data pos o last <> OutOfFuel).
Proof.
  induction fuel as [| fuel (IHv & IHa & IHal & IHo & IHol)].
  - repeat split; intros; lia.
  - split; [ | split; [ | split; [ | split]]].
    + (* decode_value *)
      intros pos Hf. rewrite decode_value_S. cbv zeta.
      pose proof (skip_spaces_ge data pos) as Hs.
      set (p := skip_spaces sp data pos) in *.
      destruct (char_at data p =? 116).
      { refine (proj1 (literal_case data pos p (wstr "true") (Boolean true) _
                         wstr_nonzero_true _ Hs eq_refl)). vm_compute; lia. }
      destruct (char_at data p =? 102).
      { refine (proj1 (literal_case data pos p (wstr "false") (Boolean false) _
                         wstr_nonzero_false _ Hs eq_refl)). vm_compute; lia. }
      destruct (char_at data p =? 110).
      { refine (proj1 (literal_case data pos p (wstr "null") Null _
                         wstr_nonzero_null _ Hs eq_refl)). vm_compute; lia. }
      destruct (char_at data p =? Ch.quote); [apply decode_string_fuel | ].
      destruct (Z.eqb_spec (char_at data p) Ch.lbrace) as [E | _].
      { apply IHo; [apply char_at_nonzero; rewrite E; discriminate | lia]. }
      destruct (Z.eqb_spec (char_at data p) Ch.lbracket) as [E | _].
      { apply IHa; [apply char_at_nonzero; rewrite E; discriminate | lia]. }
      destruct (iswdigit (char_at data p) || (char_at data p =? Ch.minus));
        [apply decode_number_fuel | discriminate].
    + (* decode_array *)
      intros pos Hlen Hf. rewrite decode_array_S. cbv zeta.
      pose proof (skip_spaces_ge data (S pos)) as Hs.
      set (p := skip_spaces sp data (S pos)) in *.
      assert (Hl : decode_array_loop sp pow fuel data p [] false <> OutOfFuel)
        by (apply IHal; lia).
      destruct (negb (char_at data p =? Ch.rbracket)).
      * destruct (decode_array_loop sp pow fuel data p [] false)
          as [[[l last] q] | e | ]; cbn [bind]; try discriminate; try congruence.
        destruct (negb last || negb (char_at data q =? Ch.rbracket)); discriminate.
      * cbn [bind].
        destruct (negb true || negb (char_at data p =? Ch.rbracket)); discriminate.
    + (* decode_array_loop *)
      intros pos l last Hf. rewrite decode_array_loop_S. cbv zeta.
      destruct (negb (char_at data pos =? 0) && negb last
                && negb (char_at data pos =? Ch.rbracket)) eqn:Ec;
        [ | discriminate].
      apply cond_in_data in Ec.
      pose proof (skip_spaces_ge data pos) as Hs1.
      set (p1 := skip_spaces sp data pos) in *.
      assert (Hv : decode_value sp pow fuel data p1 <> OutOfFuel)
        by (apply IHv; lia).
      destruct (decode_value sp pow fuel data p1) as [[value p2] | e | ] eqn:Ev;
        cbn [bind]; try discriminate; try congruence.
      apply (proj1 (decode_progress data fuel)) in Ev.
      pose proof (skip_spaces_ge data p2) as Hs3.
      set (p3 := skip_spaces sp data p2) in *.
      destruct (char_at data p3 =? Ch.comma); apply IHal.
      * pose proof (skip_spaces_ge data (S p3)). lia.
      * pose proof (skip_spaces_ge data p3). lia.
    + (* decode_object *)
      intros pos Hlen Hf. rewrite decode_object_S. cbv zeta.
      pose proof (skip_spaces_ge data (S pos)) as Hs.
      set (p := skip_spaces sp data (S pos)) in *.
      assert (Hl : decode_object_loop sp pow fuel data p [] false <> OutOfFuel)
        by (apply IHol; lia).
      destruct (negb (char_at data p =? Ch.rbrace)).
      * destruct (decode_object_loop sp pow fuel data p [] false)
          as [[[o last] q] | e | ]; cbn [bind]; try discriminate; try congruence.
        destruct (negb last || negb (char_at data q =? Ch.rbrace)); discriminate.
      * cbn [bind].
        destruct (negb true || negb (char_at data p =? Ch.rbrace)); discriminate.
    + (* decode_object_loop *)
      intros pos o last Hf. rewrite decode_object_loop_S. cbv zeta.
      destruct (negb (char_at data pos =? 0) && negb last
                && negb (char_at data pos =? Ch.rbrace)) eqn:Ec;
        [ | discriminate].
      apply cond_in_data in Ec.
      pose proof (skip_spaces_ge data pos) as Hs1.
      set (p1 := skip_spaces sp data pos) in *.
      destruct (negb (char_at data p1 =? Ch.quote)); [discriminate | ].
      pose proof (decode_string_fuel data p1) as Hk.
      destruct (decode_string data p1) as [[key p2] | e | ] eqn:Ek;
        cbn [bind]; try discriminate; try congruence.
      apply decode_string_gt in Ek.
      pose proof (skip_spaces_ge data p2) as Hs3.
      set (p3 := skip_spaces sp data p2) in *.
      destruct (negb (char_at data p3 =? Ch.colon)); [discriminate | ].
      pose proof (skip_spaces_ge data (S p3)) as Hs4.
      set (p4 := skip_spaces sp data (S p3)) in *.
      assert (Hv : decode_value sp pow fuel data p4 <> OutOfFuel)
        by (apply IHv; lia).
      destruct (decode_value sp pow fuel data p4) as [[value p5] | e | ] eqn:Ev;
        cbn [bind]; try discriminate; try congruence.
      apply (proj1 (decode_progress data fuel)) in Ev.
      pose proof (skip_spaces_ge data p5) as Hs6.
      set (p6 := skip_spaces sp data p5) in *.
      destruct (char_at data p6 =? Ch.comma); apply IHol.
      * pose proof (skip_spaces_ge data (S p6)). lia.
      * pose proof (skip_spaces_ge data p6). lia.
Qed.

(** [decode] returns a value or throws: the fuel it starts with never
    runs out, whatever the text. *)
Theorem decode_total (json : wstring) :
  decode_at sp pow json <> OutOfFuel /\ decode sp pow json <> OutOfFuel.
Proof.
  assert (H : decode_at sp pow json <> OutOfFuel).
  { unfold decode_at, decode_fuel.
    apply (proj1 (decode_fuel_enough json _)). lia. }
  split; [exact H | ]. unfold decode.
  destruct (decode_at sp pow json) as [[v q] | e | ]; cbn [bind];
    try discriminate; congruence.
Qed.

End Progress.

(** [decode_value] on a code unit that opens one of the three literals:
    the literal is matched whole or the call throws at the cursor. *)
Lemma decode_value_literal (sp : wchar_t -> bool) (pow : float -> float -> float)
    (fuel : nat) (data : wstring) (pos : nat) (text : string) (value : Value) :
  In (text, value) [("true", Boolean true); ("false", Boolean false); ("null", Null)]%string ->
  char_at data (skip_spaces sp data pos) = char_at (wstr text) 0 ->
  decode_value sp pow (S fuel) data pos
  = if literal_at data (skip_spaces sp data pos) (wstr text)
    then Ok (value, (skip_spaces sp data pos + String.length text)%nat)
    else Raise (InvalidCharacter "Invalid token found" (skip_spaces sp data pos)).
Proof.
  intros Hin Hc. simpl decode_value. rewrite Hc.
  assert (Hlen : forall s, List.length (wstr s) = String.length s).
  { induction s as [| a s IH]; [reflexivity | ]. unfold wstr; fold wstr. simpl. now rewrite IH. }
  assert (Hnz : Forall (fun c => c <> 0) (wstr text)).
  { simpl in Hin. destruct Hin as [H | [H | [H | []]]]; injection H as <- <-;
      vm_compute; repeat constructor; discriminate. }
  simpl in Hin. destruct Hin as [H | [H | [H | []]]]; injection H as <- <-.
  - change (char_at (wstr "true") 0) with 116. simpl Z.eqb. cbv iota.
    rewrite (compare_forward_spec _ _ _ Hnz), Hlen.
    now destruct (literal_at _ _ _).
  - change (char_at (wstr "false") 0) with 102. simpl Z.eqb. cbv iota.
    rewrite (compare_forward_spec _ _ _ Hnz), Hlen.
    now destruct (literal_at _ _ _).
  - change (char_at (wstr "null") 0) with 110. simpl Z.eqb. cbv iota.
    rewrite (compare_forward_spec _ _ _ Hnz), Hlen.
    now destruct (literal_at _ _ _).
Qed.

(** C7: [compare_forward] moves the cursor exactly when the whole literal
    stands at the cursor (then to just behind it) and otherwise leaves the
    cursor where it was and answers [false]; [decode_value], on [t], [f] or
    [n], then throws InvalidCharacter at that same position; so decoding
    [truffle] throws InvalidCharacter at offset 0. *)
Theorem compare_forward_whole_literal_or_nothing
    (data : wstring) (pos : nat) (expected : wstring) :
  Forall (fun c => c <> 0) expected ->
  compare_forward data pos expected
  = (if literal_at data pos expected
     then (true, (pos + List.length expected)%nat)
     else (false, pos))
  /\ (forall sp pow fuel text value,
        In (text, value)
           [("true", Boolean true); ("false", Boolean false); ("null", Null)]%string ->
        char_at data (skip_spaces sp data pos) = char_at (wstr text) 0 ->
        literal_at data (skip_spaces sp data pos) (wstr text) = false ->
        decode_value sp pow (S fuel) data pos
        = Raise (InvalidCharacter "Invalid token found" (skip_spaces sp data pos)))
  /\ (forall sp pow,
        decode sp pow (wstr "truffle")
        = Raise (InvalidCharacter "Invalid token found" 0)).
Proof.
  intros Hnz. split; [ | split].
  - now apply compare_forward_spec.
  - intros sp pow fuel text value Hin Hc Hlit.
    rewrite (decode_value_literal sp pow fuel data pos text value Hin Hc).
    now rewrite Hlit.
  - intros sp pow. vm_compute. reflexivity.
Qed.

Lemma compare_forward_whole_literal_or_nothing_witness :
  compare_forward (wstr "truffle") 0 (wstr "true") = (false, 0%nat)
  /\ compare_forward (wstr "true]") 0 (wstr "true") = (true, 4%nat).
Proof.
  split.
  - refine (proj1 (compare_forward_whole_literal_or_nothing
                     (wstr "truffle") 0 (wstr "true") _)).
    vm_compute. repeat constructor; discriminate.
  - exact (proj1 (compare_forward_whole_literal_or_nothing
                    (wstr "true]") 0 (wstr "true")
                    ltac:(vm_compute; repeat constructor; discriminate))).
Defined.

(** ** Escapes in strings *)

Lemma hex_value_range (c : wchar_t) :
  iswxdigit c = true -> 0 <= hex_value c < 16.
Proof.
  unfold iswxdigit, hex_value, iswdigit. intros H.
  destruct (Z.leb_spec 48 c), (Z.leb_spec c 57), (Z.leb_spec 65 c),
    (Z.leb_spec c 70), (Z.leb_spec 97 c), (Z.leb_spec c 102);
    simpl in *; try discriminate; lia.
Qed.

Lemma hex_number_range (digits : wstring) (code : Z) :
  forallb iswxdigit digits = true ->
  0 <= code ->
  code * 16 ^ Z.of_nat (List.length digits)
  <= hex_number digits code
  < (code + 1) * 16 ^ Z.of_nat (List.length digits).
Proof.
  revert code. induction digits as [| d digits IH]; intros code Hx Hc.
  - simpl. lia.
  - simpl in Hx. apply andb_prop in Hx as [Hd Hx].
    pose proof (hex_value_range d Hd) as Hv.
    cbn [hex_number List.length]. specialize (IH (16 * code + hex_value d) Hx ltac:(lia)).
    rewrite Nat2Z.inj_succ, Z.pow_succ_r by lia.
    assert (0 < 16 ^ Z.of_nat (List.length digits)) by (apply Z.pow_pos_nonneg; lia).
    nia.
Qed.

(** One round of the loop of [unescape] adds one digit. *)
Lemma unescape_hex_round (c : wchar_t) (code : Z) :
  iswxdigit c = true -> 0 <= code < 2 ^ 28 ->
  (if iswdigit c then to_unsigned (to_unsigned (Z.shiftl code 4) + (c - 48))
   else if isupper c then to_unsigned (to_unsigned (Z.shiftl code 4) + (c - 65 + 10))
        else to_unsigned (to_unsigned (Z.shiftl code 4) + (c - 97 + 10)))
  = 16 * code + hex_value c.
Proof.
  intros Hx Hc. pose proof (hex_value_range c Hx) as Hv.
  assert (Hs : to_unsigned (Z.shiftl code 4) = 16 * code).
  { unfold to_unsigned. rewrite Z.shiftl_mul_pow2 by lia.
    rewrite Z.mod_small; lia. }
  rewrite Hs. unfold hex_value in *. unfold iswxdigit, iswdigit, isupper in *.
  change (2 ^ 28) with 268435456 in Hc.
  destruct (Z.leb_spec 48 c), (Z.leb_spec c 57), (Z.leb_spec 65 c),
    (Z.leb_spec c 70), (Z.leb_spec 97 c), (Z.leb_spec c 102), (Z.leb_spec c 90);
    cbn [andb orb] in *; try discriminate; try lia;
    unfold to_unsigned; change (2 ^ 32) with 4294967296;
    rewrite Z.mod_small; lia.
Qed.

Lemma unescape_hex_ok (n : nat) (data : wstring) (pos : nat) :
  forall (i : nat) (code : Z),
    forallb iswxdigit (units_at data pos i n) = true ->
    0 <= code -> (code + 1) * 16 ^ Z.of_nat n <= 2 ^ 32 ->
    unescape_hex n data pos i code = Ok (hex_number (units_at data pos i n) code).
Proof.
  induction n as [| n IH]; intros i code Hx Hc Hb.
  - reflexivity.
  - unfold units_at in *. cbn [seq map forallb] in Hx.
    apply andb_prop in Hx as [Hd Hx].
    cbn [unescape_hex seq map hex_number]. rewrite Hd. cbn [negb].
    rewrite Nat2Z.inj_succ, Z.pow_succ_r in Hb by lia.
    assert (0 < 16 ^ Z.of_nat n) by (apply Z.pow_pos_nonneg; lia).
    rewrite unescape_hex_round by (auto; change (2 ^ 28) with 268435456; change (2 ^ 32) with 4294967296 in Hb; nia).
    pose proof (hex_value_range _ Hd).
    apply IH; [exact Hx | lia | nia].
Qed.

Lemma unescape_hex_bad (n : nat) (data : wstring) (pos : nat) :
  forall (i : nat) (code : Z) (k : nat),
    (k < n)%nat ->
    forallb iswxdigit (units_at data pos i k) = true ->
    iswxdigit (char_at data (pos + (i + k))) = false ->
    unescape_hex n data pos i code
    = Raise (InvalidCharacter "Invalid hex code" (pos + (i + k))).
Proof.
  induction n as [| n IH]; intros i code k Hk Hx Hbad; [lia | ].
  cbn [unescape_hex]. destruct k as [| k].
  - rewrite Nat.add_0_r in *. rewrite Hbad. reflexivity.
  - unfold units_at in Hx. cbn [seq map forallb] in Hx.
    apply andb_prop in Hx as [Hd Hx]. rewrite Hd. cbn [negb].
    rewrite (IH (S i) _ k); [ | lia | exact Hx | ].
    + do 3 f_equal. lia.
    + now replace (S i + k)%nat with (i + S k)%nat by lia.
Qed.

Lemma unescape_unknown (data : wstring) (pos : nat) :
  ~ In (char_at data pos) escape_letters ->
  unescape data pos = Raise (InvalidCharacter "Invalid escape character found" pos).
Proof.
  intros Hn. unfold unescape, Ch.quote, Ch.backslash, Ch.slash.
  repeat match goal with
  | |- context [?a =? ?b] =>
      destruct (Z.eqb_spec a b) as [E | E];
      [exfalso; apply Hn; rewrite E; unfold escape_letters; simpl; tauto | clear E]
  end.
  reflexivity.
Qed.

Lemma unescape_u (data : wstring) (pos : nat) :
  char_at data pos = 117 ->
  unescape data pos
  = let* code := unescape_hex 4 data (S pos) 0 0 in
    Ok (wrap_int code, (S pos + 4)%nat).
Proof. intros H. unfold unescape. rewrite H. reflexivity. Qed.

(** In a string, a backslash followed by a code unit that is no escape
    letter (and not the terminator) makes [decode_string] throw there. *)
Lemma decode_string_unknown_escape (data : wstring) (pos : nat) :
  char_at data (S pos) = Ch.backslash ->
  char_at data (S (S pos)) <> 0 ->
  ~ In (char_at data (S (S pos))) escape_letters ->
  decode_string data pos
  = Raise (InvalidCharacter "Invalid escape character found" (S (S pos))).
Proof.
  intros Hb Hnz Hn. unfold decode_string.
  pose proof (char_at_nonzero _ _ Hnz) as Hlen.
  destruct (List.length data - S pos)%nat as [| [| n]] eqn:Hfuel; try lia.
  cbn [decode_string_loop]. rewrite Hb.
  change (negb (Ch.backslash =? 0) && (false || negb (Ch.backslash =? Ch.quote))) with true.
  cbn iota. rewrite Z.eqb_refl.
  apply Z.eqb_neq in Hnz. rewrite Hnz. cbn [negb andb orb].
  rewrite (unescape_unknown _ _ Hn). reflexivity.
Qed.

(** C8: after a backslash, [u] reads exactly four hexadecimal digits of
    either case and yields the one code unit below 65536 they write (no
    pairing of surrogates); the first of the four positions that holds no
    hexadecimal digit makes the call throw InvalidCharacter at that very
    offset; every code unit outside [b f n r t], the double quote, the
    backslash, the slash and [u] throws InvalidCharacter. *)
Theorem unescape_u_reads_four_hex_digits (data : wstring) (pos : nat) :
  (char_at data pos = 117 ->
   forallb iswxdigit (units_at data (S pos) 0 4) = true ->
   unescape data pos
   = Ok (hex_number (units_at data (S pos) 0 4) 0, (pos + 5)%nat)
   /\ 0 <= hex_number (units_at data (S pos) 0 4) 0 < 65536)
  /\ (forall k : nat,
        char_at data pos = 117 -> (k < 4)%nat ->
        forallb iswxdigit (units_at data (S pos) 0 k) = true ->
        iswxdigit (char_at data (S pos + k)) = false ->
        unescape data pos = Raise (InvalidCharacter "Invalid hex code" (S pos + k)))
  /\ (~ In (char_at data pos) escape_letters ->
      unescape data pos
      = Raise (InvalidCharacter "Invalid escape character found" pos))
  /\ (char_at data (S pos) = Ch.backslash ->
      char_at data (S (S pos)) <> 0 ->
      ~ In (char_at data (S (S pos))) escape_letters ->
      decode_string data pos
      = Raise (InvalidCharacter "Invalid escape character found" (S (S pos))))
  /\ (forall c, 65 <= c <= 70 -> hex_value (c + 32) = hex_value c)
  /\ (forall sp pow,
        decode sp pow (jtext "'\u0041'") = Ok (String [65])
        /\ decode sp pow (jtext "'\u00eF'") = Ok (String [239])
        /\ decode sp pow (jtext "'\ud83d\ude00'") = Ok (String [55357; 56832])
        /\ decode sp pow (jtext "'\u00g1'")
           = Raise (InvalidCharacter "Invalid hex code" 5)
        /\ decode sp pow (jtext "'\x'")
           = Raise (InvalidCharacter "Invalid escape character found" 2)).
Proof.
  assert (Hrange : forallb iswxdigit (units_at data (S pos) 0 4) = true ->
                   0 <= hex_number (units_at data (S pos) 0 4) 0 < 65536).
  { intros Hx. pose proof (hex_number_range _ 0 Hx ltac:(lia)) as Hr.
    change (List.length (units_at data (S pos) 0 4)) with 4%nat in Hr.
    change (16 ^ Z.of_nat 4) with 65536 in Hr. lia. }
  split; [ | split; [ | split; [ | split; [ | split ] ] ] ].
  - intros H H0. split; [ | now apply Hrange].
    rewrite (unescape_u _ _ H).
    rewrite unescape_hex_ok; [ | assumption | lia | vm_compute; discriminate].
    cbn [bind]. specialize (Hrange H0).
    rewrite wrap_int_small by (change (2 ^ 31) with 2147483648; lia).
    do 2 f_equal. lia.
  - intros k Hu Hk Hx Hbad. rewrite (unescape_u _ _ Hu).
    rewrite (unescape_hex_bad 4 data (S pos) 0 0 k Hk Hx Hbad). reflexivity.
  - apply unescape_unknown.
  - apply decode_string_unknown_escape.
  - intros c Hc. unfold hex_value, iswdigit.
    destruct (Z.leb_spec 48 (c + 32)), (Z.leb_spec (c + 32) 57),
      (Z.leb_spec 48 c), (Z.leb_spec c 57),
      (Z.leb_spec 97 (c + 32)), (Z.leb_spec (c + 32) 102),
      (Z.leb_spec 97 c), (Z.leb_spec c 102); cbn [andb]; lia.
  - intros sp pow.
    split; [ | split; [ | split; [ | split ] ] ]; vm_compute; reflexivity.
Qed.

Lemma unescape_u_reads_four_hex_digits_witness :
  unescape (jtext "'\u0041'") 2 = Ok (65, 7%nat)
  /\ unescape (jtext "'\u00g1'") 2 = Raise (InvalidCharacter "Invalid hex code" 5)
  /\ unescape (jtext "'\x'") 2
     = Raise (InvalidCharacter "Invalid escape character found" 2).
Proof.
  pose proof (unescape_u_reads_four_hex_digits (jtext "'\u0041'") 2) as [Hok _].
  pose proof (unescape_u_reads_four_hex_digits (jtext "'\u00g1'") 2) as [_ [Hbad _]].
  pose proof (unescape_u_reads_four_hex_digits (jtext "'\x'") 2) as [_ [_ [Hunk _]]].
  split; [ | split].
  - exact (proj1 (Hok eq_refl eq_refl)).
  - exact (Hbad 2%nat eq_refl ltac:(repeat constructor) eq_refl eq_refl).
  - apply Hunk. vm_compute. intuition discriminate.
Defined.

(** ** Numbers *)

(** *** The value of a number token *)

Lemma char_at_app_cons (pre : wstring) (c : wchar_t) (more : wstring) :
  char_at (pre ++ c :: more) (List.length pre) = c.
Proof. unfold char_at. apply nth_middle. Qed.

Lemma char_at_app_hd (pre rest : wstring) :
  char_at (pre ++ rest) (List.length pre) = hd 0 rest.
Proof.
  destruct rest as [| c rest].
  - rewrite app_nil_r. apply char_at_overflow. lia.
  - apply char_at_app_cons.
Qed.

Lemma decode_integer_loop_digits (ds : wstring) :
  forall (pre rest : wstring) (res : Z) (n : nat),
    forallb iswdigit ds = true -> iswdigit (hd 0 rest) = false ->
    (List.length ds <= n)%nat ->
    decode_integer_loop n (pre ++ ds ++ rest) (List.length pre) res
    = (fold_left (fun res d => wrap_int (res * 10 + d - Ch.zero)) ds res,
       (List.length pre + List.length ds)%nat).
Proof.
  induction ds as [| d ds IH]; intros pre rest res n Hds Hrest Hn.
  - cbn [app fold_left List.length]. rewrite Nat.add_0_r.
    destruct n; cbn [decode_integer_loop]; [reflexivity | ].
    rewrite char_at_app_hd, Hrest. now rewrite andb_false_r.
  - cbn [forallb] in Hds. apply andb_prop in Hds as [Hd Hds].
    destruct n as [| n]; [cbn in Hn; lia | ].
    cbn [decode_integer_loop fold_left]. cbn [app]. rewrite char_at_app_cons, Hd.
    pose proof (iswdigit_range d Hd).
    replace (d =? 0) with false by (symmetry; apply Z.eqb_neq; lia).
    cbn [negb andb].
    replace (pre ++ d :: ds ++ rest) with ((pre ++ [d]) ++ ds ++ rest)
      by (now rewrite <- app_assoc).
    replace (S (List.length pre)) with (List.length (pre ++ [d]))
      by (rewrite length_app; cbn; lia).
    rewrite IH by (auto; cbn in Hn; lia).
    rewrite length_app. cbn [List.length]. f_equal. lia.
Qed.

(** [decode_integer] on a run of digits that ends before [rest]. *)
Lemma decode_integer_digits (pre ds rest : wstring) :
  forallb iswdigit ds = true -> iswdigit (hd 0 rest) = false ->
  decode_integer (pre ++ ds ++ rest) (List.length pre)
  = (digits_value ds, (List.length pre + List.length ds)%nat).
Proof.
  intros Hds Hrest. unfold decode_integer, digits_value.
  apply decode_integer_loop_digits; auto.
  rewrite !length_app. lia.
Qed.

Lemma decode_number_parts (pow : float -> float -> float) (data : wstring)
    (pos : nat) :
  decode_number pow data pos
  = let '(neg_mantissa, pos) :=
      if char_at data pos =? Ch.minus then (true, S pos) else (false, pos) in
    if negb (iswdigit (char_at data pos))
    then Raise (InvalidCharacter "Invalid digit" pos)
    else
    let '(integer, pos) :=
      if negb (char_at data pos =? Ch.zero)
      then decode_integer data pos else (0, S pos) in
    let* (remainder, remainder_count, pos) := number_fraction data pos in
    let* (exponent, neg_exponent, pos) := number_exponent data pos in
    if (remainder_count =? 0) && (exponent =? 0) then
      let integer := if neg_mantissa then wrap_int (- integer) else integer in
      Ok (Integer integer, pos)
    else
      let res :=
        (int_to_double integer
         + int_to_double remainder / pow 10 (int_to_double remainder_count))%float in
      let res := if neg_mantissa then (- res)%float else res in
      let exponent := if neg_exponent then wrap_int (- exponent) else exponent in
      let res := (res * pow 10 (int_to_double exponent))%float in
      Ok (Float res, pos).
Proof. reflexivity. Qed.

Lemma digits_ok_inv (ds : wstring) :
  digits_ok ds = true ->
  exists d ds', ds = d :: ds' /\ iswdigit d = true /\ forallb iswdigit ds = true.
Proof.
  unfold digits_ok. intros H. apply andb_prop in H as [Hne Hall].
  destruct ds as [| d ds']; [discriminate | ].
  exists d, ds'. cbn [forallb] in Hall.
  pose proof Hall as Hall'. apply andb_prop in Hall' as [Hd _]. auto.
Qed.

(** The integer part: [0] alone, or a run of digits. *)
Lemma number_integer_part (pre ds tail : wstring) :
  digits_ok ds = true ->
  negb (hd 0 ds =? Ch.zero) || Nat.eqb (List.length ds) 1 = true ->
  iswdigit (hd 0 tail) = false ->
  iswdigit (char_at (pre ++ ds ++ tail) (List.length pre)) = true
  /\ (if negb (char_at (pre ++ ds ++ tail) (List.length pre) =? Ch.zero)
      then decode_integer (pre ++ ds ++ tail) (List.length pre)
      else (0, S (List.length pre)))
     = (digits_value ds, (List.length pre + List.length ds)%nat).
Proof.
  intros Hok Hzero Htail.
  destruct (digits_ok_inv ds Hok) as (d & ds' & -> & Hd & Hall).
  cbn [app]. rewrite char_at_app_cons. split; [exact Hd | ].
  cbn [hd List.length] in Hzero.
  destruct (Z.eqb_spec d Ch.zero) as [-> | Hne]; cbn [negb orb] in *.
  - destruct ds' as [| ? ?]; [ | discriminate].
    cbn. f_equal. lia.
  - change (pre ++ d :: ds' ++ tail) with (pre ++ (d :: ds') ++ tail).
    now apply decode_integer_digits.
Qed.

Lemma number_fraction_part (pre : wstring) (f : option wstring) (tail : wstring) :
  match f with Some fd => digits_ok fd | None => true end = true ->
  iswdigit (hd 0 tail) = false ->
  (f = None -> hd 0 tail <> Ch.dot) ->
  let fd := match f with Some fd => fd | None => [] end in
  number_fraction (pre ++ fraction_text f ++ tail) (List.length pre)
  = Ok (digits_value fd, Z.of_nat (List.length fd),
        (List.length pre + List.length (fraction_text f))%nat).
Proof.
  intros Hok Htail Hdot. destruct f as [fd | ]; cbn [fraction_text List.length].
  - destruct (digits_ok_inv fd Hok) as (d & ds' & E & Hd & Hall).
    unfold number_fraction. cbn [app]. rewrite char_at_app_cons, Z.eqb_refl.
    cbv zeta.
    replace (pre ++ Ch.dot :: fd ++ tail) with ((pre ++ [Ch.dot]) ++ fd ++ tail)
      by (now rewrite <- app_assoc).
    replace (S (List.length pre)) with (List.length (pre ++ [Ch.dot]))
      by (rewrite length_app; cbn; lia).
    rewrite decode_integer_digits by assumption.
    rewrite E at 1. cbn [app]. rewrite char_at_app_cons, Hd. cbn [negb].
    f_equal. f_equal; [f_equal; f_equal; lia | rewrite length_app; cbn; lia].
  - cbn [app]. rewrite Nat.add_0_r. unfold number_fraction.
    rewrite char_at_app_hd.
    destruct (Z.eqb_spec (hd 0 tail) Ch.dot) as [E | _]; [ | reflexivity].
    now elim (Hdot eq_refl).
Qed.

Lemma char_at_split (data pre : wstring) (c : wchar_t) (more : wstring)
    (pos : nat) :
  data = pre ++ c :: more -> pos = List.length pre -> char_at data pos = c.
Proof. intros -> ->. apply char_at_app_cons. Qed.

Lemma decode_integer_split (data pre ds rest : wstring) (pos : nat) :
  data = pre ++ ds ++ rest -> pos = List.length pre ->
  forallb iswdigit ds = true -> iswdigit (hd 0 rest) = false ->
  decode_integer data pos = (digits_value ds, (pos + List.length ds)%nat).
Proof. intros -> ->. apply decode_integer_digits. Qed.

Lemma number_exponent_part (pre : wstring) (e : option (bool * exp_sign * wstring))
    (tail : wstring) :
  match e with Some (_, _, ed) => digits_ok ed | None => true end = true ->
  iswdigit (hd 0 tail) = false ->
  (e = None -> hd 0 tail <> 101 /\ hd 0 tail <> 69) ->
  number_exponent (pre ++ exponent_text e ++ tail) (List.length pre)
  = Ok (match e with Some (_, _, ed) => digits_value ed | None => 0 end,
        match e with Some (_, MinusSign, _) => true | _ => false end,
        (List.length pre + List.length (exponent_text e))%nat).
Proof.
  intros Hok Htail Hmark. destruct e as [[[upper s] ed] | ].
  - destruct (digits_ok_inv ed Hok) as (d & ds' & E & Hd & Hall).
    pose proof (iswdigit_range d Hd) as Hr.
    assert (Hplus : (d =? Ch.plus) = false)
      by (apply Z.eqb_neq; unfold Ch.plus; lia).
    assert (Hminus : (d =? Ch.minus) = false)
      by (apply Z.eqb_neq; unfold Ch.minus; lia).
    unfold number_exponent.
    set (m := if upper then 69 else 101).
    assert (Hm : (m =? 101) || (m =? 69) = true) by (subst m; now destruct upper).
    set (data := pre ++ exponent_text (Some (upper, s, ed)) ++ tail).
    rewrite (char_at_split data pre m
               ((match s with
                 | NoSign => []
                 | PlusSign => [Ch.plus]
                 | MinusSign => [Ch.minus]
                 end ++ ed) ++ tail) _ eq_refl eq_refl), Hm.
    cbv zeta. destruct s.
    + rewrite (char_at_split data (pre ++ [m]) d (ds' ++ tail) (S (List.length pre)))
        by (subst data; cbn; rewrite ?E, <- ?app_assoc, ?length_app; cbn;
            reflexivity || lia).
      rewrite Hplus, Hminus. cbv beta iota.
      rewrite (char_at_split data (pre ++ [m]) d (ds' ++ tail) (S (List.length pre)))
        by (subst data; cbn; rewrite ?E, <- ?app_assoc, ?length_app; cbn;
            reflexivity || lia).
      rewrite Hd. cbn [negb].
      rewrite (decode_integer_split data (pre ++ [m]) ed tail (S (List.length pre)))
        by (auto; subst data; cbn; rewrite <- ?app_assoc, ?length_app; cbn;
            reflexivity || lia).
      cbn [exponent_text List.length app]. do 2 f_equal. lia.
    + rewrite (char_at_split data (pre ++ [m]) Ch.plus (ed ++ tail)
                 (S (List.length pre)))
        by (subst data; cbn; rewrite <- ?app_assoc, ?length_app; cbn;
            reflexivity || lia).
      rewrite Z.eqb_refl.
      cbv beta iota.
      rewrite (char_at_split data (pre ++ [m; Ch.plus]) d (ds' ++ tail)
                 (S (S (List.length pre))))
        by (subst data; cbn; rewrite ?E, <- ?app_assoc, ?length_app; cbn;
            reflexivity || lia).
      rewrite Hd. cbn [negb].
      rewrite (decode_integer_split data (pre ++ [m; Ch.plus]) ed tail
                 (S (S (List.length pre))))
        by (auto; subst data; cbn; rewrite <- ?app_assoc, ?length_app; cbn;
            reflexivity || lia).
      cbn [exponent_text List.length app]. do 2 f_equal. lia.
    + rewrite (char_at_split data (pre ++ [m]) Ch.minus (ed ++ tail)
                 (S (List.length pre)))
        by (subst data; cbn; rewrite <- ?app_assoc, ?length_app; cbn;
            reflexivity || lia).
      change (Ch.minus =? Ch.plus) with false. rewrite Z.eqb_refl.
      cbv beta iota.
      rewrite (char_at_split data (pre ++ [m; Ch.minus]) d (ds' ++ tail)
                 (S (S (List.length pre))))
        by (subst data; cbn; rewrite ?E, <- ?app_assoc, ?length_app; cbn;
            reflexivity || lia).
      rewrite Hd. cbn [negb].
      rewrite (decode_integer_split data (pre ++ [m; Ch.minus]) ed tail
                 (S (S (List.length pre))))
        by (auto; subst data; cbn; rewrite <- ?app_assoc, ?length_app; cbn;
            reflexivity || lia).
      cbn [exponent_text List.length app]. do 2 f_equal. lia.
  - cbn [exponent_text app List.length]. rewrite Nat.add_0_r.
    unfold number_exponent. rewrite char_at_app_hd.
    destruct (Hmark eq_refl) as [H1 H2].
    apply Z.eqb_neq in H1, H2. now rewrite H1, H2.
Qed.

Lemma token_text_parts (t : number_token) :
  token_text t
  = (if tok_negative t then [Ch.minus] else [])
    ++ tok_integer t ++ fraction_text (tok_fraction t)
    ++ exponent_text (tok_exponent t).
Proof. reflexivity. Qed.

(** What [decode_number] does behind the sign, on the parts of a token. *)
Lemma number_unsigned_part (pow : float -> float -> float) (pre rest : wstring)
    (neg : bool) (ds : wstring) (f : option wstring)
    (e : option (bool * exp_sign * wstring)) :
  let t := {| tok_negative := neg; tok_integer := ds;
              tok_fraction := f; tok_exponent := e |} in
  let data := pre ++ ds ++ fraction_text f ++ exponent_text e ++ rest in
  token_ok t = true -> token_ends_before t (hd 0 rest) = true ->
  (if negb (iswdigit (char_at data (List.length pre)))
   then Raise (InvalidCharacter "Invalid digit" (List.length pre))
   else
     let '(integer, pos) :=
       if negb (char_at data (List.length pre) =? Ch.zero)
       then decode_integer data (List.length pre)
       else (0, S (List.length pre)) in
     let* (remainder, remainder_count, pos) := number_fraction data pos in
     let* (exponent, neg_exponent, pos) := number_exponent data pos in
     if (remainder_count =? 0) && (exponent =? 0) then
       let integer := if neg then wrap_int (- integer) else integer in
       Ok (Integer integer, pos)
     else
       let res :=
         (int_to_double integer
          + int_to_double remainder / pow 10 (int_to_double remainder_count))%float in
       let res := if neg then (- res)%float else res in
       let exponent := if neg_exponent then wrap_int (- exponent) else exponent in
       let res := (res * pow 10 (int_to_double exponent))%float in
       Ok (Float res, pos))
  = Ok (token_value pow t,
        (List.length pre
         + List.length (ds ++ fraction_text f ++ exponent_text e))%nat).
Proof.
  intros t data Hok Hend. subst t.
  unfold token_ok in Hok. cbn [tok_integer tok_fraction tok_exponent] in Hok.
  apply andb_prop in Hok as [Hok He]. apply andb_prop in Hok as [Hok Hf].
  apply andb_prop in Hok as [Hds Hzero].
  unfold token_ends_before in Hend. cbn [tok_fraction tok_exponent] in Hend.
  apply andb_prop in Hend as [Hend Hmark]. apply andb_prop in Hend as [Hnd Hdot].
  apply negb_true_iff in Hnd.
  (* the integer part *)
  assert (Htail1 : iswdigit (hd 0 (fraction_text f ++ exponent_text e ++ rest)) = false).
  { destruct f as [fd | ]; [reflexivity | ].
    destruct e as [[[[] s] ed] | ]; [reflexivity | reflexivity | exact Hnd]. }
  destruct (number_integer_part pre ds _ Hds Hzero Htail1) as [Hdig Hint].
  fold data in Hdig, Hint. rewrite Hdig. cbn [negb]. rewrite Hint. cbv beta iota.
  (* the fraction *)
  assert (Htail2 : iswdigit (hd 0 (exponent_text e ++ rest)) = false).
  { destruct e as [[[[] s] ed] | ]; [reflexivity | reflexivity | exact Hnd]. }
  assert (Hnodot : f = None -> hd 0 (exponent_text e ++ rest) <> Ch.dot).
  { intros ->. destruct e as [[[[] s] ed] | ]; try discriminate.
    cbn [exponent_text app]. apply negb_true_iff, Z.eqb_neq in Hdot. exact Hdot. }
  replace data with ((pre ++ ds) ++ fraction_text f ++ exponent_text e ++ rest)
    by (subst data; now rewrite <- app_assoc).
  replace (List.length pre + List.length ds)%nat with (List.length (pre ++ ds))
    by (now rewrite length_app).
  rewrite (number_fraction_part (pre ++ ds) f _ Hf Htail2 Hnodot). cbn [bind].
  (* the exponent *)
  assert (Hnomark : e = None -> hd 0 rest <> 101 /\ hd 0 rest <> 69).
  { intros ->. apply andb_prop in Hmark as [H1 H2].
    apply negb_true_iff, Z.eqb_neq in H1, H2. auto. }
  replace ((pre ++ ds) ++ fraction_text f ++ exponent_text e ++ rest)
    with (((pre ++ ds) ++ fraction_text f) ++ exponent_text e ++ rest)
    by (now rewrite <- (app_assoc (pre ++ ds))).
  replace (List.length (pre ++ ds) + List.length (fraction_text f))%nat
    with (List.length ((pre ++ ds) ++ fraction_text f))
    by (now rewrite (length_app (pre ++ ds))).
  rewrite (number_exponent_part _ e rest He Hnd Hnomark). cbn [bind].
  (* the result *)
  assert (Hpos : (List.length ((pre ++ ds) ++ fraction_text f)
                  + List.length (exponent_text e))%nat
                 = (List.length pre
                    + List.length (ds ++ fraction_text f ++ exponent_text e))%nat)
    by (rewrite !length_app; lia).
  rewrite Hpos. unfold token_value, exponent_value.
  cbn [tok_negative tok_integer tok_fraction tok_exponent].
  destruct f as [fd | ].
  - destruct (digits_ok_inv fd Hf) as (d & fd' & -> & _ & _).
    replace (Z.of_nat (List.length (d :: fd')) =? 0) with false
      by (symmetry; apply Z.eqb_neq; cbn [List.length]; lia).
    cbn [andb]. destruct e as [[[upper []] ed] | ]; reflexivity.
  - cbn [List.length Z.of_nat Z.eqb andb].
    destruct e as [[[upper s] ed] | ].
    + destruct (digits_value ed =? 0); [reflexivity | ].
      destruct s; reflexivity.
    + reflexivity.
Qed.

(** The number production on a token of the JSON grammar that stands at
    the cursor: it reads the whole token and returns its value. *)
Lemma decode_number_token (pow : float -> float -> float) (pre rest : wstring)
    (t : number_token) :
  token_ok t = true -> token_ends_before t (hd 0 rest) = true ->
  decode_number pow (pre ++ token_text t ++ rest) (List.length pre)
  = Ok (token_value pow t, (List.length pre + List.length (token_text t))%nat).
Proof.
  intros Hok Hend. destruct t as [neg ds f e].
  rewrite decode_number_parts, token_text_parts.
  cbn [tok_negative tok_integer tok_fraction tok_exponent].
  destruct neg.
  - cbn [app].
    rewrite (char_at_split _ pre Ch.minus
               ((ds ++ fraction_text f ++ exponent_text e) ++ rest) _ eq_refl eq_refl).
    rewrite Z.eqb_refl. cbv beta iota.
    replace (pre ++ Ch.minus :: (ds ++ fraction_text f ++ exponent_text e) ++ rest)
      with ((pre ++ [Ch.minus]) ++ ds ++ fraction_text f ++ exponent_text e ++ rest)
      by (rewrite <- !app_assoc; reflexivity).
    replace (S (List.length pre)) with (List.length (pre ++ [Ch.minus]))
      by (rewrite length_app; cbn; lia).
    refine (eq_trans
              (number_unsigned_part pow (pre ++ [Ch.minus]) rest true ds f e Hok Hend)
              _).
    match goal with
    | |- Ok (?v, ?a) = Ok (?v, ?b) =>
        replace a with b;
        [reflexivity | rewrite !length_app; cbn [List.length]; rewrite ?length_app; lia]
    end.
  - cbn [app].
    replace (pre ++ (ds ++ fraction_text f ++ exponent_text e) ++ rest)
      with (pre ++ ds ++ fraction_text f ++ exponent_text e ++ rest)
      by (rewrite <- !app_assoc; reflexivity).
    assert (Hfirst : (char_at (pre ++ ds ++ fraction_text f ++ exponent_text e ++ rest)
                        (List.length pre) =? Ch.minus) = false).
    { unfold token_ok in Hok. cbn [tok_integer] in Hok.
      apply andb_prop in Hok as [Hok _]. apply andb_prop in Hok as [Hok _].
      apply andb_prop in Hok as [Hds _].
      destruct (digits_ok_inv ds Hds) as (d & ds' & -> & Hd & _).
      cbn [app]. rewrite char_at_app_cons. apply iswdigit_range in Hd.
      apply Z.eqb_neq. unfold Ch.minus. lia. }
    rewrite Hfirst. cbv beta iota.
    apply (number_unsigned_part pow pre rest false ds f e Hok Hend).
Qed.

(** *** A leading zero *)




(** ** Containers *)

Lemma skip_spaces_fixed (sp : wchar_t -> bool) (data : wstring) (pos : nat) :
  negb (char_at data pos =? 0) && iswspace sp (char_at data pos) = false ->
  skip_spaces sp data pos = pos.
Proof.
  intros H. unfold skip_spaces.
  destruct (List.length data - pos)%nat; cbn [skip_spaces_loop];
    [reflexivity | now rewrite H].
Qed.

Lemma skip_spaces_idempotent (sp : wchar_t -> bool) (data : wstring) (pos : nat) :
  skip_spaces sp data (skip_spaces sp data pos) = skip_spaces sp data pos.
Proof. apply skip_spaces_fixed, skip_spaces_stops. Qed.

(** A loop whose cursor is on the closing code unit stops at once,
    whatever fuel it is given. *)
Lemma decode_array_loop_on_bracket (sp : wchar_t -> bool)
    (pow : float -> float -> float) (fuel : nat) (data : wstring) (pos : nat)
    (list : Datatypes.list Value) (last : bool) :
  char_at data pos = Ch.rbracket ->
  decode_array_loop sp pow fuel data pos list last = Ok (list, last, pos).
Proof.
  intros H. destruct fuel;
    [rewrite decode_array_loop_O | rewrite decode_array_loop_S];
    rewrite H; cbn [Z.eqb Ch.rbracket Pos.eqb negb andb];
    now rewrite andb_false_r.
Qed.

Lemma decode_object_loop_on_brace (sp : wchar_t -> bool)
    (pow : float -> float -> float) (fuel : nat) (data : wstring) (pos : nat)
    (object : Datatypes.list (wstring * Value)) (last : bool) :
  char_at data pos = Ch.rbrace ->
  decode_object_loop sp pow fuel data pos object last = Ok (object, last, pos).
Proof.
  intros H. destruct fuel;
    [rewrite decode_object_loop_O | rewrite decode_object_loop_S];
    rewrite H; cbn [Z.eqb Ch.rbrace Pos.eqb negb andb];
    now rewrite andb_false_r.
Qed.

(** An array of one element followed by a comma and the closing bracket. *)
Lemma decode_array_trailing_comma (sp : wchar_t -> bool)
    (pow : float -> float -> float) (fuel : nat) (data : wstring) (pos : nat)
    (value : Value) (p2 : nat) :
  char_at data (skip_spaces sp data (S pos)) <> 0 ->
  char_at data (skip_spaces sp data (S pos)) <> Ch.rbracket ->
  decode_value sp pow fuel data (skip_spaces sp data (S pos)) = Ok (value, p2) ->
  char_at data (skip_spaces sp data p2) = Ch.comma ->
  char_at data (skip_spaces sp data (S (skip_spaces sp data p2))) = Ch.rbracket ->
  decode_array sp pow (S (S fuel)) data pos
  = Raise (InvalidCharacter "List ended with an invalid character"
             (skip_spaces sp data (S (skip_spaces sp data p2)))).
Proof.
  intros Hnz Hnb Hv Hcomma Hclose.
  apply Z.eqb_neq in Hnz, Hnb.
  rewrite decode_array_S. cbv zeta. rewrite Hnb. cbn [negb].
  rewrite decode_array_loop_S. cbv zeta. rewrite Hnz, Hnb. cbn [negb andb].
  rewrite skip_spaces_idempotent, Hv. cbn [bind].
  rewrite Hcomma, Z.eqb_refl.
  rewrite decode_array_loop_on_bracket by exact Hclose.
  cbn [bind negb orb]. reflexivity.
Qed.

(** An object of one pair followed by a comma and the closing brace. *)
Lemma decode_object_trailing_comma (sp : wchar_t -> bool)
    (pow : float -> float -> float) (fuel : nat) (data : wstring) (pos : nat)
    (key : wstring) (value : Value) (p2 p5 : nat) :
  char_at data (skip_spaces sp data (S pos)) = Ch.quote ->
  decode_string data (skip_spaces sp data (S pos)) = Ok (String key, p2) ->
  char_at data (skip_spaces sp data p2) = Ch.colon ->
  decode_value sp pow fuel data (skip_spaces sp data (S (skip_spaces sp data p2)))
  = Ok (value, p5) ->
  char_at data (skip_spaces sp data p5) = Ch.comma ->
  char_at data (skip_spaces sp data (S (skip_spaces sp data p5))) = Ch.rbrace ->
  decode_object sp pow (S (S fuel)) data pos
  = Raise (InvalidCharacter "Object ended with invalid character"
             (skip_spaces sp data (S (skip_spaces sp data p5)))).
Proof.
  intros Hq Hk Hcolon Hv Hcomma Hclose.
  rewrite decode_object_S. cbv zeta. rewrite Hq.
  change (negb (Ch.quote =? Ch.rbrace)) with true. cbv iota.
  rewrite decode_object_loop_S. cbv zeta. rewrite Hq.
  change (negb (Ch.quote =? 0) && negb false && negb (Ch.quote =? Ch.rbrace))
    with true. cbv iota.
  rewrite skip_spaces_idempotent, Hq, Z.eqb_refl. cbn [negb].
  rewrite Hk. cbn [bind]. rewrite Hcolon, Z.eqb_refl. cbn [negb].
  rewrite Hv. cbn [bind]. rewrite Hcomma, Z.eqb_refl.
  rewrite decode_object_loop_on_brace by exact Hclose.
  cbn [bind negb orb]. reflexivity.
Qed.

Lemma decode_string_loop_plain (n : nat) (data : wstring) :
  forall pos str,
    (List.length data - pos <= n)%nat -> (pos <= List.length data)%nat ->
    (forall i, (pos <= i < List.length data)%nat -> plain_unit (char_at data i)) ->
    exists str',
      decode_string_loop n data pos str false = Ok (str', List.length data).
Proof.
  induction n as [| n IH]; intros pos str Hn Hpos Hplain.
  - exists str. cbn [decode_string_loop].
    rewrite char_at_overflow by lia. cbn. f_equal. f_equal. lia.
  - cbn [decode_string_loop].
    destruct (Nat.eq_dec pos (List.length data)) as [-> | Hne].
    + exists str. rewrite char_at_overflow by lia. reflexivity.
    + destruct (Hplain pos ltac:(lia)) as (H0 & Hq & Hb).
      apply Z.eqb_neq in H0, Hq, Hb. rewrite H0, Hq, Hb. cbn [negb orb andb].
      apply IH; [lia | lia | intros i Hi; apply Hplain; lia].
Qed.

(** A string whose text runs to the end of the input without a closing
    quote (and without a backslash) throws UnexpectedEof at the end. *)
Lemma decode_string_unterminated (data : wstring) (pos : nat) :
  (pos < List.length data)%nat ->
  (forall i, (pos < i < List.length data)%nat -> plain_unit (char_at data i)) ->
  decode_string data pos
  = Raise (UnexpectedEof "Unexpected end of input" (List.length data)).
Proof.
  intros Hpos Hplain. unfold decode_string.
  destruct (decode_string_loop_plain (List.length data - S pos) data (S pos) []
              ltac:(lia) ltac:(lia) ltac:(intros i Hi; apply Hplain; lia))
    as [str' E].
  rewrite E. cbn [bind]. rewrite char_at_overflow by lia. reflexivity.
Qed.

Lemma object_insert_present (key : wstring) (value : Value)
    (o : list (wstring * Value)) :
  object_mem key o = true -> object_insert key value o = o.
Proof. intros H. unfold object_insert. now rewrite H. Qed.

Lemma wstring_eqb_refl (a : wstring) : wstring_eqb a a = true.
Proof. unfold wstring_eqb. destruct (list_eq_dec Z.eq_dec a a); congruence. Qed.

Lemma object_mem_insert (key : wstring) (value : Value)
    (o : list (wstring * Value)) :
  object_mem key (object_insert key value o) = true.
Proof.
  unfold object_insert. destruct (object_mem key o) eqn:E; [exact E | ].
  unfold object_mem. rewrite existsb_app. simpl.
  rewrite wstring_eqb_refl. now rewrite orb_true_r.
Qed.

(** [decode_array] returns with the cursor ON the closing bracket: the
    final test reads [data[pos]] and nothing moves the cursor past it.
    ([decode_string], in contrast, steps over its closing quote.) *)
Lemma decode_array_leaves_cursor_on_bracket (sp : wchar_t -> bool)
    (pow : float -> float -> float) (fuel : nat) (data : wstring) (pos : nat)
    (value : Value) (pos' : nat) :
  decode_array sp pow fuel data pos = Ok (value, pos') ->
  char_at data pos' = Ch.rbracket.
Proof.
  destruct fuel as [| fuel]; [discriminate | ]. cbn [decode_array].
  match goal with |- context [bind ?m _] => destruct m as [[[l last] p] | e | ] end;
    cbn [bind]; try discriminate.
  destruct last; cbn [negb orb]; try discriminate.
  destruct (char_at data p =? Ch.rbracket) eqn:E; cbn [negb]; try discriminate.
  intros H. injection H as _ <-. now apply Z.eqb_eq.
Qed.

Lemma decode_object_leaves_cursor_on_brace (sp : wchar_t -> bool)
    (pow : float -> float -> float) (fuel : nat) (data : wstring) (pos : nat)
    (value : Value) (pos' : nat) :
  decode_object sp pow fuel data pos = Ok (value, pos') ->
  char_at data pos' = Ch.rbrace.
Proof.
  destruct fuel as [| fuel]; [discriminate | ]. cbn [decode_object].
  match goal with |- context [bind ?m _] => destruct m as [[[l last] p] | e | ] end;
    cbn [bind]; try discriminate.
  destruct last; cbn [negb orb]; try discriminate.
  destruct (char_at data p =? Ch.rbrace) eqn:E; cbn [negb]; try discriminate.
  intros H. injection H as _ <-. now apply Z.eqb_eq.
Qed.

Lemma skip_spaces_on_bracket (sp : wchar_t -> bool) (data : wstring) (pos : nat) :
  char_at data pos = Ch.rbracket -> skip_spaces sp data pos = pos.
Proof. intros H. apply skip_spaces_fixed. rewrite H. reflexivity. Qed.

(** Inside an array, a nested array is the last element read: the loop of
    the enclosing array stops on the inner closing bracket with
    [last = true], whatever follows in the text. *)
Lemma nested_array_ends_enclosing_loop (sp : wchar_t -> bool)
    (pow : float -> float -> float) (fuel : nat) (data : wstring) (pos : nat)
    (list : Datatypes.list Value) (inner : Value) (q : nat) :
  char_at data pos <> 0 -> char_at data pos <> Ch.rbracket ->
  char_at data (skip_spaces sp data pos) = Ch.lbracket ->
  decode_array sp pow fuel data (skip_spaces sp data pos) = Ok (inner, q) ->
  decode_array_loop sp pow (S (S fuel)) data pos list false
  = Ok (list ++ [inner], true, q).
Proof.
  intros Hnz Hnb Hopen Hinner.
  pose proof (decode_array_leaves_cursor_on_bracket _ _ _ _ _ _ _ Hinner) as Hq.
  apply Z.eqb_neq in Hnz, Hnb.
  rewrite decode_array_loop_S. cbv zeta. rewrite Hnz, Hnb. cbn [negb andb].
  rewrite decode_value_S. cbv zeta. rewrite skip_spaces_idempotent, Hopen.
  cbn [Z.eqb Ch.lbracket Ch.quote Ch.lbrace Pos.eqb]. rewrite Hinner. cbn [bind].
  rewrite (skip_spaces_on_bracket sp data q Hq), Hq.
  cbn [Z.eqb Ch.rbracket Ch.comma Pos.eqb].
  rewrite (skip_spaces_on_bracket sp data q Hq).
  now apply decode_array_loop_on_bracket.
Qed.

(** Inside an object, a value that is an array makes the object fail: its
    loop stops on the inner closing bracket, which is not a brace. *)
Lemma nested_array_fails_enclosing_object (sp : wchar_t -> bool)
    (pow : float -> float -> float) (fuel : nat) (data : wstring) (pos : nat)
    (key : wstring) (inner : Value) (p2 q : nat) :
  char_at data (skip_spaces sp data (S pos)) = Ch.quote ->
  decode_string data (skip_spaces sp data (S pos)) = Ok (String key, p2) ->
  char_at data (skip_spaces sp data p2) = Ch.colon ->
  char_at data (skip_spaces sp data (S (skip_spaces sp data p2))) = Ch.lbracket ->
  decode_array sp pow fuel data
    (skip_spaces sp data (S (skip_spaces sp data p2))) = Ok (inner, q) ->
  decode_object sp pow (S (S (S fuel))) data pos
  = Raise (InvalidCharacter "Object ended with invalid character" q).
Proof.
  intros Hquote Hkey Hcolon Hopen Hinner.
  pose proof (decode_array_leaves_cursor_on_bracket _ _ _ _ _ _ _ Hinner) as Hq.
  rewrite decode_object_S. cbv zeta. rewrite Hquote.
  change (negb (Ch.quote =? Ch.rbrace)) with true. cbv iota.
  rewrite decode_object_loop_S. cbv zeta. rewrite Hquote.
  change (negb (Ch.quote =? 0) && negb false && negb (Ch.quote =? Ch.rbrace))
    with true. cbv iota.
  rewrite skip_spaces_idempotent, Hquote, Z.eqb_refl. cbn [negb].
  rewrite Hkey. cbn [bind]. rewrite Hcolon, Z.eqb_refl. cbn [negb].
  rewrite decode_value_S. cbv zeta. rewrite skip_spaces_idempotent, Hopen.
  cbn [Z.eqb Ch.lbracket Ch.quote Ch.lbrace Pos.eqb]. rewrite Hinner. cbn [bind].
  rewrite (skip_spaces_on_bracket sp data q Hq), Hq.
  cbn [Z.eqb Ch.rbracket Ch.comma Pos.eqb].
  rewrite (skip_spaces_on_bracket sp data q Hq).
  assert (Hloop : forall o, decode_object_loop sp pow (S fuel) data q o true
                            = Ok (o, true, q)).
  { intros o. rewrite decode_object_loop_S. cbn [negb andb].
    now rewrite andb_false_r. }
  rewrite Hloop. cbn [bind negb orb]. rewrite Hq. reflexivity.
Qed.

(** C1 (the code departs from the claim): a nested array or object that
    is not the last element ends the enclosing container early.
    [decode_array] and [decode_object] return with the cursor still on
    their closing bracket; the enclosing loop finds that bracket where it
    looks for a comma and stops.  So the loop of an array ends with any
    nested array, an object fails on any array value, [[1,[2],3]] decodes
    to the list of 1 and [[2]] with the 3 lost, and [{'a':[1],'b':2}]
    throws. *)
Theorem nested_container_ends_enclosing_one (data : wstring) (pos : nat) :
  (forall sp pow fuel list inner q,
     char_at data pos <> 0 -> char_at data pos <> Ch.rbracket ->
     char_at data (skip_spaces sp data pos) = Ch.lbracket ->
     decode_array sp pow fuel data (skip_spaces sp data pos) = Ok (inner, q) ->
     decode_array_loop sp pow (S (S fuel)) data pos list false
     = Ok (list ++ [inner], true, q)
     /\ char_at data q = Ch.rbracket)
  /\ (forall sp pow fuel key inner p2 q,
        char_at data (skip_spaces sp data (S pos)) = Ch.quote ->
        decode_string data (skip_spaces sp data (S pos)) = Ok (String key, p2) ->
        char_at data (skip_spaces sp data p2) = Ch.colon ->
        char_at data (skip_spaces sp data (S (skip_spaces sp data p2)))
        = Ch.lbracket ->
        decode_array sp pow fuel data
          (skip_spaces sp data (S (skip_spaces sp data p2))) = Ok (inner, q) ->
        decode_object sp pow (S (S (S fuel))) data pos
        = Raise (InvalidCharacter "Object ended with invalid character" q))
  /\ (forall sp pow,
        decode sp pow (jtext "[1,[2],3]") = Ok (List [Integer 1; List [Integer 2]])
        /\ decode sp pow (jtext "{'a':[1],'b':2}")
           = Raise (InvalidCharacter "Object ended with invalid character" 7)
        /\ decode sp pow (jtext "[{},1]")
           = Raise (InvalidCharacter "List ended with an invalid character" 2)
        /\ decode_at sp pow (jtext "[[2]]") = Ok (List [List [Integer 2]], 3%nat)).
Proof.
  split; [ | split].
  - intros sp pow fuel list inner q Hnz Hnb Hopen Hinner. split.
    + now apply nested_array_ends_enclosing_loop.
    + eapply decode_array_leaves_cursor_on_bracket; eassumption.
  - intros. eapply nested_array_fails_enclosing_object; eassumption.
  - intros sp pow. repeat (split; [vm_compute; reflexivity | ]).
    vm_compute; reflexivity.
Qed.

Lemma nested_container_ends_enclosing_one_witness :
  decode_array_loop c_locale (fun x _ => x) 5 (jtext "[1,[2],3]") 3 [Integer 1] false
  = Ok ([Integer 1; List [Integer 2]], true, 5%nat)
  /\ char_at (jtext "[1,[2],3]") 5 = Ch.rbracket.
Proof.
  refine (proj1 (nested_container_ends_enclosing_one (jtext "[1,[2],3]") 3)
            c_locale (fun x _ => x) 3%nat [Integer 1] (List [Integer 2]) 5%nat
            _ _ eq_refl eq_refl);
    vm_compute; discriminate.
Defined.

(** A list nested in a list does not come back: the text the encoder
    writes for the list of an empty list and 1 is [[[], 1]], and decoding
    it gives the list of the empty list alone. *)
Theorem roundtrip_loses_elements_after_nested_list :
  forall (sp pr : wchar_t -> bool) (pow : float -> float -> float)
         (show_double : float -> wstring),
    encode pr show_double (List [List []; Integer 1]) = wstr "[[], 1]"
    /\ decode sp pow (encode pr show_double (List [List []; Integer 1]))
       = Ok (List [List []])
    /\ decode sp pow (encode pr show_double (List [List []; Integer 1]))
       <> Ok (List [List []; Integer 1]).
Proof.
  intros sp pr pow show_double.
  assert (E : encode pr show_double (List [List []; Integer 1]) = wstr "[[], 1]")
    by (vm_compute; reflexivity).
  rewrite E. split; [reflexivity | ].
  assert (D : decode sp pow (wstr "[[], 1]") = Ok (List [List []]))
    by (vm_compute; reflexivity).
  rewrite D. split; [reflexivity | discriminate].
Qed.

(** ** The encoder *)

Lemma encode_Object (pr : wchar_t -> bool) (show_double : float -> wstring)
    (o : list (wstring * Value)) :
  encode pr show_double (Object o)
  = wstr "{" ++ encode_pairs pr show_double true o ++ wstr "}".
Proof. reflexivity. Qed.

Lemma encode_pairs_holds_key (pr : wchar_t -> bool) (show_double : float -> wstring)
    (o : list (wstring * Value)) (key : wstring) (value : Value) :
  In (key, value) o ->
  forall first, exists before after,
    encode_pairs pr show_double first o
    = before ++ ([Ch.quote] ++ key ++ [Ch.quote] ++ wstr ":")
      ++ encode pr show_double value ++ after.
Proof.
  induction o as [| it o IH]; intros Hin first; [destruct Hin | ].
  destruct Hin as [-> | Hin].
  - exists (if first then [] else wstr ", "), (encode_pairs pr show_double false o).
    reflexivity.
  - destruct (IH Hin false) as (before & after & E).
    exists ((if first then [] else wstr ", ")
            ++ ([Ch.quote] ++ fst it ++ [Ch.quote] ++ wstr ":")
            ++ encode pr show_double (snd it) ++ before), after.
    cbn [encode_pairs]. fold (encode_pairs pr show_double). rewrite E.
    now rewrite <- !app_assoc.
Qed.

(** What [escape] writes for a code unit that a string value may not hold
    as it is (the double quote, the backslash, a unit that is not
    printable) is longer than the unit itself. *)
Lemma escape_char_escapes (pr : wchar_t -> bool) (c : wchar_t) :
  c = Ch.quote \/ c = Ch.backslash \/ iswprint pr c = false ->
  (2 <= List.length (escape_char pr c))%nat.
Proof.
  intros H. unfold escape_char.
  repeat match goal with
  | |- context [if ?a =? ?b then _ else _] =>
      destruct (Z.eqb_spec a b); [vm_compute; lia | ]
  end.
  destruct H as [H | [H | H]]; try contradiction.
  rewrite H. cbn [negb]. rewrite length_app.
  change (List.length (wstr "\u")) with 2%nat. lia.
Qed.

(** C10: every key of an object is written between two double quotes
    exactly as it is, followed by the colon and the value, whatever code
    units it holds; the same double quote, backslash or unprintable unit
    in a String value is replaced by an escape. *)
Theorem object_keys_are_not_escaped (o : list (wstring * Value))
    (key : wstring) (value : Value) :
  In (key, value) o ->
  forall (pr : wchar_t -> bool) (show_double : float -> wstring),
    (exists before after,
       encode pr show_double (Object o)
       = before ++ ([Ch.quote] ++ key ++ [Ch.quote] ++ wstr ":")
         ++ encode pr show_double value ++ after)
    /\ (forall c, In c key ->
          c = Ch.quote \/ c = Ch.backslash \/ iswprint pr c = false ->
          escape_char pr c <> [c])
    /\ encode pr show_double (Object [(key, Null)])
       = wstr "{" ++ [Ch.quote] ++ key ++ [Ch.quote] ++ wstr ":null}"
    /\ encode pr show_double (String key) = [Ch.quote] ++ escape pr key ++ [Ch.quote].
Proof.
  intros Hin pr show_double. split; [ | split; [ | split]].
  - rewrite encode_Object.
    destruct (encode_pairs_holds_key pr show_double o key value Hin true)
      as (before & after & E).
    exists (wstr "{" ++ before), (after ++ wstr "}").
    rewrite E. now rewrite <- !app_assoc.
  - intros c _ Hc E. pose proof (escape_char_escapes pr c Hc) as Hlen.
    rewrite E in Hlen. cbn in Hlen. lia.
  - cbn [encode fst snd]. rewrite app_nil_r. cbn [app].
    rewrite <- !app_assoc. reflexivity.
  - reflexivity.
Qed.

Lemma object_keys_are_not_escaped_witness :
  encode c_locale (fun _ => []) (Object [(jtext "a'b", Null)]) = jtext "{'a'b':null}"
  /\ encode c_locale (fun _ => []) (String (jtext "a'b")) = jtext "'a\'b'".
Proof.
  pose proof (object_keys_are_not_escaped [(jtext "a'b", Null)] (jtext "a'b") Null
                (or_introl eq_refl) c_locale (fun _ => [])) as (_ & _ & Hobj & Hstr).
  split.
  - exact Hobj.
  - exact Hstr.
Defined.

(** *** The width of [\u] escapes *)

Lemma hex_digits_length_full (m : nat) :
  forall (value : Z) (acc : wstring),
    16 ^ Z.of_nat m <= value ->
    List.length (hex_digits (S m) value acc) = (S m + List.length acc)%nat.
Proof.
  induction m as [| m IH]; intros value acc Hv.
  - cbn [hex_digits]. destruct (value / 16 =? 0); cbn; lia.
  - rewrite Nat2Z.inj_succ, Z.pow_succ_r in Hv by lia.
    assert (Hp : 0 < 16 ^ Z.of_nat m) by (apply Z.pow_pos_nonneg; lia).
    assert (Hq : 16 ^ Z.of_nat m <= value / 16)
      by (apply Z.div_le_lower_bound; lia).
    change (hex_digits (S (S m)) value acc)
      with (if value / 16 =? 0 then hex_digit (value mod 16) :: acc
            else hex_digits (S m) (value / 16) (hex_digit (value mod 16) :: acc)).
    destruct (Z.eqb_spec (value / 16) 0) as [E | E]; [lia | ].
    rewrite IH by exact Hq. cbn [List.length]. lia.
Qed.

Lemma hex_digits_length_bounds (n : nat) :
  forall (value : Z) (acc : wstring),
    (1 <= n)%nat -> 0 <= value < 16 ^ Z.of_nat n ->
    (1 + List.length acc <= List.length (hex_digits n value acc)
     <= n + List.length acc)%nat.
Proof.
  induction n as [| n IH]; intros value acc Hn Hv; [lia | ].
  cbn [hex_digits].
  destruct (Z.eqb_spec (value / 16) 0) as [E | E]; [cbn; lia | ].
  rewrite Nat2Z.inj_succ, Z.pow_succ_r in Hv by lia.
  destruct n as [| n].
  - change (16 * 16 ^ Z.of_nat 0) with 16 in Hv.
    exfalso. apply E. apply Z.div_small. lia.
  - assert (Hq : 0 <= value / 16 < 16 ^ Z.of_nat (S n)).
    { split; [apply Z.div_pos; lia | apply Z.div_lt_upper_bound; lia]. }
    specialize (IH (value / 16) (hex_digit (value mod 16) :: acc) ltac:(lia) Hq).
    cbn [List.length] in IH. lia.
Qed.

Lemma land_low16 (c : Z) : 0 <= Z.land c 65535 < 65536.
Proof.
  change 65535 with (Z.ones 16). rewrite Z.land_ones by lia.
  change (2 ^ 16) with 65536. apply Z.mod_pos_bound. lia.
Qed.

(** Below 32768 the low 16 bits are printed as exactly four digits. *)
Lemma hex_low_unit_four_digits (c : wchar_t) :
  Z.land c 65535 < 32768 ->
  List.length (hex (to_unsigned (to_short (Z.land c 65535)))) = 4%nat.
Proof.
  intros H. pose proof (land_low16 c) as Hl.
  assert (E : to_unsigned (to_short (Z.land c 65535)) = Z.land c 65535).
  { unfold to_unsigned, to_short.
    change (2 ^ 15) with 32768. change (2 ^ 16) with 65536.
    change (2 ^ 32) with 4294967296.
    generalize dependent (Z.land c 65535). intros x Hx Hl.
    Z.div_mod_to_equations. lia. }
  rewrite E. unfold hex.
  pose proof (hex_digits_length_bounds 4 (Z.land c 65535) [] ltac:(lia)
                ltac:(change (16 ^ Z.of_nat 4) with 65536; lia)) as Hb4.
  assert (Hsame : hex_digits 8 (Z.land c 65535) [] = hex_digits 4 (Z.land c 65535) []).
  { set (v := Z.land c 65535) in *. cbn [hex_digits].
    destruct (v / 16 =? 0); [reflexivity | ].
    destruct (v / 16 / 16 =? 0); [reflexivity | ].
    destruct (v / 16 / 16 / 16 =? 0); [reflexivity | ].
    destruct (Z.eqb_spec (v / 16 / 16 / 16 / 16) 0) as [E4 | E4]; [reflexivity | ].
    exfalso. apply E4. rewrite !Z.div_div by lia. apply Z.div_small. lia. }
  rewrite Hsame. rewrite length_app, repeat_length.
  cbn [List.length] in Hb4. lia.
Qed.

(** From 32768 on the cast to [short] makes the value negative, the
    conversion to [unsigned] sign-extends it, and eight digits are
    printed. *)
Lemma hex_high_unit_eight_digits (c : wchar_t) :
  32768 <= Z.land c 65535 ->
  to_unsigned (to_short (Z.land c 65535)) = 4294901760 + Z.land c 65535
  /\ List.length (hex (to_unsigned (to_short (Z.land c 65535)))) = 8%nat.
Proof.
  intros H. pose proof (land_low16 c) as Hl.
  assert (E : to_unsigned (to_short (Z.land c 65535)) = 4294901760 + Z.land c 65535).
  { unfold to_unsigned, to_short.
    change (2 ^ 15) with 32768. change (2 ^ 16) with 65536.
    change (2 ^ 32) with 4294967296.
    generalize dependent (Z.land c 65535). intros x Hx Hl.
    Z.div_mod_to_equations. lia. }
  split; [exact E | ]. rewrite E. unfold hex.
  rewrite length_app, repeat_length.
  rewrite (hex_digits_length_full 7)
    by (change (16 ^ Z.of_nat 7) with 268435456; lia).
  reflexivity.
Qed.

(** C4 (the code departs from the claim): a code unit that is not printable
    and whose bit 15 is set is written as [\u] followed by EIGHT digits,
    [ffff] and then the four digits of its low 16 bits: the [(short)] cast in
    [escape] makes the value negative before it reaches the [unsigned]
    parameter of [hex].  The unit 65535 comes out with eight [f]. *)
Theorem escape_writes_eight_digits_for_high_units (pr : wchar_t -> bool)
    (c : wchar_t) :
  iswprint pr c = false -> 32768 <= Z.land c 65535 ->
  escape_char pr c = wstr "\u" ++ hex (4294901760 + Z.land c 65535)
  /\ List.length (escape_char pr c) = 10%nat
  /\ (forall show_double,
        encode c_locale show_double (String [65535])
        = [Ch.quote] ++ wstr "\u" ++ wstr "ffffffff" ++ [Ch.quote]).
Proof.
  intros Hp Hc. destruct (hex_high_unit_eight_digits c Hc) as [E Hlen].
  assert (Hesc : escape_char pr c
                 = wstr "\u" ++ hex (to_unsigned (to_short (Z.land c 65535)))).
  { unfold escape_char.
    repeat match goal with
    | |- context [if ?a =? ?b then _ else _] =>
        destruct (Z.eqb_spec a b) as [-> | _];
        [exfalso; revert Hc; vm_compute; intros Hc; now apply Hc | ]
    end.
    now rewrite Hp. }
  split; [ | split].
  - now rewrite Hesc, E.
  - rewrite Hesc, length_app, Hlen. reflexivity.
  - intros show_double. vm_compute. reflexivity.
Qed.

Lemma escape_writes_eight_digits_for_high_units_witness :
  escape_char c_locale 65535 = wstr "\u" ++ wstr "ffffffff"
  /\ escape_char c_locale 55296 = wstr "\u" ++ wstr "ffffd800".
Proof.
  split.
  - exact (proj1 (escape_writes_eight_digits_for_high_units c_locale 65535
                    eq_refl ltac:(vm_compute; discriminate))).
  - exact (proj1 (escape_writes_eight_digits_for_high_units c_locale 55296
                    eq_refl ltac:(vm_compute; discriminate))).
Defined.

(** The other branches of [escape] are as the specification says: the
    eight short escapes, four digits for an unprintable unit whose low 16
    bits stay below 32768, and a printable unit as it is. *)
Lemma escape_char_other_cases (pr : wchar_t -> bool) (c : wchar_t) :
  escape_char pr Ch.backslash = [Ch.backslash; Ch.backslash]
  /\ escape_char pr Ch.quote = [Ch.backslash; Ch.quote]
  /\ escape_char pr Ch.slash = [Ch.backslash; Ch.slash]
  /\ escape_char pr Ch.backspace = [Ch.backslash; 98]
  /\ escape_char pr Ch.formfeed = [Ch.backslash; 102]
  /\ escape_char pr Ch.newline = [Ch.backslash; 110]
  /\ escape_char pr Ch.cr = [Ch.backslash; 114]
  /\ escape_char pr Ch.tab = [Ch.backslash; 116]
  /\ (~ In c [Ch.backslash; Ch.quote; Ch.slash; Ch.backspace; Ch.formfeed;
              Ch.newline; Ch.cr; Ch.tab] ->
      (iswprint pr c = true -> escape_char pr c = [c])
      /\ (iswprint pr c = false -> Z.land c 65535 < 32768 ->
          exists digits, escape_char pr c = [Ch.backslash; 117] ++ digits
                         /\ List.length digits = 4%nat))
  /\ (forall show_double,
        encode pr show_double (String [Ch.slash])
        = [Ch.quote; Ch.backslash; Ch.slash; Ch.quote]).
Proof.
  repeat (split; [reflexivity | ]). split; [ | reflexivity].
  intros Hn.
  assert (Hesc : escape_char pr c
                 = if negb (iswprint pr c)
                   then wstr "\u" ++ hex (to_unsigned (to_short (Z.land c 65535)))
                   else [c]).
  { unfold escape_char.
    repeat match goal with
    | |- context [if ?a =? ?b then _ else _] =>
        destruct (Z.eqb_spec a b) as [E | _];
        [exfalso; apply Hn; rewrite E; simpl; tauto | ]
    end.
    reflexivity. }
  split.
  - intros Hp. now rewrite Hesc, Hp.
  - intros Hp Hlow. rewrite Hesc, Hp. cbn [negb].
    exists (hex (to_unsigned (to_short (Z.land c 65535)))).
    split; [reflexivity | now apply hex_low_unit_four_digits].
Qed.


(** ** Round trips *)

(** *** Integers *)

Lemma wrap_int_step (a b : Z) :
  wrap_int (wrap_int a * 10 + b - Ch.zero) = wrap_int (a * 10 + (b - Ch.zero)).
Proof.
  unfold wrap_int, Ch.zero.
  change (2 ^ 31) with 2147483648. change (2 ^ 32) with 4294967296.
  Z.div_mod_to_equations. lia.
Qed.

Lemma digits_value_wrap (ds : wstring) :
  forall res,
    fold_left (fun res d => wrap_int (res * 10 + d - Ch.zero)) ds (wrap_int res)
    = wrap_int (digits_number ds res).
Proof.
  induction ds as [| d ds IH]; intros res; cbn [fold_left digits_number].
  - reflexivity.
  - rewrite wrap_int_step. apply IH.
Qed.

Lemma digits_value_number (ds : wstring) :
  digits_value ds = wrap_int (digits_number ds 0).
Proof.
  unfold digits_value. change 0 with (wrap_int 0) at 1. apply digits_value_wrap.
Qed.

Lemma digits_number_app (ds : wstring) (d : wchar_t) (res : Z) :
  digits_number (ds ++ [d]) res = digits_number ds res * 10 + (d - Ch.zero).
Proof. unfold digits_number. now rewrite fold_left_app. Qed.

(** The digits [dec_digits] writes for [value]: a run of digits without a
    leading zero that writes [value]. *)
Lemma dec_digits_spec (n : nat) :
  forall (value : Z) (acc : wstring),
    (0 < n)%nat -> 0 <= value < 10 ^ Z.of_nat n ->
    exists ds,
      dec_digits n value acc = ds ++ acc
      /\ digits_ok ds = true
      /\ (forall res,
            digits_number ds res = res * 10 ^ Z.of_nat (List.length ds) + value)
      /\ (negb (hd 0 ds =? Ch.zero) || Nat.eqb (List.length ds) 1 = true).
Proof.
  induction n as [| n IH]; intros value acc Hn Hv; [lia | ].
  cbn [dec_digits].
  assert (Hm : 0 <= value mod 10 < 10) by (apply Z.mod_pos_bound; lia).
  assert (Hdig : iswdigit (48 + value mod 10) = true).
  { unfold iswdigit. destruct (Z.leb_spec 48 (48 + value mod 10)),
      (Z.leb_spec (48 + value mod 10) 57); cbn; auto; lia. }
  destruct (Z.eqb_spec (value / 10) 0) as [E | E].
  - exists [48 + value mod 10]. split; [reflexivity | ].
    split; [unfold digits_ok; cbn [List.length Nat.eqb negb forallb andb];
            now rewrite Hdig | ].
    split; [ | now rewrite orb_true_r].
    intros res. unfold digits_number. cbn [fold_left List.length].
    change (10 ^ Z.of_nat 1) with 10. unfold Ch.zero.
    pose proof (Z.div_mod value 10 ltac:(lia)). lia.
  - assert (Hq : 0 <= value / 10 < 10 ^ Z.of_nat n).
    { rewrite Nat2Z.inj_succ, Z.pow_succ_r in Hv by lia.
      split; [apply Z.div_pos; lia | apply Z.div_lt_upper_bound; lia]. }
    assert (Hn' : (0 < n)%nat).
    { destruct n; [cbn in Hq; lia | lia]. }
    destruct (IH (value / 10) ((48 + value mod 10) :: acc) Hn' Hq)
      as (ds & Eds & Hok & Hnum & Hlead).
    exists (ds ++ [48 + value mod 10]).
    split; [rewrite Eds, <- app_assoc; reflexivity | ].
    unfold digits_ok in *. apply andb_prop in Hok as [Hne Hall].
    destruct ds as [| d ds]; [discriminate | ].
    split.
    { rewrite forallb_app, Hall. cbn [forallb andb]. rewrite Hdig.
      rewrite length_app. cbn [List.length]. now rewrite Nat.add_comm. }
    split.
    + intros res. rewrite digits_number_app, Hnum, length_app.
      cbn [List.length]. rewrite Nat2Z.inj_add, Z.pow_add_r by lia.
      change (10 ^ Z.of_nat 1) with 10. unfold Ch.zero.
      pose proof (Z.div_mod value 10 ltac:(lia)). lia.
    + cbn [app hd]. cbn [hd] in Hlead.
      destruct (negb (d =? Ch.zero)) eqn:Ed; [reflexivity | ].
      cbn [orb] in Hlead. apply Nat.eqb_eq in Hlead.
      cbn [List.length] in Hlead. destruct ds; [ | discriminate].
      (* a single digit 0 would make value / 10 = 0 *)
      apply negb_false_iff, Z.eqb_eq in Ed. subst d.
      specialize (Hnum 0). unfold digits_number in Hnum.
      cbn [fold_left List.length] in Hnum.
      change (10 ^ Z.of_nat 1) with 10 in Hnum. unfold Ch.zero in Hnum. lia.
Qed.

(** The text of an [int] is a number token without fraction or exponent,
    and the value of that token is the [int]. *)
Lemma show_int_token (i : Z) :
  - 2 ^ 31 <= i < 2 ^ 31 ->
  exists t,
    show_int i = token_text t /\ token_ok t = true
    /\ tok_fraction t = None /\ tok_exponent t = None
    /\ forall pow, token_value pow t = Integer i.
Proof.
  intros Hi. change (2 ^ 31) with 2147483648 in Hi.
  assert (Hn : 0 <= Z.abs i < 10 ^ Z.of_nat 10)
    by (change (10 ^ Z.of_nat 10) with 10000000000; lia).
  destruct (dec_digits_spec 10 (Z.abs i) [] ltac:(lia) Hn)
    as (ds & Eds & Hok & Hnum & Hlead).
  rewrite app_nil_r in Eds.
  exists {| tok_negative := i <? 0; tok_integer := ds;
            tok_fraction := None; tok_exponent := None |}.
  split; [ | split; [ | split; [reflexivity | split; [reflexivity | ]]]].
  - unfold show_int, token_text.
    cbn [tok_negative tok_integer tok_fraction tok_exponent].
    rewrite !app_nil_r.
    destruct (Z.ltb_spec i 0).
    + replace (- i) with (Z.abs i) by lia. now rewrite Eds.
    + replace i with (Z.abs i) at 1 by lia. now rewrite Eds.
  - unfold token_ok. cbn [tok_integer tok_fraction tok_exponent].
    now rewrite Hok, Hlead.
  - intros pow. unfold token_value, exponent_value.
    cbn [tok_negative tok_integer tok_fraction tok_exponent Z.eqb].
    rewrite digits_value_number, Hnum. f_equal.
    unfold wrap_int. change (2 ^ 31) with 2147483648.
    change (2 ^ 32) with 4294967296.
    destruct (Z.ltb_spec i 0); Z.div_mod_to_equations; lia.
Qed.


(** *** Strings *)

Lemma hex_digit_value (d : Z) :
  0 <= d < 16 -> iswxdigit (hex_digit d) = true /\ hex_value (hex_digit d) = d.
Proof.
  intros H.
  assert (E : d = 0 \/ d = 1 \/ d = 2 \/ d = 3 \/ d = 4 \/ d = 5 \/ d = 6 \/ d = 7
              \/ d = 8 \/ d = 9 \/ d = 10 \/ d = 11 \/ d = 12 \/ d = 13 \/ d = 14
              \/ d = 15) by lia.
  repeat (destruct E as [-> | E]; [split; reflexivity | ]).
  subst d. split; reflexivity.
Qed.

(** Below 65536, [hex] writes the four digits of the value. *)
Lemma hex_four_digits (value : Z) :
  0 <= value < 65536 ->
  hex value = [hex_digit (value / 4096); hex_digit (value / 256 mod 16);
               hex_digit (value / 16 mod 16); hex_digit (value mod 16)].
Proof.
  intros H. unfold hex. cbn [hex_digits].
  assert (E2 : value / 16 / 16 = value / 256)
    by (Z.div_mod_to_equations; lia).
  assert (E3 : value / 16 / 16 / 16 = value / 4096)
    by (Z.div_mod_to_equations; lia).
  assert (E4 : value / 16 / 16 / 16 / 16 = 0)
    by (Z.div_mod_to_equations; lia).
  rewrite E4, E3, E2. cbn [Z.eqb].
  destruct (Z.eqb_spec (value / 16) 0) as [Q1 | Q1];
    [ | destruct (Z.eqb_spec (value / 256) 0) as [Q2 | Q2];
        [ | destruct (Z.eqb_spec (value / 4096) 0) as [Q3 | Q3]]];
    cbn [List.length Nat.sub repeat app];
    repeat (f_equal; try (unfold Ch.zero; change 48 with (hex_digit 0); f_equal;
                          Z.div_mod_to_equations; lia)).
Qed.

Lemma unescape_u_hex (data : wstring) (pos : nat) (c : wchar_t) :
  0 <= c < 65536 ->
  char_at data pos = 117 ->
  units_at data (S pos) 0 4 = hex c ->
  unescape data pos = Ok (c, (pos + 5)%nat).
Proof.
  intros Hc Hu Hunits. rewrite (unescape_u _ _ Hu).
  assert (Hd : forall d, 0 <= d < 16 ->
                         iswxdigit (hex_digit d) = true /\ hex_value (hex_digit d) = d)
    by apply hex_digit_value.
  assert (H3 : 0 <= c / 4096 < 16) by (Z.div_mod_to_equations; lia).
  assert (H2 : 0 <= c / 256 mod 16 < 16) by (apply Z.mod_pos_bound; lia).
  assert (H1 : 0 <= c / 16 mod 16 < 16) by (apply Z.mod_pos_bound; lia).
  assert (H0 : 0 <= c mod 16 < 16) by (apply Z.mod_pos_bound; lia).
  destruct (Hd _ H3) as [X3 V3], (Hd _ H2) as [X2 V2], (Hd _ H1) as [X1 V1],
    (Hd _ H0) as [X0 V0].
  rewrite unescape_hex_ok;
    [ | rewrite Hunits, (hex_four_digits c Hc); cbn [forallb];
        now rewrite X3, X2, X1, X0
      | lia | vm_compute; discriminate].
  rewrite Hunits, (hex_four_digits c Hc). cbn [hex_number bind].
  rewrite V3, V2, V1, V0.
  replace (16 * (16 * (16 * (16 * 0 + c / 4096) + c / 256 mod 16) + c / 16 mod 16)
           + c mod 16) with c by (Z.div_mod_to_equations; lia).
  rewrite wrap_int_small by (change (2 ^ 31) with 2147483648; lia).
  do 2 f_equal. lia.
Qed.

Lemma char_at_app_plus (pre l : wstring) (k : nat) :
  char_at (pre ++ l) (List.length pre + k) = char_at l k.
Proof. unfold char_at. apply app_nth2_plus. Qed.

(** One round of the string loop on a code unit that is copied. *)
Lemma string_loop_plain (n : nat) (data : wstring) (pos : nat) (str : wstring)
    (c : wchar_t) :
  char_at data pos = c -> plain_unit c ->
  decode_string_loop (S n) data pos str false
  = decode_string_loop n data (S pos) (str ++ [c]) false.
Proof.
  intros Hc (H0 & Hq & Hb). apply Z.eqb_neq in H0, Hq, Hb.
  cbn [decode_string_loop]. rewrite Hc, H0, Hq, Hb. reflexivity.
Qed.

(** Two rounds of the string loop on a backslash and what follows it. *)
Lemma string_loop_escape (n : nat) (data : wstring) (pos : nat) (str : wstring)
    (c : wchar_t) (pos' : nat) :
  char_at data pos = Ch.backslash -> char_at data (S pos) <> 0 ->
  unescape data (S pos) = Ok (c, pos') ->
  decode_string_loop (S (S n)) data pos str false
  = decode_string_loop n data pos' (str ++ [c]) false.
Proof.
  intros Hb Hnz Hu. apply Z.eqb_neq in Hnz.
  cbn [decode_string_loop]. rewrite Hb.
  change (negb (Ch.backslash =? 0) && (false || negb (Ch.backslash =? Ch.quote)))
    with true. cbv iota. rewrite Z.eqb_refl, Hnz. cbn [negb orb andb].
  rewrite Hu. reflexivity.
Qed.

Lemma unescape_short (data : wstring) (pos : nat) (x c : wchar_t) :
  In (x, c) [(98, Ch.backspace); (102, Ch.formfeed); (110, Ch.newline);
             (114, Ch.cr); (116, Ch.tab); (Ch.quote, Ch.quote);
             (Ch.backslash, Ch.backslash); (Ch.slash, Ch.slash)] ->
  char_at data pos = x ->
  unescape data pos = Ok (c, S pos).
Proof.
  intros Hin Hx. unfold unescape. rewrite Hx.
  replace (S pos - 1)%nat with pos by lia. rewrite Hx.
  cbn [In] in Hin.
  repeat (destruct Hin as [Hin | Hin];
          [injection Hin as <- <-; reflexivity | ]).
  destruct Hin.
Qed.

(** The text [escape_char] writes for one code unit is read back as that
    code unit, in one or two rounds of the loop. *)
Lemma string_loop_unit (pr : wchar_t -> bool) (c : wchar_t) (pre tail : wstring)
    (str : wstring) :
  unit_round_trips pr c ->
  exists k,
    (1 <= k <= List.length (escape_char pr c))%nat
    /\ forall n,
         decode_string_loop (k + n) (pre ++ escape_char pr c ++ tail)
           (List.length pre) str false
         = decode_string_loop n (pre ++ escape_char pr c ++ tail)
             (List.length pre + List.length (escape_char pr c)) (str ++ [c]) false.
Proof.
  intros Hc.
  assert (Hshort : forall x,
            In (x, c) [(98, Ch.backspace); (102, Ch.formfeed); (110, Ch.newline);
                       (114, Ch.cr); (116, Ch.tab); (Ch.quote, Ch.quote);
                       (Ch.backslash, Ch.backslash); (Ch.slash, Ch.slash)] ->
            escape_char pr c = [Ch.backslash; x] -> x <> 0 ->
            exists k,
              (1 <= k <= List.length (escape_char pr c))%nat
              /\ forall n,
                   decode_string_loop (k + n) (pre ++ escape_char pr c ++ tail)
                     (List.length pre) str false
                   = decode_string_loop n (pre ++ escape_char pr c ++ tail)
                       (List.length pre + List.length (escape_char pr c))
                       (str ++ [c]) false).
  { intros x Hin -> Hx. exists 2%nat. split; [cbn; lia | ]. intros n.
    cbn [Nat.add].
    rewrite (string_loop_escape n _ (List.length pre) str c (S (S (List.length pre)))).
    - f_equal. cbn. lia.
    - apply char_at_app_cons.
    - rewrite (char_at_split _ (pre ++ [Ch.backslash]) x tail); auto.
      + now rewrite <- app_assoc.
      + rewrite length_app. cbn. lia.
    - apply (unescape_short _ _ x c Hin).
      apply (char_at_split _ (pre ++ [Ch.backslash]) x tail).
      + now rewrite <- app_assoc.
      + rewrite length_app. cbn. lia. }
  unfold escape_char in *.
  destruct (Z.eqb_spec c Ch.backslash) as [-> | N1];
    [apply (Hshort Ch.backslash); cbn; (tauto || discriminate) | ].
  destruct (Z.eqb_spec c Ch.quote) as [-> | N2];
    [apply (Hshort Ch.quote); cbn; (tauto || discriminate) | ].
  destruct (Z.eqb_spec c Ch.slash) as [-> | N3];
    [apply (Hshort Ch.slash); cbn; (tauto || discriminate) | ].
  destruct (Z.eqb_spec c Ch.backspace) as [-> | N4];
    [apply (Hshort 98); cbn; (tauto || discriminate) | ].
  destruct (Z.eqb_spec c Ch.formfeed) as [-> | N5];
    [apply (Hshort 102); cbn; (tauto || discriminate) | ].
  destruct (Z.eqb_spec c Ch.newline) as [-> | N6];
    [apply (Hshort 110); cbn; (tauto || discriminate) | ].
  destruct (Z.eqb_spec c Ch.cr) as [-> | N7];
    [apply (Hshort 114); cbn; (tauto || discriminate) | ].
  destruct (Z.eqb_spec c Ch.tab) as [-> | N8];
    [apply (Hshort 116); cbn; (tauto || discriminate) | ].
  clear Hshort.
  destruct (iswprint pr c) eqn:Hp; cbn [negb].
  - (* printable: copied *)
    exists 1%nat. split; [cbn; lia | ]. intros n. cbn [Nat.add app List.length].
    rewrite (string_loop_plain n _ (List.length pre) str c).
    + f_equal. lia.
    + apply char_at_app_cons.
    + repeat split; auto. intros ->. discriminate.
  - (* not printable: four digits *)
    destruct Hc as [Hc | Hc]; [congruence | ].
    assert (Hlow : to_unsigned (to_short (Z.land c 65535)) = c).
    { change 65535 with (Z.ones 16). rewrite Z.land_ones by lia.
      unfold to_unsigned, to_short. change (2 ^ 15) with 32768.
      change (2 ^ 16) with 65536. change (2 ^ 32) with 4294967296.
      Z.div_mod_to_equations. lia. }
    rewrite Hlow.
    assert (Hlen : List.length (hex c) = 4%nat)
      by (rewrite hex_four_digits by lia; reflexivity).
    exists 2%nat. split; [rewrite length_app, Hlen; cbn; lia | ]. intros n.
    cbn [Nat.add].
    change (wstr "\u" ++ hex c) with (Ch.backslash :: 117 :: hex c).
    rewrite (string_loop_escape n _ (List.length pre) str c
               (S (List.length pre) + 5)%nat).
    + f_equal. cbn [List.length]. rewrite Hlen. lia.
    + apply char_at_app_cons.
    + rewrite (char_at_split _ (pre ++ [Ch.backslash]) 117 (hex c ++ tail)).
      * discriminate.
      * now rewrite <- app_assoc.
      * rewrite length_app. cbn. lia.
    + apply unescape_u_hex; [lia | | ].
      * apply (char_at_split _ (pre ++ [Ch.backslash]) 117 (hex c ++ tail)).
        -- now rewrite <- app_assoc.
        -- rewrite length_app. cbn. lia.
      * unfold units_at. cbn [seq map].
        rewrite (hex_four_digits c) by lia.
        replace (S (S (List.length pre)) + 0)%nat with (List.length pre + 2)%nat by lia.
        replace (S (S (List.length pre)) + 1)%nat with (List.length pre + 3)%nat by lia.
        replace (S (S (List.length pre)) + 2)%nat with (List.length pre + 4)%nat by lia.
        replace (S (S (List.length pre)) + 3)%nat with (List.length pre + 5)%nat by lia.
        rewrite !char_at_app_plus. reflexivity.
Qed.


Ltac text_length :=
  repeat first [rewrite length_app | progress cbn [List.length app]]; lia.

Ltac text_assoc :=
  repeat first [rewrite <- app_assoc | progress cbn [app]]; reflexivity.

Ltac split_text := solve [ text_assoc | text_length ].

(** The string loop reads back what [escape] wrote, up to the closing
    quote. *)
Lemma decode_string_loop_escaped (pr : wchar_t -> bool) (s : wstring) :
  forall (pre tail str : wstring) (n : nat),
    Forall (unit_round_trips pr) s ->
    (List.length (escape pr s) <= n)%nat ->
    decode_string_loop n (pre ++ escape pr s ++ Ch.quote :: tail)
      (List.length pre) str false
    = Ok (str ++ s, (List.length pre + List.length (escape pr s))%nat).
Proof.
  induction s as [| c s IH]; intros pre tail str n Hs Hn.
  - cbn [escape app List.length].
    destruct n; cbn [decode_string_loop]; rewrite char_at_app_cons;
      change (negb (Ch.quote =? 0) && (false || negb (Ch.quote =? Ch.quote)))
        with false; cbv iota; now rewrite app_nil_r, Nat.add_0_r.
  - inversion Hs as [| ? ? Hc Hs']; subst.
    cbn [escape] in *. rewrite length_app in Hn.
    destruct (string_loop_unit pr c pre (escape pr s ++ Ch.quote :: tail) str Hc)
      as (k & Hk & Hstep).
    replace (pre ++ (escape_char pr c ++ escape pr s) ++ Ch.quote :: tail)
      with (pre ++ escape_char pr c ++ escape pr s ++ Ch.quote :: tail)
      by (now rewrite <- app_assoc).
    replace n with (k + (n - k))%nat by lia. rewrite Hstep.
    replace (pre ++ escape_char pr c ++ escape pr s ++ Ch.quote :: tail)
      with ((pre ++ escape_char pr c) ++ escape pr s ++ Ch.quote :: tail)
      by (now rewrite <- app_assoc).
    replace (List.length pre + List.length (escape_char pr c))%nat
      with (List.length (pre ++ escape_char pr c)) by (now rewrite length_app).
    rewrite IH by (auto; lia).
    rewrite <- app_assoc. cbn [app]. f_equal. f_equal.
    rewrite !length_app. lia.
Qed.

(** [decode_string] reads back the text of a string value. *)
Lemma decode_string_escaped (pr : wchar_t -> bool) (pre s tail : wstring) :
  Forall (unit_round_trips pr) s ->
  decode_string (pre ++ ([Ch.quote] ++ escape pr s ++ [Ch.quote]) ++ tail)
    (List.length pre)
  = Ok (String s,
        (List.length pre + List.length ([Ch.quote] ++ escape pr s ++ [Ch.quote]))%nat).
Proof.
  intros Hs. unfold decode_string.
  replace (pre ++ ([Ch.quote] ++ escape pr s ++ [Ch.quote]) ++ tail)
    with ((pre ++ [Ch.quote]) ++ escape pr s ++ Ch.quote :: tail)
    by (repeat rewrite <- app_assoc; reflexivity).
  replace (S (List.length pre)) with (List.length (pre ++ [Ch.quote]))
    by (rewrite length_app; cbn; lia).
  rewrite decode_string_loop_escaped
    by (auto; text_length).
  cbn [bind app].
  rewrite (char_at_split _ ((pre ++ [Ch.quote]) ++ escape pr s) Ch.quote tail)
    by split_text.
  change (Ch.quote =? 0) with false. cbv iota.
  f_equal. f_equal. text_length.
Qed.

(** The string loop copies a key that needs no escape. *)
Lemma decode_string_loop_verbatim (k : wstring) :
  forall (pre tail str : wstring) (n : nat),
    Forall plain_unit k -> (List.length k <= n)%nat ->
    decode_string_loop n (pre ++ k ++ Ch.quote :: tail) (List.length pre) str false
    = Ok (str ++ k, (List.length pre + List.length k)%nat).
Proof.
  induction k as [| c k IH]; intros pre tail str n Hk Hn.
  - cbn [app List.length].
    destruct n; cbn [decode_string_loop]; rewrite char_at_app_cons;
      change (negb (Ch.quote =? 0) && (false || negb (Ch.quote =? Ch.quote)))
        with false; cbv iota; now rewrite app_nil_r, Nat.add_0_r.
  - inversion Hk as [| ? ? Hc Hk']; subst. cbn [List.length] in Hn.
    destruct n as [| n]; [lia | ]. cbn [app].
    rewrite (string_loop_plain n _ (List.length pre) str c)
      by (auto; apply char_at_app_cons).
    replace (pre ++ c :: k ++ Ch.quote :: tail)
      with ((pre ++ [c]) ++ k ++ Ch.quote :: tail) by split_text.
    replace (S (List.length pre)) with (List.length (pre ++ [c])) by split_text.
    rewrite IH by (auto; lia).
    rewrite <- app_assoc. cbn [app]. f_equal. f_equal.
    rewrite length_app. cbn [List.length]. lia.
Qed.

Lemma decode_string_verbatim (pre k tail : wstring) :
  Forall plain_unit k ->
  decode_string (pre ++ Ch.quote :: k ++ Ch.quote :: tail) (List.length pre)
  = Ok (String k, (List.length pre + List.length k + 2)%nat).
Proof.
  intros Hk. unfold decode_string.
  replace (pre ++ Ch.quote :: k ++ Ch.quote :: tail)
    with ((pre ++ [Ch.quote]) ++ k ++ Ch.quote :: tail) by split_text.
  replace (S (List.length pre)) with (List.length (pre ++ [Ch.quote]))
    by split_text.
  rewrite decode_string_loop_verbatim
    by (auto; text_length).
  cbn [bind app].
  rewrite (char_at_split _ ((pre ++ [Ch.quote]) ++ k) Ch.quote tail)
    by split_text.
  change (Ch.quote =? 0) with false. cbv iota.
  f_equal. f_equal. text_length.
Qed.

(** *** Literals *)

Lemma starts_with_app (expected rest : wstring) :
  starts_with expected (expected ++ rest) = true.
Proof.
  induction expected as [| e expected IH]; [reflexivity | ].
  cbn [app starts_with]. now rewrite Z.eqb_refl, IH.
Qed.

Lemma skipn_app_length (pre text : wstring) :
  skipn (List.length pre) (pre ++ text) = text.
Proof. induction pre as [| c pre IH]; [reflexivity | exact IH]. Qed.

Lemma literal_at_app (pre expected rest : wstring) :
  literal_at (pre ++ expected ++ rest) (List.length pre) expected = true.
Proof. unfold literal_at. rewrite skipn_app_length. apply starts_with_app. Qed.


(** *** Scalars *)

Lemma digit_opens_value (d : wchar_t) : iswdigit d = true -> opens_value d.
Proof.
  intros Hd. apply iswdigit_range in Hd. unfold opens_value, Ch.rbracket, Ch.rbrace.
  repeat split; try lia.
  intros sp. unfold iswspace, is_ascii.
  destruct (Z.leb_spec 0 d), (Z.ltb_spec d 128), (Z.eqb_spec d 32),
    (Z.leb_spec 9 d), (Z.leb_spec d 13); cbn; auto; lia.
Qed.

Lemma concrete_opens_value (c : wchar_t) :
  In c [110; 116; 102; Ch.quote; Ch.minus] -> opens_value c.
Proof.
  intros Hin. cbn [In] in Hin.
  repeat (destruct Hin as [<- | Hin];
          [repeat split; try discriminate; intros sp; reflexivity | ]).
  destruct Hin.
Qed.

(** The text of a scalar starts with a code unit that opens a value. *)
Lemma encode_scalar_opens (pr : wchar_t -> bool) (show_double : float -> wstring)
    (x : Value) :
  scalar pr x ->
  exists c text, encode pr show_double x = c :: text /\ opens_value c.
Proof.
  intros Hx. destruct Hx as [| b | i Hi | s Hs].
  - exists 110, (wstr "ull"). split; [reflexivity | ].
    apply concrete_opens_value. cbn; tauto.
  - destruct b.
    + exists 116, (wstr "rue"). split; [reflexivity | ].
      apply concrete_opens_value. cbn; tauto.
    + exists 102, (wstr "alse"). split; [reflexivity | ].
      apply concrete_opens_value. cbn; tauto.
  - destruct (show_int_token i Hi) as (t & Et & Hok & Hf & He & _).
    cbn [encode]. rewrite Et. destruct t as [neg ds f e].
    cbn [tok_fraction tok_exponent] in Hf, He. subst f e.
    unfold token_ok in Hok. cbn [tok_integer tok_fraction tok_exponent] in Hok.
    rewrite !andb_true_r in Hok. apply andb_prop in Hok as [Hds _].
    destruct (digits_ok_inv ds Hds) as (d & ds' & -> & Hd & _).
    unfold token_text. cbn [tok_negative tok_integer tok_fraction tok_exponent].
    destruct neg; cbn [app].
    + eexists _, _. split; [reflexivity | ].
      apply concrete_opens_value. cbn; tauto.
    + eexists _, _. split; [reflexivity | ]. now apply digit_opens_value.
  - cbn [encode app]. eexists _, _. split; [reflexivity | ].
    apply concrete_opens_value. cbn; tauto.
Qed.

Lemma after_value_ends_token (c : wchar_t) :
  after_value c ->
  negb (iswdigit c) && negb (c =? Ch.dot) && (negb (c =? 101) && negb (c =? 69))
  = true.
Proof.
  intros Hin. unfold after_value in Hin. cbn [In] in Hin.
  repeat (destruct Hin as [<- | Hin]; [reflexivity | ]). destruct Hin.
Qed.

(** [decode_value] reads back the text of a scalar and stops behind it. *)
Lemma decode_value_scalar (sp pr : wchar_t -> bool) (pow : float -> float -> float)
    (show_double : float -> wstring) (fuel : nat) (pre rest : wstring) (x : Value) :
  scalar pr x -> after_value (hd 0 rest) ->
  decode_value sp pow (S fuel) (pre ++ encode pr show_double x ++ rest)
    (List.length pre)
  = Ok (x, (List.length pre + List.length (encode pr show_double x))%nat).
Proof.
  intros Hx Hrest. rewrite decode_value_S. cbv zeta.
  destruct (encode_scalar_opens pr show_double x Hx) as (c & text & Ec & Hc).
  assert (Hchar : char_at (pre ++ encode pr show_double x ++ rest) (List.length pre) = c)
    by (rewrite Ec; apply char_at_app_cons).
  destruct Hc as (_ & _ & _ & Hsp).
  rewrite skip_spaces_fixed by (rewrite Hchar, Hsp; apply andb_false_r).
  rewrite Hchar. clear Hsp.
  destruct Hx as [| b | i Hi | s Hs].
  - injection Ec as <- _. cbn [Z.eqb Pos.eqb]. cbn [encode].
    rewrite (compare_forward_spec _ _ _ wstr_nonzero_null), literal_at_app.
    reflexivity.
  - destruct b; injection Ec as <- _; cbn [Z.eqb Pos.eqb]; cbn [encode].
    + rewrite (compare_forward_spec _ _ _ wstr_nonzero_true), literal_at_app.
      reflexivity.
    + rewrite (compare_forward_spec _ _ _ wstr_nonzero_false), literal_at_app.
      reflexivity.
  - destruct (show_int_token i Hi) as (t & Et & Hok & Hf & He & Hv).
    cbn [encode] in *. rewrite Et in *.
    assert (Hc : c = Ch.minus \/ 48 <= c <= 57).
    { destruct t as [neg ds f e]. cbn [tok_fraction tok_exponent] in Hf, He.
      subst f e. unfold token_ok in Hok.
      cbn [tok_integer tok_fraction tok_exponent] in Hok.
      rewrite !andb_true_r in Hok. apply andb_prop in Hok as [Hds _].
      destruct (digits_ok_inv ds Hds) as (d & ds' & -> & Hd & _).
      unfold token_text in Ec.
      cbn [tok_negative tok_integer tok_fraction tok_exponent] in Ec.
      destruct neg; cbn [app] in Ec; injection Ec as <- _;
        [now left | right; now apply iswdigit_range]. }
    assert (Hends : token_ends_before t (hd 0 rest) = true).
    { unfold token_ends_before. rewrite Hf, He.
      now apply after_value_ends_token. }
    unfold Ch.quote, Ch.lbrace, Ch.lbracket, Ch.minus in *.
    replace (c =? 116) with false by (symmetry; apply Z.eqb_neq; lia).
    replace (c =? 102) with false by (symmetry; apply Z.eqb_neq; lia).
    replace (c =? 110) with false by (symmetry; apply Z.eqb_neq; lia).
    replace (c =? 34) with false by (symmetry; apply Z.eqb_neq; lia).
    replace (c =? 123) with false by (symmetry; apply Z.eqb_neq; lia).
    replace (c =? 91) with false by (symmetry; apply Z.eqb_neq; lia).
    replace (iswdigit c || (c =? 45)) with true.
    2:{ symmetry. unfold iswdigit.
        destruct Hc as [-> | Hc]; [reflexivity | ].
        destruct (Z.leb_spec 48 c), (Z.leb_spec c 57); cbn; auto; lia. }
    rewrite (decode_number_token pow pre rest t Hok Hends), Hv. reflexivity.
  - injection Ec as <- _. cbn [Z.eqb Pos.eqb Ch.quote]. cbn [encode].
    now apply decode_string_escaped.
Qed.


(** *** Lists of scalars *)

Section RoundTrip.

Variable sp pr : wchar_t -> bool.
Variable pow : float -> float -> float.
Variable show_double : float -> wstring.

Lemma encode_List (l : list Value) :
  encode pr show_double (List l)
  = wstr "[" ++ encode_elements pr show_double true l ++ wstr "]".
Proof. reflexivity. Qed.

Lemma skip_spaces_step (data : wstring) (pos : nat) :
  negb (char_at data pos =? 0) && iswspace sp (char_at data pos) = true ->
  skip_spaces sp data pos = skip_spaces sp data (S pos).
Proof.
  intros H. unfold skip_spaces.
  assert (Hlen : (pos < List.length data)%nat).
  { apply char_at_nonzero. intros E. rewrite E in H. discriminate. }
  replace (List.length data - pos)%nat with (S (List.length data - S pos)) by lia.
  cbn [skip_spaces_loop]. now rewrite H.
Qed.

(** Behind a comma the encoder writes one space; [skip_spaces] steps over
    it and stops on the value that follows. *)
Lemma skip_spaces_one_space (data : wstring) (pos : nat) :
  char_at data pos = 32 -> opens_value (char_at data (S pos)) ->
  skip_spaces sp data pos = S pos.
Proof.
  intros Hs (_ & _ & _ & Hn). rewrite skip_spaces_step by (now rewrite Hs).
  apply skip_spaces_fixed. rewrite Hn. apply andb_false_r.
Qed.

Lemma skip_spaces_on_value (data : wstring) (pos : nat) :
  opens_value (char_at data pos) -> skip_spaces sp data pos = pos.
Proof.
  intros (_ & _ & _ & Hn). apply skip_spaces_fixed. rewrite Hn. apply andb_false_r.
Qed.

Lemma skip_spaces_after_value (data : wstring) (pos : nat) :
  In (char_at data pos) [Ch.comma; Ch.colon; Ch.rbracket; Ch.rbrace] ->
  skip_spaces sp data pos = pos.
Proof.
  intros Hin. apply skip_spaces_fixed. cbn [In] in Hin.
  repeat (destruct Hin as [<- | Hin]; [reflexivity | ]). destruct Hin.
Qed.

Lemma decode_array_loop_last (fuel : nat) (data : wstring) (pos : nat)
    (list : Datatypes.list Value) :
  decode_array_loop sp pow fuel data pos list true = Ok (list, true, pos).
Proof.
  destruct fuel; [rewrite decode_array_loop_O | rewrite decode_array_loop_S];
    cbn [negb andb]; now rewrite andb_false_r.
Qed.

Lemma decode_object_loop_last (fuel : nat) (data : wstring) (pos : nat)
    (object : Datatypes.list (wstring * Value)) :
  decode_object_loop sp pow fuel data pos object true = Ok (object, true, pos).
Proof.
  destruct fuel; [rewrite decode_object_loop_O | rewrite decode_object_loop_S];
    cbn [negb andb]; now rewrite andb_false_r.
Qed.

Lemma opens_value_cond (c close : wchar_t) :
  opens_value c -> close = Ch.rbracket \/ close = Ch.rbrace ->
  negb (c =? 0) && negb false && negb (c =? close) = true.
Proof.
  intros (H0 & Hb & Hc & _) Hclose. apply Z.eqb_neq in H0, Hb, Hc.
  destruct Hclose as [-> | ->]; now rewrite H0, ?Hb, ?Hc.
Qed.

(** The loop of [decode_array] over the text of scalars: with the cursor
    on the text of [x], it reads [x] and the elements [r] behind it. *)
Lemma decode_array_loop_scalars (r : list Value) :
  forall (x : Value) (pre rest : wstring) (acc : list Value) (fuel : nat),
    scalar pr x -> Forall (scalar pr) r -> (List.length r + 2 <= fuel)%nat ->
    decode_array_loop sp pow fuel
      (pre ++ encode pr show_double x
           ++ encode_elements pr show_double false r ++ Ch.rbracket :: rest)
      (List.length pre) acc false
    = Ok (acc ++ x :: r, true,
          (List.length pre
           + List.length (encode pr show_double x
                          ++ encode_elements pr show_double false r))%nat).
Proof.
  induction r as [| y r IH]; intros x pre rest acc fuel Hx Hr Hfuel;
    (destruct fuel as [| [| fuel]]; [cbn in Hfuel; lia | cbn in Hfuel; lia | ]);
    destruct (encode_scalar_opens pr show_double x Hx) as (c & text & Ec & Hc);
    rewrite decode_array_loop_S;
    match goal with
    | |- context [char_at ?d (List.length pre)] =>
        assert (Hchar : char_at d (List.length pre) = c)
          by (rewrite Ec; apply char_at_app_cons)
    end;
    rewrite Hchar, (opens_value_cond c Ch.rbracket Hc (or_introl eq_refl));
    cbv zeta;
    rewrite skip_spaces_on_value by (now rewrite Hchar).
  - cbn [encode_elements app].
    rewrite (decode_value_scalar sp pr pow show_double fuel pre
               (Ch.rbracket :: rest) x Hx)
      by (cbn; tauto).
    cbn [bind].
    assert (Hclose : char_at (pre ++ encode pr show_double x ++ Ch.rbracket :: rest)
                       (List.length pre + List.length (encode pr show_double x))
                     = Ch.rbracket)
      by (apply (char_at_split _ (pre ++ encode pr show_double x) Ch.rbracket rest);
          split_text).
    rewrite (skip_spaces_on_bracket sp _ _ Hclose), Hclose.
    change (Ch.rbracket =? Ch.comma) with false. cbv beta iota.
    rewrite (skip_spaces_on_bracket sp _ _ Hclose), decode_array_loop_last.
    now rewrite app_nil_r.
  - inversion Hr as [| ? ? Hy Hr']; subst.
    destruct (encode_scalar_opens pr show_double y Hy) as (cy & ty & Ey & Hcy).
    cbn [encode_elements].
    set (tail := encode_elements pr show_double false r ++ Ch.rbracket :: rest).
    set (ex := encode pr show_double x) in *.
    set (ey := encode pr show_double y) in *.
    replace (pre ++ ex ++ (wstr ", " ++ ey ++ encode_elements pr show_double false r)
                 ++ Ch.rbracket :: rest)
      with (pre ++ ex ++ Ch.comma :: 32 :: ey ++ tail)
      by (subst tail; text_assoc).
    subst ex.
    rewrite (decode_value_scalar sp pr pow show_double fuel pre
               (Ch.comma :: 32 :: ey ++ tail) x Hx)
      by (cbn; tauto).
    cbn [bind]. set (ex := encode pr show_double x) in *.
    set (data := pre ++ ex ++ Ch.comma :: 32 :: ey ++ tail).
    assert (Hcomma : char_at data (List.length pre + List.length ex) = Ch.comma)
      by (apply (char_at_split _ (pre ++ ex) Ch.comma (32 :: ey ++ tail));
          subst data; split_text).
    assert (Hspace : char_at data (S (List.length pre + List.length ex)) = 32)
      by (apply (char_at_split _ (pre ++ ex ++ [Ch.comma]) 32 (ey ++ tail));
          subst data; split_text).
    assert (Hnext : char_at data (S (S (List.length pre + List.length ex))) = cy)
      by (apply (char_at_split _ (pre ++ ex ++ [Ch.comma; 32]) cy (ty ++ tail));
          subst data ey; rewrite ?Ey; split_text).
    rewrite (skip_spaces_after_value data) by (rewrite Hcomma; cbn; tauto).
    rewrite Hcomma, Z.eqb_refl. cbv beta iota.
    rewrite (skip_spaces_one_space data) by (auto; now rewrite Hnext).
    replace data with ((pre ++ ex ++ [Ch.comma; 32]) ++ ey
                         ++ encode_elements pr show_double false r
                         ++ Ch.rbracket :: rest)
      by (subst data tail; text_assoc).
    replace (S (S (List.length pre + List.length ex)))
      with (List.length (pre ++ ex ++ [Ch.comma; 32])) by text_length.
    subst ey. rewrite IH by (auto; cbn in Hfuel; lia).
    rewrite <- app_assoc. cbn [app]. do 2 f_equal.
    change (wstr ", ") with [Ch.comma; 32]. text_length.
Qed.


Lemma encode_elements_length (l : list Value) (first : bool) :
  Forall (scalar pr) l ->
  (List.length l <= List.length (encode_elements pr show_double first l))%nat.
Proof.
  revert first. induction l as [| x l IH]; intros first Hl; [cbn; lia | ].
  inversion Hl as [| ? ? Hx Hl']; subst.
  destruct (encode_scalar_opens pr show_double x Hx) as (c & text & Ec & _).
  cbn [encode_elements List.length]. rewrite !length_app, Ec.
  specialize (IH false Hl'). cbn [List.length]. lia.
Qed.

(** [decode_array] reads back the text of a list of scalars and stops on
    its closing bracket. *)
Lemma decode_array_scalars (l : list Value) (pre rest : wstring) (fuel : nat) :
  Forall (scalar pr) l -> (List.length l + 3 <= fuel)%nat ->
  decode_array sp pow fuel (pre ++ encode pr show_double (List l) ++ rest)
    (List.length pre)
  = Ok (List l,
        (List.length pre + S (List.length (encode_elements pr show_double true l)))%nat).
Proof.
  intros Hl Hfuel. destruct fuel as [| fuel]; [lia | ].
  rewrite decode_array_S, encode_List. cbv zeta.
  change (wstr "[") with [Ch.lbracket]. change (wstr "]") with [Ch.rbracket].
  destruct l as [| x r].
  - cbn [encode_elements app List.length].
    assert (Hclose : char_at (pre ++ Ch.lbracket :: Ch.rbracket :: rest)
                       (S (List.length pre)) = Ch.rbracket)
      by (apply (char_at_split _ (pre ++ [Ch.lbracket]) Ch.rbracket rest);
          split_text).
    rewrite (skip_spaces_on_bracket sp _ _ Hclose), Hclose.
    cbn [Z.eqb Ch.rbracket Pos.eqb negb bind orb].
    rewrite Hclose. cbn [Z.eqb Ch.rbracket Pos.eqb negb].
    do 2 f_equal. lia.
  - inversion Hl as [| ? ? Hx Hr]; subst.
    destruct (encode_scalar_opens pr show_double x Hx) as (c & text & Ec & Hc).
    cbn [encode_elements app].
    set (ex := encode pr show_double x) in *.
    set (er := encode_elements pr show_double false r) in *.
    replace (pre ++ Ch.lbracket :: ((ex ++ er) ++ [Ch.rbracket]) ++ rest)
      with ((pre ++ [Ch.lbracket]) ++ ex ++ er ++ Ch.rbracket :: rest)
      by (text_assoc).
    replace (S (List.length pre)) with (List.length (pre ++ [Ch.lbracket]))
      by text_length.
    assert (Hchar : char_at ((pre ++ [Ch.lbracket]) ++ ex ++ er ++ Ch.rbracket :: rest)
                      (List.length (pre ++ [Ch.lbracket])) = c)
      by (rewrite Ec; apply char_at_app_cons).
    rewrite skip_spaces_on_value by (now rewrite Hchar).
    rewrite Hchar. destruct Hc as (Hc0 & Hcb & Hcc & Hcs).
    pose proof Hcb as Hcb'. apply Z.eqb_neq in Hcb'. rewrite Hcb'. cbn [negb].
    subst ex er.
    rewrite decode_array_loop_scalars by (auto; cbn in Hfuel; lia).
    cbn [bind app negb orb].
    set (ex := encode pr show_double x) in *.
    set (er := encode_elements pr show_double false r) in *.
    rewrite (char_at_split _ ((pre ++ [Ch.lbracket]) ++ ex ++ er) Ch.rbracket rest)
      by split_text.
    cbn [Z.eqb Ch.rbracket Pos.eqb negb]. do 2 f_equal. text_length.
Qed.

(** *** Objects of scalars *)

Lemma wstring_eqb_neq (a b : wstring) : a <> b -> wstring_eqb a b = false.
Proof.
  intros H. unfold wstring_eqb. destruct (list_eq_dec Z.eq_dec a b); congruence.
Qed.

Lemma object_mem_absent (key : wstring) (o : list (wstring * Value)) :
  ~ In key (map fst o) -> object_mem key o = false.
Proof.
  unfold object_mem. induction o as [| kv o IH]; intros Hn; [reflexivity | ].
  cbn [map In existsb] in *. rewrite wstring_eqb_neq by tauto.
  apply IH. tauto.
Qed.

Lemma object_insert_absent (key : wstring) (value : Value)
    (o : list (wstring * Value)) :
  ~ In key (map fst o) -> object_insert key value o = o ++ [(key, value)].
Proof. intros H. unfold object_insert. now rewrite object_mem_absent. Qed.

(** The loop of [decode_object] over the text of entries. *)
Lemma decode_object_loop_scalars (r : list (wstring * Value)) :
  forall (kv : wstring * Value) (pre rest : wstring)
         (acc : list (wstring * Value)) (fuel : nat),
    pair_round_trips pr kv -> Forall (pair_round_trips pr) r ->
    NoDup (map fst (acc ++ kv :: r)) ->
    (List.length r + 2 <= fuel)%nat ->
    decode_object_loop sp pow fuel
      (pre ++ pair_text pr show_double kv
           ++ encode_pairs pr show_double false r ++ Ch.rbrace :: rest)
      (List.length pre) acc false
    = Ok (acc ++ kv :: r, true,
          (List.length pre
           + List.length (pair_text pr show_double kv
                            ++ encode_pairs pr show_double false r))%nat).
Proof.
  induction r as [| kv' r IH]; intros [k x] pre rest acc fuel [Hk Hx] Hr Hnd Hfuel;
    (destruct fuel as [| [| fuel]]; [cbn in Hfuel; lia | cbn in Hfuel; lia | ]);
    cbn [fst snd] in Hk, Hx;
    destruct (encode_scalar_opens pr show_double x Hx) as (c & text & Ec & Hc);
    pose proof Hk as Hplain;
    assert (Habsent : ~ In k (map fst acc))
      by (rewrite map_app in Hnd; cbn [map fst] in Hnd;
          apply NoDup_remove_2 in Hnd; rewrite in_app_iff in Hnd; tauto);
    unfold pair_text; cbn [fst snd];
    change (wstr ":") with [Ch.colon]; change (wstr ", ") with [Ch.comma; 32];
    set (ex := encode pr show_double x) in *;
    rewrite decode_object_loop_S.
  - cbn [encode_pairs app].
    match goal with |- context [decode_string ?d _] => set (data := d) end.
    assert (Edata : data = pre ++ Ch.quote :: k ++ Ch.quote
                               :: Ch.colon :: ex ++ Ch.rbrace :: rest)
      by (subst data; text_assoc).
    assert (Hq : char_at data (List.length pre) = Ch.quote)
      by (rewrite Edata; apply char_at_app_cons).
    rewrite Hq. change (negb (Ch.quote =? 0) && negb false
                        && negb (Ch.quote =? Ch.rbrace)) with true.
    cbv beta iota zeta.
    rewrite (skip_spaces_on_value data) by (rewrite Hq; apply concrete_opens_value;
                                             cbn; tauto).
    rewrite Hq, Z.eqb_refl. cbn [negb].
    rewrite Edata at 1. rewrite (decode_string_verbatim pre k _ Hplain).
    cbn [bind].
    assert (Hcolon : char_at data (List.length pre + List.length k + 2) = Ch.colon)
      by (apply (char_at_split _ (pre ++ Ch.quote :: k ++ [Ch.quote]) Ch.colon
                   (ex ++ Ch.rbrace :: rest)); rewrite ?Edata; split_text).
    rewrite (skip_spaces_after_value data) by (rewrite Hcolon; cbn; tauto).
    rewrite Hcolon, Z.eqb_refl. cbn [negb].
    assert (Hval : char_at data (S (List.length pre + List.length k + 2)) = c)
      by (apply (char_at_split _ (pre ++ Ch.quote :: k ++ [Ch.quote; Ch.colon]) c
                   (text ++ Ch.rbrace :: rest));
          rewrite ?Edata; subst ex; rewrite ?Ec; split_text).
    rewrite (skip_spaces_on_value data) by (now rewrite Hval).
    replace data with ((pre ++ Ch.quote :: k ++ [Ch.quote; Ch.colon]) ++ ex
                         ++ Ch.rbrace :: rest)
      by (rewrite Edata; text_assoc).
    replace (S (List.length pre + List.length k + 2))
      with (List.length (pre ++ Ch.quote :: k ++ [Ch.quote; Ch.colon]))
      by text_length.
    subst ex.
    rewrite (decode_value_scalar sp pr pow show_double fuel _ (Ch.rbrace :: rest) x Hx)
      by (cbn; tauto).
    cbn [bind]. rewrite (object_insert_absent k x acc Habsent).
    set (ex := encode pr show_double x) in *.
    set (pre' := pre ++ Ch.quote :: k ++ [Ch.quote; Ch.colon]) in *.
    assert (Hclose : char_at (pre' ++ ex ++ Ch.rbrace :: rest)
                       (List.length pre' + List.length ex) = Ch.rbrace)
      by (apply (char_at_split _ (pre' ++ ex) Ch.rbrace rest); split_text).
    rewrite (skip_spaces_after_value (pre' ++ ex ++ Ch.rbrace :: rest))
      by (rewrite Hclose; cbn; tauto).
    rewrite Hclose. change (Ch.rbrace =? Ch.comma) with false. cbv beta iota.
    rewrite (skip_spaces_after_value (pre' ++ ex ++ Ch.rbrace :: rest))
      by (rewrite Hclose; cbn; tauto).
    rewrite decode_object_loop_last, <- app_assoc. cbn [app].
    do 2 f_equal. subst pre'. rewrite app_nil_r.
    change (wstr ":") with [Ch.colon]. text_length.
  - inversion Hr as [| ? ? Hkv' Hr']; subst.
    destruct kv' as [k' x']. pose proof Hkv' as [Hk' Hx']. cbn [fst snd] in Hk', Hx'.
    cbn [encode_pairs fst snd].
    set (ey := encode pr show_double x') in *.
    set (tail := encode_pairs pr show_double false r ++ Ch.rbrace :: rest).
    set (next := Ch.quote :: k' ++ Ch.quote :: Ch.colon :: ey ++ tail).
    change (wstr ":") with [Ch.colon]. change (wstr ", ") with [Ch.comma; 32].
    match goal with |- context [decode_string ?d _] => set (data := d) end.
    assert (Edata : data = pre ++ Ch.quote :: k ++ Ch.quote :: Ch.colon
                               :: ex ++ Ch.comma :: 32 :: next)
      by (subst data next tail; text_assoc).
    assert (Hq : char_at data (List.length pre) = Ch.quote)
      by (rewrite Edata; apply char_at_app_cons).
    rewrite Hq. change (negb (Ch.quote =? 0) && negb false
                        && negb (Ch.quote =? Ch.rbrace)) with true.
    cbv beta iota zeta.
    rewrite (skip_spaces_on_value data) by (rewrite Hq; apply concrete_opens_value;
                                             cbn; tauto).
    rewrite Hq, Z.eqb_refl. cbn [negb].
    rewrite Edata at 1. rewrite (decode_string_verbatim pre k _ Hplain).
    cbn [bind].
    assert (Hcolon : char_at data (List.length pre + List.length k + 2) = Ch.colon)
      by (apply (char_at_split _ (pre ++ Ch.quote :: k ++ [Ch.quote]) Ch.colon
                   (ex ++ Ch.comma :: 32 :: next)); rewrite ?Edata; split_text).
    rewrite (skip_spaces_after_value data) by (rewrite Hcolon; cbn; tauto).
    rewrite Hcolon, Z.eqb_refl. cbn [negb].
    set (pre' := pre ++ Ch.quote :: k ++ [Ch.quote; Ch.colon]).
    assert (Edata' : data = pre' ++ ex ++ Ch.comma :: 32 :: next)
      by (rewrite Edata; subst pre'; text_assoc).
    assert (Hpos : S (List.length pre + List.length k + 2) = List.length pre')
      by (subst pre'; text_length).
    rewrite Hpos.
    assert (Hval : char_at data (List.length pre') = c)
      by (rewrite Edata'; subst ex; rewrite Ec; apply char_at_app_cons).
    rewrite (skip_spaces_on_value data) by (now rewrite Hval).
    rewrite Edata' at 1. subst ex.
    rewrite (decode_value_scalar sp pr pow show_double fuel pre'
               (Ch.comma :: 32 :: next) x Hx)
      by (cbn; tauto).
    cbn [bind]. rewrite (object_insert_absent k x acc Habsent).
    set (ex := encode pr show_double x) in *.
    assert (Hcomma : char_at data (List.length pre' + List.length ex) = Ch.comma)
      by (apply (char_at_split _ (pre' ++ ex) Ch.comma (32 :: next));
          rewrite ?Edata'; split_text).
    assert (Hspace : char_at data (S (List.length pre' + List.length ex)) = 32)
      by (apply (char_at_split _ (pre' ++ ex ++ [Ch.comma]) 32 next);
          rewrite ?Edata'; split_text).
    assert (Hnext : char_at data (S (S (List.length pre' + List.length ex)))
                    = Ch.quote)
      by (apply (char_at_split _ (pre' ++ ex ++ [Ch.comma; 32]) Ch.quote
                   (k' ++ Ch.quote :: Ch.colon :: ey ++ tail));
          rewrite ?Edata'; subst next; split_text).
    rewrite (skip_spaces_after_value data) by (rewrite Hcomma; cbn; tauto).
    rewrite Hcomma, Z.eqb_refl. cbv beta iota.
    rewrite (skip_spaces_one_space data)
      by (auto; rewrite Hnext; apply concrete_opens_value; cbn; tauto).
    assert (Enext : data = (pre' ++ ex ++ [Ch.comma; 32])
                           ++ pair_text pr show_double (k', x')
                           ++ encode_pairs pr show_double false r
                           ++ Ch.rbrace :: rest)
      by (rewrite Edata'; subst next tail ey; unfold pair_text; cbn [fst snd];
          change (wstr ":") with [Ch.colon];
          text_assoc).
    rewrite Enext.
    replace (S (S (List.length pre' + List.length ex)))
      with (List.length (pre' ++ ex ++ [Ch.comma; 32])) by text_length.
    rewrite IH;
      [ | exact Hkv' | exact Hr'
        | rewrite <- app_assoc; exact Hnd | cbn in Hfuel; lia ].
    rewrite <- app_assoc. cbn [app]. do 2 f_equal.
    unfold pair_text. cbn [fst snd]. subst pre' ey.
    change (wstr ", ") with [Ch.comma; 32]. change (wstr ":") with [Ch.colon].
    text_length.
Qed.


Lemma encode_pairs_length (o : list (wstring * Value)) (first : bool) :
  (List.length o <= List.length (encode_pairs pr show_double first o))%nat.
Proof.
  revert first. induction o as [| kv o IH]; intros first; [cbn; lia | ].
  cbn [encode_pairs List.length]. rewrite !length_app.
  specialize (IH false). cbn [List.length]. lia.
Qed.

Lemma encode_pairs_cons (first : bool) (kv : wstring * Value)
    (o : list (wstring * Value)) :
  encode_pairs pr show_double first (kv :: o)
  = (if first then [] else wstr ", ")
      ++ pair_text pr show_double kv ++ encode_pairs pr show_double false o.
Proof. unfold pair_text. rewrite <- app_assoc. reflexivity. Qed.

(** [decode_object] reads back the text of an object of scalars and stops
    on its closing brace. *)
Lemma decode_object_scalars (o : list (wstring * Value)) (pre rest : wstring)
    (fuel : nat) :
  Forall (pair_round_trips pr) o -> NoDup (map fst o) ->
  (List.length o + 3 <= fuel)%nat ->
  decode_object sp pow fuel (pre ++ encode pr show_double (Object o) ++ rest)
    (List.length pre)
  = Ok (Object o,
        (List.length pre + S (List.length (encode_pairs pr show_double true o)))%nat).
Proof.
  intros Ho Hnd Hfuel. destruct fuel as [| fuel]; [lia | ].
  rewrite decode_object_S, encode_Object. cbv zeta.
  change (wstr "{") with [Ch.lbrace]. change (wstr "}") with [Ch.rbrace].
  destruct o as [| kv r].
  - cbn [encode_pairs app List.length].
    assert (Hclose : char_at (pre ++ Ch.lbrace :: Ch.rbrace :: rest)
                       (S (List.length pre)) = Ch.rbrace)
      by (apply (char_at_split _ (pre ++ [Ch.lbrace]) Ch.rbrace rest); split_text).
    rewrite (skip_spaces_after_value _ _) by (rewrite Hclose; cbn; tauto).
    rewrite Hclose. cbn [Z.eqb Ch.rbrace Pos.eqb negb bind orb].
    rewrite Hclose. cbn [Z.eqb Ch.rbrace Pos.eqb negb].
    do 2 f_equal. lia.
  - inversion Ho as [| ? ? Hkv Hr]; subst.
    set (ek := pair_text pr show_double kv) in *.
    set (er := encode_pairs pr show_double false r) in *.
    match goal with |- context [skip_spaces sp ?d _] => set (data := d) end.
    assert (Edata : data = (pre ++ [Ch.lbrace]) ++ ek ++ er ++ Ch.rbrace :: rest)
      by (subst data ek er; unfold pair_text; cbn [encode_pairs];
          destruct kv as [k x]; cbn [fst snd];
          change (wstr ":") with [Ch.colon]; text_assoc).
    rewrite Edata. clear Edata data.
    replace (S (List.length pre)) with (List.length (pre ++ [Ch.lbrace]))
      by text_length.
    assert (Hchar : char_at ((pre ++ [Ch.lbrace]) ++ ek ++ er ++ Ch.rbrace :: rest)
                      (List.length (pre ++ [Ch.lbrace])) = Ch.quote)
      by (subst ek; unfold pair_text; cbn [app]; apply char_at_app_cons).
    rewrite skip_spaces_on_value
      by (rewrite Hchar; apply concrete_opens_value; cbn; tauto).
    rewrite Hchar. change (negb (Ch.quote =? Ch.rbrace)) with true. cbv iota.
    subst ek er.
    rewrite decode_object_loop_scalars
      by first [exact Hkv | exact Hr | exact Hnd | cbn in Hfuel; lia].
    cbn [bind app negb orb].
    set (ek := pair_text pr show_double kv) in *.
    set (er := encode_pairs pr show_double false r) in *.
    rewrite (char_at_split _ ((pre ++ [Ch.lbrace]) ++ ek ++ er) Ch.rbrace rest)
      by (clearbody ek er; split_text).
    cbn [Z.eqb Ch.rbrace Pos.eqb negb]. do 2 f_equal.
    subst ek er. rewrite encode_pairs_cons. text_length.
Qed.

(** C2, as the code has it: a scalar (Null, a boolean, an integer of the
    [int] range, a string whose code units are printable or below 32768),
    a list of such scalars and an object of such scalars under distinct
    keys that hold no terminator, double quote or backslash all come back
    from [decode] after [encode] as they were. *)
Theorem flat_value_round_trips (v : Value) :
  flat pr v -> decode sp pow (encode pr show_double v) = Ok v.
Proof.
  intros Hv. unfold decode, decode_at, decode_fuel.
  set (text := encode pr show_double v).
  replace (3 * List.length text + 4)%nat with (S (3 * List.length text + 3)) by lia.
  destruct Hv as [v Hx | l Hl | o Ho Hnd].
  - pose proof (decode_value_scalar sp pr pow show_double
                  (3 * List.length text + 3) [] [] v Hx
                  ltac:(cbn; tauto)) as H.
    cbn [app List.length] in H. rewrite app_nil_r in H. fold text in H.
    now rewrite H.
  - rewrite decode_value_S. cbv zeta.
    assert (Hopen : char_at text 0 = Ch.lbracket) by reflexivity.
    rewrite (skip_spaces_fixed sp text 0) by (now rewrite Hopen).
    rewrite Hopen. cbn [Z.eqb Ch.lbracket Ch.quote Ch.lbrace Pos.eqb].
    pose proof (decode_array_scalars l [] [] (3 * List.length text + 3) Hl) as H.
    cbn [app List.length] in H. rewrite app_nil_r in H. fold text in H.
    rewrite H; [reflexivity | ].
    pose proof (encode_elements_length l true Hl).
    subst text. rewrite encode_List, !length_app. lia.
  - rewrite decode_value_S. cbv zeta.
    assert (Hopen : char_at text 0 = Ch.lbrace) by reflexivity.
    rewrite (skip_spaces_fixed sp text 0) by (now rewrite Hopen).
    rewrite Hopen. cbn [Z.eqb Ch.lbracket Ch.quote Ch.lbrace Pos.eqb].
    pose proof (decode_object_scalars o [] [] (3 * List.length text + 3) Ho Hnd) as H.
    cbn [app List.length] in H. rewrite app_nil_r in H. fold text in H.
    rewrite H; [reflexivity | ].
    pose proof (encode_pairs_length o true).
    subst text. rewrite encode_Object, !length_app. lia.
Qed.

End RoundTrip.

Lemma flat_value_round_trips_witness :
  decode c_locale (fun x _ => x)
    (encode c_locale (fun _ => [])
       (Object [(wstr "id", Integer (-2147483648));
                (wstr "name", String (jtext "a'b\/" ++ [10; 1; 127]));
                (wstr "ok", Boolean true); ([9; 233], Null)]))
  = Ok (Object [(wstr "id", Integer (-2147483648));
                (wstr "name", String (jtext "a'b\/" ++ [10; 1; 127]));
                (wstr "ok", Boolean true); ([9; 233], Null)]).
Proof.
  apply flat_value_round_trips. apply flat_Object.
  - repeat (apply Forall_cons || apply Forall_nil); cbn [fst snd]; split;
      try (repeat (apply Forall_cons || apply Forall_nil);
           repeat split; (reflexivity || discriminate));
      constructor.
    + vm_compute. split; [discriminate | reflexivity].
    + repeat (apply Forall_cons || apply Forall_nil);
        (now left) || (right; lia).
  - vm_compute.
    repeat (apply NoDup_cons; [cbn [In]; intuition discriminate | ]).
    apply NoDup_nil.
Defined.

(** C2, as the claim states it, fails also where the encoder works as it
    is meant to: a key is written without escapes, so a key that holds a
    double quote is cut short by the decoder; and of a code unit that is
    not printable only the low 16 bits are written. *)
Lemma roundtrip_counterexample :
  (forall sp pr pow show_double,
     decode sp pow (encode pr show_double (Object [(jtext "a'b", Null)]))
     = Raise (InvalidCharacter "Expected ':'" 4))
  /\ (forall sp pow show_double,
        decode sp pow (encode c_locale show_double (String [917505]))
        = Ok (String [1])).
Proof. split; intros; vm_compute; reflexivity. Qed.

(** ** Further properties of the decoder and the encoder *)

(** *** White space *)

Lemma iswspace_nonzero (sp : wchar_t -> bool) (c : wchar_t) :
  iswspace sp c = true -> c <> 0.
Proof. intros H ->. discriminate. Qed.

Lemma skip_spaces_loop_skips (sp : wchar_t -> bool) (n : nat) (data : wstring) :
  forall pos i,
    (pos <= i < skip_spaces_loop sp n data pos)%nat ->
    char_at data i <> 0 /\ iswspace sp (char_at data i) = true.
Proof.
  induction n as [| n IH]; intros pos i Hi; cbn [skip_spaces_loop] in Hi; [lia | ].
  destruct (negb (char_at data pos =? 0) && iswspace sp (char_at data pos)) eqn:E;
    [ | lia].
  destruct (Nat.eq_dec i pos) as [-> | Hne].
  - apply andb_prop in E as [Hz Hs]. split; [ | exact Hs].
    apply negb_true_iff, Z.eqb_neq in Hz. exact Hz.
  - apply (IH (S pos)). lia.
Qed.

(** X7: [skip_spaces] moves the cursor over the white space in front of it and
    over nothing else: every code unit it passes is a space, and it stops
    on the first code unit that is the terminator or no space. *)
Theorem skip_spaces_passes_exactly_the_spaces (sp : wchar_t -> bool)
    (data : wstring) (pos : nat) :
  (pos <= skip_spaces sp data pos)%nat
  /\ (forall i, (pos <= i < skip_spaces sp data pos)%nat ->
        char_at data i <> 0 /\ iswspace sp (char_at data i) = true)
  /\ (char_at data (skip_spaces sp data pos) = 0
      \/ iswspace sp (char_at data (skip_spaces sp data pos)) = false).
Proof.
  split; [apply skip_spaces_ge | split].
  - intros i Hi. exact (skip_spaces_loop_skips sp _ data pos i Hi).
  - pose proof (skip_spaces_stops sp data pos) as H.
    apply andb_false_iff in H as [H | H]; [left | now right].
    apply negb_false_iff, Z.eqb_eq in H. exact H.
Qed.

(** A run of spaces is passed whole. *)
Lemma skip_spaces_over (sp : wchar_t -> bool) (ws : wstring) :
  forall (pre rest : wstring),
    Forall (fun c => iswspace sp c = true) ws ->
    skip_spaces sp (pre ++ ws ++ rest) (List.length pre)
    = skip_spaces sp (pre ++ ws ++ rest) (List.length pre + List.length ws).
Proof.
  induction ws as [| c ws IH]; intros pre rest Hws.
  - cbn [List.length]. now rewrite Nat.add_0_r.
  - inversion Hws as [| ? ? Hc Hws']; subst.
    rewrite skip_spaces_step.
    2:{ cbn [app]. rewrite char_at_app_cons, Hc.
        apply iswspace_nonzero, Z.eqb_neq in Hc. now rewrite Hc. }
    replace (pre ++ (c :: ws) ++ rest) with ((pre ++ [c]) ++ ws ++ rest)
      by (rewrite <- app_assoc; reflexivity).
    replace (S (List.length pre)) with (List.length (pre ++ [c]))
      by (rewrite length_app; cbn; lia).
    rewrite (IH (pre ++ [c]) rest Hws'). f_equal.
    rewrite length_app. cbn [List.length]. lia.
Qed.

Lemma skip_spaces_over_to (sp : wchar_t -> bool) (pre ws rest : wstring) :
  Forall (fun c => iswspace sp c = true) ws ->
  hd 0 rest = 0 \/ iswspace sp (hd 0 rest) = false ->
  skip_spaces sp (pre ++ ws ++ rest) (List.length pre)
  = (List.length pre + List.length ws)%nat.
Proof.
  intros Hws Hc. rewrite (skip_spaces_over sp ws pre rest Hws).
  apply skip_spaces_fixed.
  replace (pre ++ ws ++ rest) with ((pre ++ ws) ++ rest) by now rewrite app_assoc.
  replace (List.length pre + List.length ws)%nat with (List.length (pre ++ ws))
    by now rewrite length_app.
  rewrite char_at_app_hd.
  destruct Hc as [-> | ->]; [reflexivity | apply andb_false_r].
Qed.

(** *** Input that holds no value *)

(** X4: Empty input, input of white space only, and input whose first code
    unit after the white space opens no value (a closing bracket, a comma,
    a capital letter, ...) raise [InvalidCharacter] with the message
    [Invalid character found], at the position behind the white space. *)
Theorem input_without_value_is_rejected (sp : wchar_t -> bool)
    (pow : float -> float -> float) (ws rest : wstring) :
  Forall (fun c => iswspace sp c = true) ws ->
  opens_no_value sp (hd 0 rest) ->
  decode sp pow (ws ++ rest)
  = Raise (InvalidCharacter "Invalid character found" (List.length ws)).
Proof.
  intros Hws (Hc & Hcase & Hdigit).
  unfold decode, decode_at, decode_fuel.
  replace (3 * List.length (ws ++ rest) + 4)%nat
    with (S (3 * List.length (ws ++ rest) + 3)) by lia.
  rewrite decode_value_S. cbv zeta.
  pose proof (skip_spaces_over_to sp [] ws rest Hws Hc) as Hskip.
  cbn [app List.length Nat.add] in Hskip. rewrite Hskip.
  rewrite (char_at_app_hd ws rest).
  set (c := hd 0 rest) in *. cbn [In] in Hcase.
  repeat match goal with
  | |- context [c =? ?k] =>
      replace (c =? k) with false
        by (symmetry; apply Z.eqb_neq; intros E; apply Hcase; rewrite E; tauto)
  end.
  rewrite Hdigit. reflexivity.
Qed.

Lemma input_without_value_is_rejected_witness :
  decode c_locale (fun x _ => x) ([] ++ [])
  = Raise (InvalidCharacter "Invalid character found" 0)
  /\ decode c_locale (fun x _ => x) ([32; 10; 9] ++ [])
     = Raise (InvalidCharacter "Invalid character found" 3)
  /\ decode c_locale (fun x _ => x) ([32] ++ wstr "]")
     = Raise (InvalidCharacter "Invalid character found" 1).
Proof.
  split; [ | split].
  - apply (input_without_value_is_rejected c_locale (fun x _ => x) [] []).
    + apply Forall_nil.
    + vm_compute. intuition discriminate.
  - apply (input_without_value_is_rejected c_locale (fun x _ => x) [32; 10; 9] []).
    + repeat constructor.
    + vm_compute. intuition discriminate.
  - apply (input_without_value_is_rejected c_locale (fun x _ => x) [32] (wstr "]")).
    + repeat constructor.
    + vm_compute. intuition discriminate.
Defined.

(** *** The dispatch of [decode_value] *)

Lemma decode_unfold (sp : wchar_t -> bool) (pow : float -> float -> float)
    (json : wstring) :
  decode sp pow json
  = let* (value, _) :=
      decode_value sp pow (S (3 * List.length json + 3)) json 0 in
    Ok value.
Proof.
  unfold decode, decode_at, decode_fuel.
  now replace (3 * List.length json + 4)%nat with (S (3 * List.length json + 3)) by lia.
Qed.

Lemma decode_value_string (sp : wchar_t -> bool) (pow : float -> float -> float)
    (fuel : nat) (data : wstring) (pos : nat) :
  char_at data (skip_spaces sp data pos) = Ch.quote ->
  decode_value sp pow (S fuel) data pos
  = decode_string data (skip_spaces sp data pos).
Proof. intros H. rewrite decode_value_S. cbv zeta. now rewrite H. Qed.

Lemma decode_value_array (sp : wchar_t -> bool) (pow : float -> float -> float)
    (fuel : nat) (data : wstring) (pos : nat) :
  char_at data (skip_spaces sp data pos) = Ch.lbracket ->
  decode_value sp pow (S fuel) data pos
  = decode_array sp pow fuel data (skip_spaces sp data pos).
Proof. intros H. rewrite decode_value_S. cbv zeta. now rewrite H. Qed.

Lemma decode_value_object (sp : wchar_t -> bool) (pow : float -> float -> float)
    (fuel : nat) (data : wstring) (pos : nat) :
  char_at data (skip_spaces sp data pos) = Ch.lbrace ->
  decode_value sp pow (S fuel) data pos
  = decode_object sp pow fuel data (skip_spaces sp data pos).
Proof. intros H. rewrite decode_value_S. cbv zeta. now rewrite H. Qed.

Lemma decode_value_number (sp : wchar_t -> bool) (pow : float -> float -> float)
    (fuel : nat) (data : wstring) (pos : nat) :
  iswdigit (char_at data (skip_spaces sp data pos)) = true
  \/ char_at data (skip_spaces sp data pos) = Ch.minus ->
  decode_value sp pow (S fuel) data pos
  = decode_number pow data (skip_spaces sp data pos).
Proof.
  intros H. rewrite decode_value_S. cbv zeta.
  set (c := char_at data (skip_spaces sp data pos)) in *.
  assert (Hc : c = 45 \/ 48 <= c <= 57)
    by (destruct H as [H | H]; [right; now apply iswdigit_range | now left]).
  unfold Ch.quote, Ch.lbrace, Ch.lbracket, Ch.minus.
  replace (c =? 116) with false by (symmetry; apply Z.eqb_neq; lia).
  replace (c =? 102) with false by (symmetry; apply Z.eqb_neq; lia).
  replace (c =? 110) with false by (symmetry; apply Z.eqb_neq; lia).
  replace (c =? 34) with false by (symmetry; apply Z.eqb_neq; lia).
  replace (c =? 123) with false by (symmetry; apply Z.eqb_neq; lia).
  replace (c =? 91) with false by (symmetry; apply Z.eqb_neq; lia).
  replace (iswdigit c || (c =? 45)) with true; [reflexivity | ].
  symmetry. destruct H as [-> | ->]; [reflexivity | apply orb_true_r].
Qed.

(** *** Strings *)

(** X8: Between the quotes [decode] copies every code unit other than the
    double quote and the backslash as it is, control characters and code
    units that are not printable included; what follows the closing quote
    is not looked at. *)
Theorem string_body_is_copied_verbatim (sp : wchar_t -> bool)
    (pow : float -> float -> float) (s rest : wstring) :
  Forall plain_unit s ->
  decode sp pow (Ch.quote :: s ++ Ch.quote :: rest) = Ok (String s).
Proof.
  intros Hs. rewrite decode_unfold.
  set (data := Ch.quote :: s ++ Ch.quote :: rest).
  assert (Hskip : skip_spaces sp data 0 = 0%nat)
    by (apply skip_spaces_fixed; reflexivity).
  rewrite decode_value_string by (rewrite Hskip; reflexivity).
  rewrite Hskip.
  pose proof (decode_string_verbatim [] s rest Hs) as H.
  cbn [app List.length] in H. subst data. rewrite H. reflexivity.
Qed.

Lemma string_body_is_copied_verbatim_witness :
  decode c_locale (fun x _ => x) (Ch.quote :: [10; 9; 1; 97; 233] ++ Ch.quote :: wstr "]x")
  = Ok (String [10; 9; 1; 97; 233]).
Proof.
  apply string_body_is_copied_verbatim.
  repeat (apply Forall_cons; [repeat split; discriminate | ]). apply Forall_nil.
Defined.

(** *** Empty containers *)

(** X11: An opening bracket, white space or none, and the closing bracket give
    the empty list, and likewise the braces the empty object, whatever
    follows. *)
Theorem empty_containers_are_decoded (sp : wchar_t -> bool)
    (pow : float -> float -> float) (ws rest : wstring) :
  Forall (fun c => iswspace sp c = true) ws ->
  decode sp pow (Ch.lbracket :: ws ++ Ch.rbracket :: rest) = Ok (List [])
  /\ decode sp pow (Ch.lbrace :: ws ++ Ch.rbrace :: rest) = Ok (Object []).
Proof.
  intros Hws. split; rewrite decode_unfold.
  - set (data := Ch.lbracket :: ws ++ Ch.rbracket :: rest).
    assert (Hskip : skip_spaces sp data 0 = 0%nat)
      by (apply skip_spaces_fixed; reflexivity).
    rewrite decode_value_array by (rewrite Hskip; reflexivity).
    rewrite Hskip.
    replace (3 * List.length data + 3)%nat with (S (3 * List.length data + 2)) by lia.
    rewrite decode_array_S. cbv zeta.
    pose proof (skip_spaces_over_to sp [Ch.lbracket] ws (Ch.rbracket :: rest) Hws
                  ltac:(right; reflexivity)) as Hws'.
    cbn [app List.length Nat.add] in Hws'. subst data. rewrite Hws'.
    assert (Hclose : char_at (Ch.lbracket :: ws ++ Ch.rbracket :: rest)
                       (S (List.length ws)) = Ch.rbracket)
      by (apply (char_at_split _ (Ch.lbracket :: ws) Ch.rbracket rest); reflexivity).
    rewrite Hclose. change (negb (Ch.rbracket =? Ch.rbracket)) with false.
    cbn [bind negb orb]. rewrite Hclose. reflexivity.
  - set (data := Ch.lbrace :: ws ++ Ch.rbrace :: rest).
    assert (Hskip : skip_spaces sp data 0 = 0%nat)
      by (apply skip_spaces_fixed; reflexivity).
    rewrite decode_value_object by (rewrite Hskip; reflexivity).
    rewrite Hskip.
    replace (3 * List.length data + 3)%nat with (S (3 * List.length data + 2)) by lia.
    rewrite decode_object_S. cbv zeta.
    pose proof (skip_spaces_over_to sp [Ch.lbrace] ws (Ch.rbrace :: rest) Hws
                  ltac:(right; reflexivity)) as Hws'.
    cbn [app List.length Nat.add] in Hws'. subst data. rewrite Hws'.
    assert (Hclose : char_at (Ch.lbrace :: ws ++ Ch.rbrace :: rest)
                       (S (List.length ws)) = Ch.rbrace)
      by (apply (char_at_split _ (Ch.lbrace :: ws) Ch.rbrace rest); reflexivity).
    rewrite Hclose. change (negb (Ch.rbrace =? Ch.rbrace)) with false.
    cbn [bind negb orb]. rewrite Hclose. reflexivity.
Qed.

Lemma empty_containers_are_decoded_witness :
  decode c_locale (fun x _ => x) (Ch.lbracket :: [32; 10] ++ Ch.rbracket :: wstr "tail")
  = Ok (List [])
  /\ decode c_locale (fun x _ => x) (Ch.lbrace :: [32; 10] ++ Ch.rbrace :: wstr "tail")
     = Ok (Object []).
Proof.
  apply empty_containers_are_decoded. repeat constructor.
Defined.

(** *** Numbers *)

Lemma wrap_int_opp (z : Z) : wrap_int (- wrap_int z) = wrap_int (- z).
Proof.
  unfold wrap_int.
  change (2 ^ 31) with 2147483648. change (2 ^ 32) with 4294967296.
  Z.div_mod_to_equations. lia.
Qed.

(** X9: An integer numeral of any length is accepted; its value is taken
    modulo [2^32] into the range of [int], the sign applied: the digits
    are accumulated in an [int] with no check for overflow. *)
Theorem long_numerals_wrap_around (sp : wchar_t -> bool)
    (pow : float -> float -> float) (negative : bool) (ds rest : wstring) :
  digits_ok ds = true ->
  negb (hd 0 ds =? Ch.zero) || Nat.eqb (List.length ds) 1 = true ->
  ends_value (Integer 0) (hd 0 rest) ->
  decode sp pow ((if negative then [Ch.minus] else []) ++ ds ++ rest)
  = Ok (Integer (wrap_int (if negative then - digits_number ds 0
                           else digits_number ds 0))).
Proof.
  intros Hds Hzero (Hd & Hdot & He1 & He2).
  set (t := {| tok_negative := negative; tok_integer := ds;
               tok_fraction := None; tok_exponent := None |}).
  assert (Hok : token_ok t = true).
  { unfold token_ok. cbn [t tok_integer tok_fraction tok_exponent].
    now rewrite Hds, Hzero. }
  assert (Hend : token_ends_before t (hd 0 rest) = true).
  { unfold token_ends_before. cbn [t tok_fraction tok_exponent].
    rewrite Hd. apply Z.eqb_neq in Hdot, He1, He2. now rewrite Hdot, He1, He2. }
  pose proof (decode_number_token pow [] rest t Hok Hend) as Hnum.
  assert (Etext : token_text t = (if negative then [Ch.minus] else []) ++ ds)
    by (unfold token_text; cbn [t tok_negative tok_integer tok_fraction tok_exponent];
        now rewrite !app_nil_r).
  rewrite Etext in Hnum. cbn [app List.length Nat.add] in Hnum.
  rewrite <- app_assoc in Hnum.
  set (data := (if negative then [Ch.minus] else []) ++ ds ++ rest) in *.
  destruct (digits_ok_inv ds Hds) as (d & ds' & Eds & Hdig & _).
  assert (Hfirst : char_at data 0 = if negative then Ch.minus else d)
    by (subst data; rewrite Eds; destruct negative; reflexivity).
  assert (Hopen : opens_value (char_at data 0)).
  { rewrite Hfirst. destruct negative.
    - apply concrete_opens_value. cbn. tauto.
    - now apply digit_opens_value. }
  assert (Hskip : skip_spaces sp data 0 = 0%nat) by now apply skip_spaces_on_value.
  rewrite decode_unfold, decode_value_number.
  2:{ rewrite Hskip, Hfirst. destruct negative; [now right | now left]. }
  rewrite Hskip, Hnum. cbn [bind]. do 2 f_equal.
  unfold token_value, exponent_value.
  cbn [t tok_negative tok_integer tok_fraction tok_exponent Z.eqb].
  rewrite digits_value_number. destruct negative; [ | reflexivity].
  now rewrite wrap_int_opp.
Qed.

Lemma long_numerals_wrap_around_witness :
  decode c_locale (fun x _ => x) ([] ++ wstr "4294967297" ++ wstr ", 2]")
  = Ok (Integer (wrap_int (digits_number (wstr "4294967297") 0)))
  /\ wrap_int (digits_number (wstr "4294967297") 0) = 1
  /\ decode c_locale (fun x _ => x) ([Ch.minus] ++ wstr "2147483649" ++ [])
     = Ok (Integer (wrap_int (- digits_number (wstr "2147483649") 0)))
  /\ wrap_int (- digits_number (wstr "2147483649") 0) = 2147483647.
Proof.
  split; [ | split; [reflexivity | split; [ | reflexivity]]].
  - apply (long_numerals_wrap_around c_locale (fun x _ => x) false);
      [reflexivity | reflexivity | ].
    vm_compute. repeat split; discriminate.
  - apply (long_numerals_wrap_around c_locale (fun x _ => x) true);
      [reflexivity | reflexivity | ].
    vm_compute. repeat split; discriminate.
Defined.

Lemma char_at_hd (l : wstring) : char_at l 0 = hd 0 l.
Proof. now destruct l. Qed.

(** A decimal point with no digit behind it. *)
Lemma number_fraction_without_digit (pre rest : wstring) :
  iswdigit (hd 0 rest) = false ->
  number_fraction (pre ++ Ch.dot :: rest) (List.length pre)
  = Raise (InvalidCharacter "Invalid digit" (List.length pre + 1)).
Proof.
  intros Hd. unfold number_fraction.
  rewrite char_at_app_cons, Z.eqb_refl. cbv zeta.
  replace (S (List.length pre)) with (List.length (pre ++ [Ch.dot]))
    by (rewrite length_app; cbn; lia).
  replace (pre ++ Ch.dot :: rest) with ((pre ++ [Ch.dot]) ++ rest)
    by (rewrite <- app_assoc; reflexivity).
  rewrite char_at_app_hd, Hd. cbn [negb]. do 2 f_equal.
  rewrite length_app. reflexivity.
Qed.

(** An exponent marker, with a sign or without, and no digit behind it. *)
Lemma number_exponent_without_digit (pre stub rest : wstring) :
  In stub exponent_openings ->
  iswdigit (hd 0 rest) = false ->
  (List.length stub = 1%nat -> hd 0 rest <> Ch.plus /\ hd 0 rest <> Ch.minus) ->
  number_exponent (pre ++ stub ++ rest) (List.length pre)
  = Raise (InvalidCharacter "Invalid digit" (List.length pre + List.length stub)).
Proof.
  intros Hstub Hd Hsign. unfold number_exponent.
  assert (Hat : forall k, char_at (pre ++ stub ++ rest) (List.length pre + k)
                          = char_at (stub ++ rest) k)
    by (intros k; apply char_at_app_plus).
  pose proof (Hat 0%nat) as H0. pose proof (Hat 1%nat) as H1.
  pose proof (Hat 2%nat) as H2.
  rewrite Nat.add_0_r in H0. rewrite Nat.add_1_r in H1.
  replace (List.length pre + 2)%nat with (S (S (List.length pre))) in H2 by lia.
  unfold exponent_openings in Hstub. cbn [In] in Hstub.
  destruct Hstub as [<- | [<- | [<- | [<- | [<- | [<- | []]]]]]];
    cbn [app] in *; rewrite H0; cbn [char_at nth Z.eqb Pos.eqb orb]; cbv zeta;
    rewrite H1; cbn [char_at nth].
  1,2: destruct (Hsign eq_refl) as [Hp Hm]; apply Z.eqb_neq in Hp, Hm;
       fold (char_at rest 0); rewrite char_at_hd, Hp, Hm; cbv beta iota;
       rewrite H1; cbn [char_at nth]; fold (char_at rest 0);
       rewrite char_at_hd, Hd; cbn [negb];
       do 2 f_equal; cbn [List.length]; lia.
  all: cbn [Z.eqb Pos.eqb Ch.plus Ch.minus]; cbv beta iota;
       rewrite H2; cbn [char_at nth]; fold (char_at rest 0);
       rewrite char_at_hd, Hd; cbn [negb]; do 2 f_equal; cbn [List.length]; lia.
Qed.

Lemma exponent_opening_head (stub rest : wstring) :
  In stub exponent_openings ->
  iswdigit (hd 0 (stub ++ rest)) = false /\ hd 0 (stub ++ rest) <> Ch.dot.
Proof.
  unfold exponent_openings. cbn [In].
  intros [<- | [<- | [<- | [<- | [<- | [<- | []]]]]]]; split;
    (reflexivity || discriminate).
Qed.

(** The digits of a number with a decimal point or an exponent marker
    behind them that no digit follows: the unsigned part of
    [decode_number]. *)
Lemma number_unsigned_without_digit (pow : float -> float -> float)
    (pre rest : wstring) (neg : bool) (ds : wstring) (f : option wstring)
    (stub : wstring) :
  let data := pre ++ ds ++ fraction_text f ++ stub ++ rest in
  digits_ok ds = true ->
  negb (hd 0 ds =? Ch.zero) || Nat.eqb (List.length ds) 1 = true ->
  match f with Some fd => digits_ok fd | None => true end = true ->
  In stub (match f with
           | None => [Ch.dot] :: exponent_openings
           | Some _ => exponent_openings
           end) ->
  iswdigit (hd 0 rest) = false ->
  (In stub [[101]; [69]] -> hd 0 rest <> Ch.plus /\ hd 0 rest <> Ch.minus) ->
  (if negb (iswdigit (char_at data (List.length pre)))
   then Raise (InvalidCharacter "Invalid digit" (List.length pre))
   else
     let '(integer, pos) :=
       if negb (char_at data (List.length pre) =? Ch.zero)
       then decode_integer data (List.length pre)
       else (0, S (List.length pre)) in
     let* (remainder, remainder_count, pos) := number_fraction data pos in
     let* (exponent, neg_exponent, pos) := number_exponent data pos in
     if (remainder_count =? 0) && (exponent =? 0) then
       let integer := if neg then wrap_int (- integer) else integer in
       Ok (Integer integer, pos)
     else
       let res :=
         (int_to_double integer
          + int_to_double remainder / pow 10 (int_to_double remainder_count))%float in
       let res := if neg then (- res)%float else res in
       let exponent := if neg_exponent then wrap_int (- exponent) else exponent in
       let res := (res * pow 10 (int_to_double exponent))%float in
       Ok (Float res, pos))
  = Raise (InvalidCharacter "Invalid digit"
             (List.length pre
              + List.length (ds ++ fraction_text f ++ stub))%nat).
Proof.
  intros data Hds Hzero Hf Hstub Hd Hsign.
  assert (Htail1 : iswdigit (hd 0 (fraction_text f ++ stub ++ rest)) = false).
  { destruct f as [fd | ]; [reflexivity | ]. cbn [fraction_text app].
    destruct Hstub as [<- | Hstub]; [reflexivity | ].
    now apply exponent_opening_head. }
  destruct (number_integer_part pre ds _ Hds Hzero Htail1) as [Hdig Hint].
  fold data in Hdig, Hint. rewrite Hdig. cbn [negb]. rewrite Hint. cbv beta iota.
  replace data with ((pre ++ ds) ++ fraction_text f ++ stub ++ rest)
    by (subst data; now rewrite <- app_assoc).
  replace (List.length pre + List.length ds)%nat with (List.length (pre ++ ds))
    by (now rewrite length_app).
  assert (Hdot : f = None /\ stub = [Ch.dot] \/ In stub exponent_openings).
  { destruct f; [now right | ]. destruct Hstub as [<- | Hstub]; auto. }
  destruct Hdot as [[-> ->] | Hopen].
  - cbn [fraction_text app].
    rewrite (number_fraction_without_digit (pre ++ ds) rest Hd). cbn [bind].
    do 2 f_equal. rewrite !length_app. cbn [List.length]. lia.
  - destruct (exponent_opening_head stub rest Hopen) as [Hnd Hnodot].
    rewrite (number_fraction_part (pre ++ ds) f (stub ++ rest) Hf Hnd
               (fun _ => Hnodot)).
    cbn [bind].
    replace ((pre ++ ds) ++ fraction_text f ++ stub ++ rest)
      with (((pre ++ ds) ++ fraction_text f) ++ stub ++ rest)
      by (now rewrite <- (app_assoc (pre ++ ds))).
    replace (List.length (pre ++ ds) + List.length (fraction_text f))%nat
      with (List.length ((pre ++ ds) ++ fraction_text f))
      by (now rewrite (length_app (pre ++ ds))).
    rewrite (number_exponent_without_digit _ stub rest Hopen Hd).
    + cbn [bind]. do 2 f_equal. rewrite !length_app. lia.
    + intros Hlen. apply Hsign. unfold exponent_openings in Hopen.
      cbn [In] in Hopen |- *.
      destruct Hopen as [<- | [<- | [<- | [<- | [<- | [<- | []]]]]]];
        try discriminate; tauto.
Qed.

(** X10: In a number, a minus sign, a decimal point or an exponent marker (with
    its sign, when it has one) that no digit follows raises
    [InvalidCharacter] with the message [Invalid digit], at the position
    where the digit is missing. *)
Theorem number_part_without_digit_is_rejected (pow : float -> float -> float)
    (pre rest : wstring) (t : number_token) (stub : wstring) :
  token_ok t = true -> tok_exponent t = None ->
  In stub (match tok_fraction t with
           | None => [Ch.dot] :: exponent_openings
           | Some _ => exponent_openings
           end) ->
  iswdigit (hd 0 rest) = false ->
  (In stub [[101]; [69]] -> hd 0 rest <> Ch.plus /\ hd 0 rest <> Ch.minus) ->
  decode_number pow (pre ++ token_text t ++ stub ++ rest) (List.length pre)
  = Raise (InvalidCharacter "Invalid digit"
             (List.length pre + List.length (token_text t) + List.length stub))
  /\ decode_number pow (pre ++ Ch.minus :: rest) (List.length pre)
     = Raise (InvalidCharacter "Invalid digit" (S (List.length pre))).
Proof.
  intros Hok He Hstub Hd Hsign. split.
  - destruct t as [neg ds f e]. cbn [tok_exponent tok_fraction] in He, Hstub.
    subst e. unfold token_ok in Hok.
    cbn [tok_integer tok_fraction tok_exponent] in Hok.
    rewrite andb_true_r in Hok. apply andb_prop in Hok as [Hok Hf].
    apply andb_prop in Hok as [Hds Hzero].
    rewrite decode_number_parts, token_text_parts.
    cbn [tok_negative tok_integer tok_fraction tok_exponent exponent_text].
    rewrite app_nil_r.
    destruct neg.
    + cbn [app].
      rewrite (char_at_split _ pre Ch.minus
                 ((ds ++ fraction_text f) ++ stub ++ rest) _ eq_refl eq_refl).
      rewrite Z.eqb_refl. cbv beta iota.
      replace (pre ++ Ch.minus :: (ds ++ fraction_text f) ++ stub ++ rest)
        with ((pre ++ [Ch.minus]) ++ ds ++ fraction_text f ++ stub ++ rest)
        by (rewrite <- !app_assoc; reflexivity).
      replace (S (List.length pre)) with (List.length (pre ++ [Ch.minus]))
        by (rewrite length_app; cbn; lia).
      refine (eq_trans
                (number_unsigned_without_digit pow (pre ++ [Ch.minus]) rest true
                   ds f stub Hds Hzero Hf Hstub Hd Hsign) _).
      do 2 f_equal. rewrite !length_app. cbn [List.length]. rewrite !length_app. lia.
    + cbn [app].
      replace (pre ++ (ds ++ fraction_text f) ++ stub ++ rest)
        with (pre ++ ds ++ fraction_text f ++ stub ++ rest)
        by (rewrite <- !app_assoc; reflexivity).
      assert (Hfirst : (char_at (pre ++ ds ++ fraction_text f ++ stub ++ rest)
                          (List.length pre) =? Ch.minus) = false).
      { destruct (digits_ok_inv ds Hds) as (d & ds' & -> & Hdig & _).
        cbn [app]. rewrite char_at_app_cons. apply iswdigit_range in Hdig.
        apply Z.eqb_neq. unfold Ch.minus. lia. }
      rewrite Hfirst. cbv beta iota.
      refine (eq_trans
                (number_unsigned_without_digit pow pre rest false
                   ds f stub Hds Hzero Hf Hstub Hd Hsign) _).
      do 2 f_equal. rewrite !length_app. lia.
  - rewrite decode_number_parts.
    rewrite char_at_app_cons, Z.eqb_refl. cbv beta iota.
    replace (S (List.length pre)) with (List.length (pre ++ [Ch.minus]))
      by (rewrite length_app; cbn; lia).
    replace (pre ++ Ch.minus :: rest) with ((pre ++ [Ch.minus]) ++ rest)
      by (rewrite <- app_assoc; reflexivity).
    now rewrite char_at_app_hd, Hd.
Qed.

Lemma number_part_without_digit_is_rejected_witness :
  (decode_number (fun x _ => x) (wstr "[" ++ wstr "-12" ++ [Ch.dot] ++ wstr "]") 1
   = Raise (InvalidCharacter "Invalid digit" 5)
   /\ decode_number (fun x _ => x) (wstr "[" ++ Ch.minus :: wstr "]") 1
      = Raise (InvalidCharacter "Invalid digit" 2))
  /\ decode_number (fun x _ => x) ([] ++ wstr "0.5" ++ [69; Ch.minus] ++ wstr "x") 0
     = Raise (InvalidCharacter "Invalid digit" 5).
Proof.
  split.
  - apply (number_part_without_digit_is_rejected (fun x _ => x) (wstr "[") (wstr "]")
             {| tok_negative := true; tok_integer := wstr "12";
                tok_fraction := None; tok_exponent := None |} [Ch.dot]);
      try reflexivity.
    + left. reflexivity.
    + cbn [In]. intros [H | [H | []]]; discriminate.
  - apply (number_part_without_digit_is_rejected (fun x _ => x) [] (wstr "x")
             {| tok_negative := false; tok_integer := wstr "0";
                tok_fraction := Some (wstr "5"); tok_exponent := None |}
             [69; Ch.minus]);
      try reflexivity.
    + vm_compute. tauto.
    + cbn [In]. intros [H | [H | []]]; discriminate.
Defined.

(** *** Entries of an object *)

(** X16: In an object, anything but a double quote where a key is expected
    raises [InvalidCharacter] with the message [Expected string for key],
    at the position of that code unit: keys without quotes, numbers as
    keys and a comma in front of the first entry are all refused. *)
Theorem object_key_must_be_a_string (sp : wchar_t -> bool)
    (pow : float -> float -> float) (ws rest : wstring) :
  Forall (fun c => iswspace sp c = true) ws ->
  hd 0 rest <> 0 -> iswspace sp (hd 0 rest) = false ->
  hd 0 rest <> Ch.quote -> hd 0 rest <> Ch.rbrace ->
  decode sp pow (Ch.lbrace :: ws ++ rest)
  = Raise (InvalidCharacter "Expected string for key" (S (List.length ws))).
Proof.
  intros Hws Hnz Hsp Hq Hb. rewrite decode_unfold.
  set (data := Ch.lbrace :: ws ++ rest).
  assert (Hskip : skip_spaces sp data 0 = 0%nat)
    by (apply skip_spaces_fixed; reflexivity).
  rewrite decode_value_object by (rewrite Hskip; reflexivity).
  rewrite Hskip.
  replace (3 * List.length data + 3)%nat with (S (S (3 * List.length data + 1))) by lia.
  rewrite decode_object_S. cbv zeta.
  pose proof (skip_spaces_over_to sp [Ch.lbrace] ws rest Hws (or_intror Hsp)) as Hws'.
  cbn [app List.length Nat.add] in Hws'. fold data in Hws'. rewrite Hws'.
  assert (Hc : char_at data (S (List.length ws)) = hd 0 rest)
    by (apply (char_at_app_hd (Ch.lbrace :: ws) rest)).
  rewrite Hc. apply Z.eqb_neq in Hnz, Hq, Hb. rewrite Hb. cbn [negb].
  rewrite decode_object_loop_S. cbv zeta. rewrite Hc, Hnz, Hb. cbn [negb andb].
  rewrite (skip_spaces_fixed sp data (S (List.length ws)))
    by (rewrite Hc, Hsp; apply andb_false_r).
  rewrite Hc, Hq. reflexivity.
Qed.

Lemma object_key_must_be_a_string_witness :
  decode c_locale (fun x _ => x) (Ch.lbrace :: [32] ++ wstr "a:1}")
  = Raise (InvalidCharacter "Expected string for key" 2)
  /\ decode c_locale (fun x _ => x) (Ch.lbrace :: [] ++ wstr ",}")
     = Raise (InvalidCharacter "Expected string for key" 1).
Proof.
  split.
  - apply (object_key_must_be_a_string c_locale (fun x _ => x) [32] (wstr "a:1}"));
      try discriminate; try reflexivity.
    repeat constructor.
  - apply (object_key_must_be_a_string c_locale (fun x _ => x) [] (wstr ",}"));
      try discriminate; try reflexivity.
    constructor.
Defined.



(** *** What follows a value *)

Section Trailing.

Variable sp pr : wchar_t -> bool.
Variable pow : float -> float -> float.
Variable show_double : float -> wstring.

(** A scalar is read back from its text whatever code unit follows, as
    long as that code unit does not continue a number. *)
Lemma decode_value_scalar_before (fuel : nat) (pre rest : wstring) (x : Value) :
  scalar pr x -> ends_value x (hd 0 rest) ->
  decode_value sp pow (S fuel) (pre ++ encode pr show_double x ++ rest)
    (List.length pre)
  = Ok (x, (List.length pre + List.length (encode pr show_double x))%nat).
Proof.
  intros Hx Hrest.
  destruct (encode_scalar_opens pr show_double x Hx) as (c & text & Ec & Hc).
  assert (Hchar : char_at (pre ++ encode pr show_double x ++ rest) (List.length pre) = c)
    by (rewrite Ec; apply char_at_app_cons).
  assert (Hskip : skip_spaces sp (pre ++ encode pr show_double x ++ rest)
                    (List.length pre) = List.length pre)
    by (apply skip_spaces_on_value; now rewrite Hchar).
  destruct Hx as [| b | i Hi | s Hs].
  - rewrite decode_value_S. cbv zeta. rewrite Hskip, Hchar.
    injection Ec as <- _. cbn [Z.eqb Pos.eqb]. cbn [encode].
    rewrite (compare_forward_spec _ _ _ wstr_nonzero_null), literal_at_app.
    reflexivity.
  - rewrite decode_value_S. cbv zeta. rewrite Hskip, Hchar.
    destruct b; injection Ec as <- _; cbn [Z.eqb Pos.eqb]; cbn [encode].
    + rewrite (compare_forward_spec _ _ _ wstr_nonzero_true), literal_at_app.
      reflexivity.
    + rewrite (compare_forward_spec _ _ _ wstr_nonzero_false), literal_at_app.
      reflexivity.
  - destruct (show_int_token i Hi) as (t & Et & Hok & Hf & He & Hv).
    cbn [encode] in *. rewrite Et in *.
    assert (Hc' : iswdigit c = true \/ c = Ch.minus).
    { destruct t as [neg ds f e]. cbn [tok_fraction tok_exponent] in Hf, He.
      subst f e. unfold token_ok in Hok.
      cbn [tok_integer tok_fraction tok_exponent] in Hok.
      rewrite !andb_true_r in Hok. apply andb_prop in Hok as [Hds _].
      destruct (digits_ok_inv ds Hds) as (d & ds' & -> & Hd & _).
      unfold token_text in Ec.
      cbn [tok_negative tok_integer tok_fraction tok_exponent] in Ec.
      destruct neg; cbn [app] in Ec; injection Ec as <- _; [now right | now left]. }
    assert (Hends : token_ends_before t (hd 0 rest) = true).
    { unfold token_ends_before. rewrite Hf, He.
      destruct Hrest as (Hd & Hdot & He1 & He2).
      apply Z.eqb_neq in Hdot, He1, He2. now rewrite Hd, Hdot, He1, He2. }
    rewrite decode_value_number by (now rewrite Hskip, Hchar).
    rewrite Hskip, (decode_number_token pow pre rest t Hok Hends), Hv. reflexivity.
  - rewrite decode_value_string by (rewrite Hskip, Hchar; now injection Ec as <- _).
    rewrite Hskip. cbn [encode]. now apply decode_string_escaped.
Qed.

(** X5: [decode] reads one value and stops: what follows the value in the
    input is not looked at and raises no error.  After a string, a literal,
    a list or an object any text may follow; after an integer, any text
    that does not continue the number. *)
Theorem input_behind_the_value_is_ignored (v : Value) (rest : wstring) :
  flat pr v -> ends_value v (hd 0 rest) ->
  decode sp pow (encode pr show_double v ++ rest) = Ok v.
Proof.
  intros Hv Hrest. rewrite decode_unfold.
  set (text := encode pr show_double v).
  set (fuel := (3 * List.length (text ++ rest) + 3)%nat).
  assert (Hfuel : (3 * List.length text + 3 <= fuel)%nat)
    by (subst fuel; rewrite length_app; lia).
  destruct Hv as [v Hx | l Hl | o Ho Hnd].
  - pose proof (decode_value_scalar_before fuel [] rest v Hx Hrest) as H.
    cbn [app List.length] in H. fold text in H. now rewrite H.
  - assert (Hopen : char_at (text ++ rest) 0 = Ch.lbracket) by reflexivity.
    assert (Hskip : skip_spaces sp (text ++ rest) 0 = 0%nat)
      by (apply skip_spaces_fixed; now rewrite Hopen).
    rewrite decode_value_array by (now rewrite Hskip).
    rewrite Hskip.
    pose proof (decode_array_scalars sp pr pow show_double l [] rest fuel Hl) as H.
    cbn [app List.length] in H. fold text in H.
    rewrite H; [reflexivity | ].
    pose proof (encode_elements_length pr show_double l true Hl).
    subst text. rewrite encode_List, !length_app in Hfuel. lia.
  - assert (Hopen : char_at (text ++ rest) 0 = Ch.lbrace) by reflexivity.
    assert (Hskip : skip_spaces sp (text ++ rest) 0 = 0%nat)
      by (apply skip_spaces_fixed; now rewrite Hopen).
    rewrite decode_value_object by (now rewrite Hskip).
    rewrite Hskip.
    pose proof (decode_object_scalars sp pr pow show_double o [] rest fuel Ho Hnd) as H.
    cbn [app List.length] in H. fold text in H.
    rewrite H; [reflexivity | ].
    pose proof (encode_pairs_length pr show_double o true).
    subst text. rewrite encode_Object, !length_app in Hfuel. lia.
Qed.

End Trailing.

Lemma input_behind_the_value_is_ignored_witness :
  decode c_locale (fun x _ => x)
    (encode c_locale (fun _ => []) (List [Integer 1; String (wstr "a")])
     ++ wstr "] junk")
  = Ok (List [Integer 1; String (wstr "a")])
  /\ decode c_locale (fun x _ => x)
       (encode c_locale (fun _ => []) (Boolean true) ++ wstr "ly")
     = Ok (Boolean true)
  /\ decode c_locale (fun x _ => x)
       (encode c_locale (fun _ => []) (Integer 12) ++ wstr " 34")
     = Ok (Integer 12).
Proof.
  split; [ | split].
  - apply input_behind_the_value_is_ignored; [ | exact I].
    apply flat_List. repeat constructor; vm_compute; intuition discriminate.
  - apply input_behind_the_value_is_ignored; [ | exact I].
    apply flat_scalar. constructor.
  - apply input_behind_the_value_is_ignored.
    + apply flat_scalar. constructor. vm_compute. intuition discriminate.
    + vm_compute. repeat split; discriminate.
Defined.

(** *** The loop of [decode_array], one element at a time *)

Section Lists.

Variable sp pr : wchar_t -> bool.
Variable pow : float -> float -> float.
Variable show_double : float -> wstring.

(** An element with the separator [, ] and a further value behind it: the
    loop goes on with the next element. *)
Lemma array_loop_step (fuel : nat) (data : wstring) (pos : nat)
    (acc : list Value) (v : Value) (q : nat) :
  opens_value (char_at data pos) ->
  decode_value sp pow fuel data pos = Ok (v, q) ->
  char_at data q = Ch.comma -> char_at data (S q) = 32 ->
  opens_value (char_at data (S (S q))) ->
  decode_array_loop sp pow (S fuel) data pos acc false
  = decode_array_loop sp pow fuel data (S (S q)) (acc ++ [v]) false.
Proof.
  intros Hopen Hv Hcomma Hspace Hnext.
  rewrite decode_array_loop_S.
  rewrite (opens_value_cond _ Ch.rbracket Hopen (or_introl eq_refl)). cbv zeta.
  rewrite (skip_spaces_on_value sp data pos Hopen), Hv. cbn [bind].
  rewrite (skip_spaces_after_value sp data q) by (rewrite Hcomma; cbn; tauto).
  rewrite Hcomma, Z.eqb_refl. cbv beta iota.
  now rewrite (skip_spaces_one_space sp data (S q) Hspace Hnext).
Qed.

(** An element with no comma behind it is the last one read: the loop
    ends with the cursor where the element left it. *)
Lemma array_loop_stop (fuel : nat) (data : wstring) (pos : nat)
    (acc : list Value) (v : Value) (q : nat) :
  opens_value (char_at data pos) ->
  decode_value sp pow fuel data pos = Ok (v, q) ->
  char_at data q <> Ch.comma ->
  char_at data q = 0 \/ iswspace sp (char_at data q) = false ->
  decode_array_loop sp pow (S fuel) data pos acc false = Ok (acc ++ [v], true, q).
Proof.
  intros Hopen Hv Hcomma Hsp.
  assert (Hfix : skip_spaces sp data q = q).
  { apply skip_spaces_fixed. destruct Hsp as [-> | ->];
      [reflexivity | apply andb_false_r]. }
  rewrite decode_array_loop_S.
  rewrite (opens_value_cond _ Ch.rbracket Hopen (or_introl eq_refl)). cbv zeta.
  rewrite (skip_spaces_on_value sp data pos Hopen), Hv. cbn [bind].
  rewrite Hfix. apply Z.eqb_neq in Hcomma. rewrite Hcomma. cbv beta iota.
  rewrite Hfix. apply decode_array_loop_last.
Qed.

Lemma encode_elements_app (l : list Value) :
  forall (first : bool) (v : Value) (l' : list Value),
    encode_elements pr show_double first (l ++ v :: l')
    = (if first then [] else wstr ", ")
      ++ elements_then pr show_double l
      ++ encode pr show_double v ++ encode_elements pr show_double false l'.
Proof.
  induction l as [| x l IH]; intros first v l'; [reflexivity | ].
  cbn [app]. change (encode_elements pr show_double first (x :: l ++ v :: l'))
    with ((if first then [] else wstr ", ") ++ encode pr show_double x
          ++ encode_elements pr show_double false (l ++ v :: l')).
  rewrite (IH false v l'). unfold elements_then. cbn [flat_map].
  now rewrite <- !app_assoc.
Qed.

Lemma elements_then_length (l : list Value) :
  (2 * List.length l <= List.length (elements_then pr show_double l))%nat.
Proof.
  induction l as [| x l IH]; [cbn; lia | ].
  unfold elements_then in *. cbn [flat_map List.length].
  rewrite !length_app. change (List.length (wstr ", ")) with 2%nat. lia.
Qed.

(** The loop over scalars that each have the separator behind them. *)
Lemma array_loop_scalars_then (l : list Value) :
  forall (pre tail : wstring) (acc : list Value) (fuel : nat),
    Forall (scalar pr) l -> opens_value (hd 0 tail) ->
    decode_array_loop sp pow (List.length l + S fuel)
      (pre ++ elements_then pr show_double l ++ tail) (List.length pre) acc false
    = decode_array_loop sp pow (S fuel)
        (pre ++ elements_then pr show_double l ++ tail)
        (List.length pre + List.length (elements_then pr show_double l))
        (acc ++ l) false.
Proof.
  induction l as [| x l IH]; intros pre tail acc fuel Hl Htail.
  - cbn [elements_then flat_map List.length Nat.add app].
    now rewrite Nat.add_0_r, app_nil_r.
  - inversion Hl as [| ? ? Hx Hl']; subst.
    unfold elements_then. cbn [flat_map]. fold (elements_then pr show_double l).
    change (wstr ", ") with [Ch.comma; 32].
    set (ex := encode pr show_double x).
    set (el := elements_then pr show_double l).
    match goal with
    | |- decode_array_loop _ _ _ ?d _ _ _ = _ => set (data := d)
    end.
    assert (Edata : data = pre ++ ex ++ Ch.comma :: 32 :: el ++ tail)
      by (subst data; text_assoc).
    assert (Hnext : opens_value (hd 0 (el ++ tail))).
    { destruct l as [| y l]; [exact Htail | ].
      inversion Hl' as [| ? ? Hy _]; subst.
      destruct (encode_scalar_opens pr show_double y Hy) as (c & text & Ec & Hc).
      subst el. unfold elements_then. cbn [flat_map]. rewrite Ec. exact Hc. }
    destruct (encode_scalar_opens pr show_double x Hx) as (c & text & Ec & Hc).
    fold ex in Ec.
    assert (Hq : forall k,
               char_at data (List.length pre + List.length ex + k)
               = char_at (Ch.comma :: 32 :: el ++ tail) k).
    { intros k. rewrite Edata, app_assoc, <- length_app. apply char_at_app_plus. }
    pose proof (Hq 0%nat) as H0. pose proof (Hq 1%nat) as H1.
    pose proof (Hq 2%nat) as H2.
    rewrite Nat.add_0_r in H0. rewrite Nat.add_1_r in H1.
    replace (List.length pre + List.length ex + 2)%nat
      with (S (S (List.length pre + List.length ex))) in H2 by lia.
    cbn [char_at nth] in H0, H1, H2. fold (char_at (el ++ tail) 0) in H2.
    rewrite char_at_hd in H2.
    cbn [List.length Nat.add].
    rewrite (array_loop_step (List.length l + S fuel) data (List.length pre) acc x
               (List.length pre + List.length ex)).
    + replace data with ((pre ++ ex ++ [Ch.comma; 32]) ++ el ++ tail)
        by (subst data; text_assoc).
      replace (S (S (List.length pre + List.length ex)))
        with (List.length (pre ++ ex ++ [Ch.comma; 32])) by text_length.
      subst el. rewrite (IH _ tail (acc ++ [x]) fuel Hl' Htail).
      f_equal; solve [text_length | rewrite <- app_assoc; reflexivity].
    + rewrite Edata, Ec. cbn [app]. now rewrite char_at_app_cons.
    + rewrite Edata. replace (List.length l + S fuel)%nat
        with (S (List.length l + fuel)) by lia.
      apply decode_value_scalar_before; [exact Hx | ].
      cbn [hd ends_value]. destruct x; try exact I.
      repeat split; discriminate.
    + exact H0.
    + exact H1.
    + now rewrite H2.
Qed.

Lemma bracket_opens_value : opens_value Ch.lbracket /\ opens_value Ch.lbrace.
Proof. split; repeat split; discriminate. Qed.

(** [decode] on a text that starts with an opening bracket and a value. *)
Lemma decode_open_list (data : wstring) :
  char_at data 0 = Ch.lbracket -> opens_value (char_at data 1) ->
  decode sp pow data
  = let* (value, _) :=
      (let* (list, last, pos) :=
         decode_array_loop sp pow (3 * List.length data + 2) data 1 [] false in
       if negb last || negb (char_at data pos =? Ch.rbracket)
       then Raise (InvalidCharacter "List ended with an invalid character" pos)
       else Ok (List list, pos)) in
    Ok value.
Proof.
  intros Hopen Hnext. rewrite decode_unfold.
  assert (Hskip : skip_spaces sp data 0 = 0%nat)
    by (apply skip_spaces_fixed; now rewrite Hopen).
  rewrite decode_value_array by (now rewrite Hskip).
  rewrite Hskip.
  replace (3 * List.length data + 3)%nat with (S (3 * List.length data + 2)) by lia.
  rewrite decode_array_S. cbv zeta.
  rewrite (skip_spaces_on_value sp data 1 Hnext).
  destruct Hnext as (_ & Hb & _). apply Z.eqb_neq in Hb. rewrite Hb. reflexivity.
Qed.

End Lists.


(** *** Containers in containers *)

Section Nesting.

Variable sp pr : wchar_t -> bool.
Variable pow : float -> float -> float.
Variable show_double : float -> wstring.

Lemma encode_right_nested_opens (v : Value) :
  right_nested pr v ->
  exists text, encode pr show_double v = Ch.lbracket :: text.
Proof. intros [l _ | l v' _ _]; rewrite encode_List; eexists; reflexivity. Qed.

Lemma elements_then_opens (l : list Value) (tail : wstring) :
  Forall (scalar pr) l -> opens_value (hd 0 tail) ->
  opens_value (hd 0 (elements_then pr show_double l ++ tail)).
Proof.
  intros Hl Htail. destruct l as [| y l]; [exact Htail | ].
  inversion Hl as [| ? ? Hy _]; subst.
  destruct (encode_scalar_opens pr show_double y Hy) as (c & text & Ec & Hc).
  unfold elements_then. cbn [flat_map]. now rewrite Ec.
Qed.

(** [decode_array] on the text of a list that nests in its last element
    only: it returns the list, with the cursor on the closing bracket of
    the innermost list. *)
Lemma decode_array_right_nested (v : Value) :
  right_nested pr v ->
  forall (pre rest : wstring) (fuel : nat),
    (3 * List.length (encode pr show_double v) <= fuel)%nat ->
    exists q,
      decode_array sp pow fuel (pre ++ encode pr show_double v ++ rest)
        (List.length pre)
      = Ok (v, q).
Proof.
  induction 1 as [l Hl | l v Hl Hv IH]; intros pre rest fuel Hfuel.
  - eexists. apply decode_array_scalars; [exact Hl | ].
    pose proof (encode_elements_length pr show_double l true Hl).
    rewrite encode_List, !length_app in Hfuel.
    change (List.length (wstr "[")) with 1%nat in Hfuel.
    change (List.length (wstr "]")) with 1%nat in Hfuel. lia.
  - rewrite encode_List in *. rewrite (encode_elements_app pr show_double l true v []) in *.
    cbn [encode_elements app] in *. rewrite app_nil_r in *.
    change (wstr "[") with [Ch.lbracket] in *.
    change (wstr "]") with [Ch.rbracket] in *.
    set (el := elements_then pr show_double l) in *.
    set (ev := encode pr show_double v) in *.
    pose proof (elements_then_length pr show_double l) as Hlen. fold el in Hlen.
    assert (Hev : opens_value (hd 0 (ev ++ Ch.rbracket :: rest))).
    { destruct (encode_right_nested_opens v Hv) as (text & Ev). fold ev in Ev.
      rewrite Ev. apply bracket_opens_value. }
    set (data := pre ++ ([Ch.lbracket] ++ (el ++ ev) ++ [Ch.rbracket]) ++ rest).
    assert (Edata : data = (pre ++ [Ch.lbracket]) ++ el ++ ev ++ Ch.rbracket :: rest)
      by (subst data; text_assoc).
    assert (Hlength : (List.length (Ch.lbracket :: (el ++ ev) ++ [Ch.rbracket])
                       = 2 + List.length el + List.length ev)%nat)
      by text_length.
    cbn [app] in Hfuel. rewrite Hlength in Hfuel.
    destruct fuel as [| fuel]; [lia | ].
    rewrite decode_array_S. cbv zeta.
    replace (S (List.length pre)) with (List.length (pre ++ [Ch.lbracket]))
      by text_length.
    assert (Hfirst : opens_value (char_at data (List.length (pre ++ [Ch.lbracket])))).
    { rewrite Edata, char_at_app_hd. now apply elements_then_opens. }
    rewrite (skip_spaces_on_value sp data _ Hfirst).
    destruct Hfirst as (_ & Hb & _). apply Z.eqb_neq in Hb. rewrite Hb. cbn [negb].
    replace fuel with (List.length l + S (S (fuel - List.length l - 2)))%nat by lia.
    set (k := (fuel - List.length l - 2)%nat).
    rewrite Edata.
    rewrite (array_loop_scalars_then sp pr pow show_double l (pre ++ [Ch.lbracket])
               (ev ++ Ch.rbracket :: rest) [] _ Hl Hev).
    fold el. cbn [app].
    set (pre' := (pre ++ [Ch.lbracket]) ++ el).
    replace ((pre ++ [Ch.lbracket]) ++ el ++ ev ++ Ch.rbracket :: rest)
      with (pre' ++ ev ++ Ch.rbracket :: rest) by (subst pre'; text_assoc).
    replace (List.length (pre ++ [Ch.lbracket]) + List.length el)%nat
      with (List.length pre') by (subst pre'; text_length).
    destruct (IH pre' (Ch.rbracket :: rest) k) as (q & Hq); [subst k; lia | ].
    pose proof (decode_array_leaves_cursor_on_bracket _ _ _ _ _ _ _ Hq) as Hclose.
    assert (Hopen : char_at (pre' ++ ev ++ Ch.rbracket :: rest) (List.length pre')
                    = Ch.lbracket).
    { destruct (encode_right_nested_opens v Hv) as (text & Ev). fold ev in Ev.
      rewrite Ev. apply char_at_app_cons. }
    exists q.
    rewrite (array_loop_stop sp pow (S k) _ _ l v q).
    + cbn [bind negb orb]. rewrite Hclose. reflexivity.
    + rewrite Hopen. apply bracket_opens_value.
    + rewrite decode_value_array;
        rewrite (skip_spaces_fixed sp _ (List.length pre')); try exact Hq;
        try (now rewrite Hopen).
    + rewrite Hclose. discriminate.
    + rewrite Hclose. now right.
Qed.

(** X14: A list that nests only in its last element - a list of scalars, or
    scalars and then such a list, to any depth - comes back from [decode]
    after [encode] as it was: the cursor that the inner list leaves on its
    closing bracket is where the enclosing list looks for its own. *)
Theorem right_nested_lists_round_trip (v : Value) :
  right_nested pr v ->
  decode sp pow (encode pr show_double v) = Ok v.
Proof.
  intros Hv. rewrite decode_unfold.
  set (text := encode pr show_double v).
  destruct (encode_right_nested_opens v Hv) as (body & Etext). fold text in Etext.
  assert (Hopen : char_at text 0 = Ch.lbracket) by now rewrite Etext.
  assert (Hskip : skip_spaces sp text 0 = 0%nat)
    by (apply skip_spaces_fixed; now rewrite Hopen).
  rewrite decode_value_array by (now rewrite Hskip).
  rewrite Hskip.
  destruct (decode_array_right_nested v Hv [] [] (3 * List.length text + 3))
    as (q & Hq); [fold text; lia | ].
  cbn [app List.length] in Hq. rewrite app_nil_r in Hq. fold text in Hq.
  now rewrite Hq.
Qed.

(** X15: A list that holds an object is not read back from its own text: after
    scalars, the object leaves the cursor on its closing brace, where the
    list finds neither a comma nor its bracket, and [decode] raises
    [InvalidCharacter] at that brace, whatever elements follow. *)
Theorem list_holding_an_object_is_rejected (l : list Value)
    (o : list (wstring * Value)) (l' : list Value) :
  Forall (scalar pr) l -> Forall (pair_round_trips pr) o -> NoDup (map fst o) ->
  decode sp pow (encode pr show_double (List (l ++ Object o :: l')))
  = Raise (InvalidCharacter "List ended with an invalid character"
             (S (List.length (elements_then pr show_double l)
                 + S (List.length (encode_pairs pr show_double true o))))).
Proof.
  intros Hl Ho Hnd.
  rewrite encode_List, (encode_elements_app pr show_double l true (Object o) l').
  cbn [app]. change (wstr "[") with [Ch.lbracket]. change (wstr "]") with [Ch.rbracket].
  set (el := elements_then pr show_double l).
  set (eo := encode pr show_double (Object o)).
  set (rest := encode_elements pr show_double false l' ++ [Ch.rbracket]).
  pose proof (elements_then_length pr show_double l) as Hlen. fold el in Hlen.
  pose proof (encode_pairs_length pr show_double o true) as Hpairs.
  assert (Eo : eo = Ch.lbrace :: encode_pairs pr show_double true o ++ [Ch.rbrace])
    by (subst eo; now rewrite encode_Object).
  match goal with |- decode _ _ ?d = _ => set (data := d) end.
  assert (Edata : data = [Ch.lbracket] ++ el ++ eo ++ rest)
    by (subst data rest; text_assoc).
  assert (Hev : opens_value (hd 0 (eo ++ rest)))
    by (rewrite Eo; apply bracket_opens_value).
  assert (Hfirst : opens_value (char_at data 1)).
  { rewrite Edata. change 1%nat with (List.length [Ch.lbracket]).
    rewrite char_at_app_hd. now apply elements_then_opens. }
  rewrite (decode_open_list sp pow data eq_refl Hfirst).
  assert (Hdata : (List.length data = 1 + List.length el + List.length eo
                                      + List.length rest)%nat)
    by (rewrite Edata; text_length).
  assert (Hleo : List.length eo
                 = (2 + List.length (encode_pairs pr show_double true o))%nat)
    by (rewrite Eo; text_length).
  replace (3 * List.length data + 2)%nat
    with (List.length l + S (S (3 * List.length data - List.length l)))%nat by lia.
  set (k := (3 * List.length data - List.length l)%nat).
  rewrite Edata.
  rewrite (array_loop_scalars_then sp pr pow show_double l [Ch.lbracket]
             (eo ++ rest) [] _ Hl Hev).
  fold el. cbn [app].
  replace (Ch.lbracket :: el ++ eo ++ rest) with ((Ch.lbracket :: el) ++ eo ++ rest)
    by text_assoc.
  change (List.length [Ch.lbracket] + List.length el)%nat
    with (List.length (Ch.lbracket :: el)).
  pose proof (decode_object_scalars sp pr pow show_double o (Ch.lbracket :: el) rest k
                Ho Hnd ltac:(subst k; lia)) as Hq.
  fold eo in Hq.
  pose proof (decode_object_leaves_cursor_on_brace _ _ _ _ _ _ _ Hq) as Hclose.
  assert (Hopen : char_at ((Ch.lbracket :: el) ++ eo ++ rest)
                    (List.length (Ch.lbracket :: el)) = Ch.lbrace)
    by (rewrite Eo; apply char_at_app_cons).
  match type of Hq with
  | _ = Ok (_, ?q) => rewrite (array_loop_stop sp pow (S k) _ _ l (Object o) q)
  end.
  - cbn [bind negb orb]. rewrite Hclose.
    change (negb (Ch.rbrace =? Ch.rbracket)) with true. reflexivity.
  - rewrite Hopen. apply bracket_opens_value.
  - rewrite decode_value_object;
      rewrite (skip_spaces_fixed sp _ (List.length (Ch.lbracket :: el)));
      try exact Hq; try (now rewrite Hopen).
  - rewrite Hclose. discriminate.
  - rewrite Hclose. now right.
Qed.

End Nesting.

Lemma right_nested_lists_round_trip_witness :
  decode c_locale (fun x _ => x)
    (encode c_locale (fun _ => [])
       (List ([Integer 1; Boolean false]
              ++ [List ([Null] ++ [List [String (wstr "a"); Integer (-2)]])])))
  = Ok (List ([Integer 1; Boolean false]
              ++ [List ([Null] ++ [List [String (wstr "a"); Integer (-2)]])])).
Proof.
  apply right_nested_lists_round_trip.
  apply right_nested_last;
    [repeat constructor; vm_compute; intuition discriminate | ].
  apply right_nested_last; [repeat constructor | ].
  apply right_nested_flat. repeat constructor; vm_compute; intuition discriminate.
Defined.

Lemma list_holding_an_object_is_rejected_witness :
  decode c_locale (fun x _ => x)
    (encode c_locale (fun _ => [])
       (List ([Integer 1] ++ Object [(wstr "a", Null)] :: [Integer 2])))
  = Raise (InvalidCharacter "List ended with an invalid character" 13).
Proof.
  apply (list_holding_an_object_is_rejected c_locale c_locale (fun x _ => x)
           (fun _ => []) [Integer 1] [(wstr "a", Null)] [Integer 2]).
  - repeat constructor; vm_compute; intuition discriminate.
  - repeat constructor; discriminate.
  - repeat constructor. intros [].
Defined.

(** *** The text of the encoder *)

Section Encoder.

Variable pr : wchar_t -> bool.
Variable show_double : float -> wstring.

Lemma encode_elements_false (l : list Value) :
  encode_elements pr show_double false l
  = flat_map (fun it => wstr ", " ++ encode pr show_double it) l.
Proof.
  induction l as [| x l IH]; [reflexivity | ].
  change (encode_elements pr show_double false (x :: l))
    with (wstr ", " ++ encode pr show_double x ++ encode_elements pr show_double false l).
  rewrite IH. cbn [flat_map]. now rewrite <- app_assoc.
Qed.

Lemma encode_pairs_false (o : list (wstring * Value)) :
  encode_pairs pr show_double false o
  = flat_map (fun it => wstr ", " ++ pair_text pr show_double it) o.
Proof.
  induction o as [| kv o IH]; [reflexivity | ].
  rewrite encode_pairs_cons, IH. cbn [flat_map]. now rewrite <- app_assoc.
Qed.

Lemma join_cons (sep text : wstring) (texts : list wstring) :
  join sep (text :: texts) = text ++ flat_map (fun t => sep ++ t) texts.
Proof.
  revert text. induction texts as [| t texts IH]; intros text.
  - cbn. now rewrite app_nil_r.
  - change (join sep (text :: t :: texts)) with (text ++ sep ++ join sep (t :: texts)).
    rewrite IH. cbn [flat_map]. now rewrite <- app_assoc.
Qed.

(** X18: The elements of a list and the entries of an object are written with
    a comma and one space between them, none in front of the first and
    none behind the last; an entry is its key in double quotes, a colon
    and the value, with no space around the colon. *)
Theorem encode_joins_with_comma_and_space :
  (forall l : list Value,
     encode pr show_double (List l)
     = wstr "[" ++ join (wstr ", ") (map (encode pr show_double) l) ++ wstr "]")
  /\ (forall o : list (wstring * Value),
        encode pr show_double (Object o)
        = wstr "{"
          ++ join (wstr ", ")
               (map (fun it => Ch.quote :: fst it ++ Ch.quote :: Ch.colon
                                 :: encode pr show_double (snd it)) o)
          ++ wstr "}").
Proof.
  split.
  - intros l. rewrite encode_List. do 2 f_equal.
    destruct l as [| x l]; [reflexivity | ].
    cbn [map]. rewrite join_cons.
    change (encode_elements pr show_double true (x :: l))
      with ([] ++ encode pr show_double x ++ encode_elements pr show_double false l).
    rewrite encode_elements_false. cbn [app]. f_equal.
    induction l as [| y l IH]; [reflexivity | ].
    cbn [flat_map map]. now rewrite IH.
  - intros o. rewrite encode_Object. do 2 f_equal.
    assert (Epair : forall it,
               pair_text pr show_double it
               = Ch.quote :: fst it ++ Ch.quote :: Ch.colon
                   :: encode pr show_double (snd it)).
    { intros it. unfold pair_text. change (wstr ":") with [Ch.colon].
      rewrite <- !app_assoc. reflexivity. }
    assert (Erest : forall r : list (wstring * Value),
               flat_map (fun it => wstr ", " ++ pair_text pr show_double it) r
               = flat_map (fun t => wstr ", " ++ t)
                   (map (fun it => Ch.quote :: fst it ++ Ch.quote :: Ch.colon
                                     :: encode pr show_double (snd it)) r)).
    { induction r as [| kv r IH]; [reflexivity | ].
      cbn [flat_map map]. now rewrite IH, Epair. }
    destruct o as [| kv o]; [reflexivity | ].
    cbn [map]. rewrite join_cons, encode_pairs_cons, encode_pairs_false.
    cbn [app]. now rewrite Epair, Erest.
Qed.

(** *** Printable output *)

Lemma ascii_printable (c : wchar_t) : 32 <= c <= 126 -> iswprint pr c = true.
Proof.
  intros H. unfold iswprint, is_ascii.
  destruct (Z.leb_spec 0 c), (Z.ltb_spec c 128), (Z.leb_spec 32 c),
    (Z.leb_spec c 126); cbn; try reflexivity; lia.
Qed.

Lemma hex_digit_printable (d : Z) : 0 <= d < 16 -> iswprint pr (hex_digit d) = true.
Proof.
  intros H. apply ascii_printable. unfold hex_digit.
  destruct (Z.ltb_spec d 10); lia.
Qed.

Lemma hex_digits_printable (n : nat) :
  forall (value : Z) (acc : wstring),
    0 <= value -> printable pr acc -> printable pr (hex_digits n value acc).
Proof.
  induction n as [| n IH]; intros value acc Hv Hacc; cbn [hex_digits]; [exact Hacc | ].
  assert (Hd : printable pr (hex_digit (value mod 16) :: acc)).
  { constructor; [ | exact Hacc]. apply hex_digit_printable.
    apply Z.mod_pos_bound. lia. }
  destruct (value / 16 =? 0); [exact Hd | ].
  apply IH; [ | exact Hd]. apply Z.div_pos; lia.
Qed.

Lemma hex_printable (value : Z) : 0 <= value -> printable pr (hex value).
Proof.
  intros Hv. unfold hex, printable. apply Forall_app. split.
  - apply Forall_forall. intros c Hc. apply repeat_spec in Hc. subst c. reflexivity.
  - apply hex_digits_printable; [exact Hv | constructor].
Qed.

Lemma dec_digits_printable (n : nat) :
  forall (value : Z) (acc : wstring),
    0 <= value -> printable pr acc -> printable pr (dec_digits n value acc).
Proof.
  induction n as [| n IH]; intros value acc Hv Hacc; cbn [dec_digits]; [exact Hacc | ].
  assert (Hd : printable pr ((48 + value mod 10) :: acc)).
  { constructor; [ | exact Hacc]. apply ascii_printable.
    pose proof (Z.mod_pos_bound value 10). lia. }
  destruct (value / 10 =? 0); [exact Hd | ].
  apply IH; [ | exact Hd]. apply Z.div_pos; lia.
Qed.

Lemma show_int_printable (i : Z) : printable pr (show_int i).
Proof.
  unfold show_int. destruct (Z.ltb_spec i 0).
  - constructor; [reflexivity | ]. apply dec_digits_printable; [lia | constructor].
  - apply dec_digits_printable; [lia | constructor].
Qed.

Lemma escape_char_printable (c : wchar_t) : printable pr (escape_char pr c).
Proof.
  unfold escape_char.
  repeat match goal with
  | |- context [if ?b then _ else _] => destruct b eqn:?
  end; try (repeat constructor; fail).
  - apply Forall_app. split; [repeat constructor | ].
    apply hex_printable. unfold to_unsigned. apply Z.mod_pos_bound. reflexivity.
  - constructor; [ | constructor].
    match goal with H : negb (iswprint pr c) = false |- _ =>
      now apply negb_false_iff in H
    end.
Qed.

Lemma escape_printable (s : wstring) : printable pr (escape pr s).
Proof.
  induction s as [| c s IH]; [constructor | ].
  cbn [escape]. apply Forall_app. split; [apply escape_char_printable | exact IH].
Qed.

(** X19: Whatever the string, [escape] writes printable code units only: a code
    unit that is not printable leaves as a [\u] escape, so no control
    character and no terminator reaches the text. *)
Theorem escape_writes_printable_text (s : wstring) :
  printable pr (escape pr s) /\ ~ In 0 (escape pr s).
Proof.
  split; [apply escape_printable | ].
  intros H0. pose proof (escape_printable s) as Hp.
  unfold printable in Hp. rewrite Forall_forall in Hp.
  specialize (Hp 0 H0). discriminate.
Qed.

Lemma literal_printable (text : string) :
  In text ["null"; "true"; "false"; "["; "]"; "{"; "}"; ", "; ":"]%string ->
  printable pr (wstr text).
Proof.
  cbn [In]. intros H.
  repeat (destruct H as [<- | H]; [repeat constructor | ]). destruct H.
Qed.

(** X20: The text of [encode] consists of printable code units whenever the
    keys of the objects in the value are printable and the stream writes
    a [double] in printable code units: strings are escaped, keys are
    written as they are. *)
Theorem encode_writes_printable_text (v : Value) :
  (forall d, printable pr (show_double d)) ->
  keys_printable pr v ->
  printable pr (encode pr show_double v).
Proof.
  intros Hshow. revert v. fix IH 1. intros v Hkeys.
  destruct v as [| b | i | d | s | l | o].
  - apply (literal_printable "null"). cbn; tauto.
  - destruct b; [apply (literal_printable "true") | apply (literal_printable "false")];
      cbn; tauto.
  - apply show_int_printable.
  - apply Hshow.
  - cbn [encode]. apply Forall_app. split; [repeat constructor | ].
    apply Forall_app. split; [apply escape_printable | repeat constructor].
  - rewrite encode_List. apply Forall_app. split; [repeat constructor | ].
    apply Forall_app. split; [ | repeat constructor].
    cbn [keys_printable] in Hkeys.
    enough (Hall : forall first,
               printable pr (encode_elements pr show_double first l))
      by apply Hall.
    revert Hkeys.
    induction l as [| x l IHl]; intros Hkeys first; [constructor | ].
    destruct Hkeys as [Hx Hl].
    change (encode_elements pr show_double first (x :: l))
      with ((if first then [] else wstr ", ") ++ encode pr show_double x
            ++ encode_elements pr show_double false l).
    apply Forall_app. split; [destruct first; repeat constructor | ].
    apply Forall_app. split; [now apply IH | now apply IHl].
  - rewrite encode_Object. apply Forall_app. split; [repeat constructor | ].
    apply Forall_app. split; [ | repeat constructor].
    cbn [keys_printable] in Hkeys.
    enough (Hall : forall first,
               printable pr (encode_pairs pr show_double first o))
      by apply Hall.
    revert Hkeys.
    induction o as [| kv o IHo]; intros Hkeys first; [constructor | ].
    destruct Hkeys as [[Hk Hx] Ho].
    rewrite encode_pairs_cons.
    apply Forall_app. split; [destruct first; repeat constructor | ].
    apply Forall_app. split; [ | now apply IHo].
    unfold pair_text. repeat (apply Forall_app; split); try (repeat constructor; fail).
    + exact Hk.
    + now apply IH.
Qed.

End Encoder.

Lemma encode_writes_printable_text_witness :
  printable c_locale
    (encode c_locale (fun _ => wstr "0.5")
       (Object [(wstr "k", List [String [7; 233; 34]; Float 0.5%float; Integer (-3)])])).
Proof.
  apply encode_writes_printable_text.
  - intros d. repeat constructor.
  - cbn. repeat split; repeat constructor.
Defined.

(** *** The recursion budget *)

Section Fuel.

Variable sp : wchar_t -> bool.
Variable pow : float -> float -> float.

Lemma bind_fuel {A B : Type} (m : outcome A) (k : A -> outcome B) :
  bind m k <> OutOfFuel -> m <> OutOfFuel.
Proof. destruct m; cbn [bind]; congruence. Qed.

(** A production that did not run out of fuel gives the same result with
    one more unit. *)
Lemma fuel_step (data : wstring) (fuel : nat) :
  (forall pos,
     decode_value sp pow fuel data pos <> OutOfFuel ->
     decode_value sp pow (S fuel) data pos = decode_value sp pow fuel data pos)
  /\ (forall pos,
        decode_array sp pow fuel data pos <> OutOfFuel ->
        decode_array sp pow (S fuel) data pos = decode_array sp pow fuel data pos)
  /\ (forall pos l last,
        decode_array_loop sp pow fuel data pos l last <> OutOfFuel ->
        decode_array_loop sp pow (S fuel) data pos l last
        = decode_array_loop sp pow fuel data pos l last)
  /\ (forall pos,
        decode_object sp pow fuel data pos <> OutOfFuel ->
        decode_object sp pow (S fuel) data pos = decode_object sp pow fuel data pos)
  /\ (forall pos o last,
        decode_object_loop sp pow fuel data pos o last <> OutOfFuel ->
        decode_object_loop sp pow (S fuel) data pos o last
        = decode_object_loop sp pow fuel data pos o last).
Proof.
  induction fuel as [| fuel (IHv & IHa & IHal & IHo & IHol)].
  - split; [ | split; [ | split; [ | split]]];
      try (intros pos H; exfalso; apply H; reflexivity).
    + intros pos l last. rewrite decode_array_loop_S, decode_array_loop_O.
      destruct (negb (char_at data pos =? 0) && negb last
                && negb (char_at data pos =? Ch.rbracket)); congruence.
    + intros pos o last. rewrite decode_object_loop_S, decode_object_loop_O.
      destruct (negb (char_at data pos =? 0) && negb last
                && negb (char_at data pos =? Ch.rbrace)); congruence.
  - split; [ | split; [ | split; [ | split]]].
    + intros pos. rewrite !decode_value_S. cbv zeta.
      repeat match goal with
      | |- context [if ?b then _ else _] => destruct b
      end; intros H; try reflexivity; [now apply IHo | now apply IHa].
    + intros pos. rewrite !decode_array_S. cbv zeta.
      destruct (negb (char_at data (skip_spaces sp data (S pos)) =? Ch.rbracket));
        [ | reflexivity].
      intros H. apply bind_fuel in H. now rewrite (IHal _ _ _ H).
    + intros pos l last.
      rewrite (decode_array_loop_S sp pow (S fuel)), (decode_array_loop_S sp pow fuel).
      cbv zeta.
      destruct (negb (char_at data pos =? 0) && negb last
                && negb (char_at data pos =? Ch.rbracket)); [ | reflexivity].
      intros H. pose proof (bind_fuel _ _ H) as Hv. rewrite (IHv _ Hv).
      destruct (decode_value sp pow fuel data (skip_spaces sp data pos))
        as [[value q] | e | ]; cbn [bind] in *; try reflexivity.
      destruct (char_at data (skip_spaces sp data q) =? Ch.comma); now apply IHal.
    + intros pos. rewrite !decode_object_S. cbv zeta.
      destruct (negb (char_at data (skip_spaces sp data (S pos)) =? Ch.rbrace));
        [ | reflexivity].
      intros H. apply bind_fuel in H. now rewrite (IHol _ _ _ H).
    + intros pos o last.
      rewrite (decode_object_loop_S sp pow (S fuel)),
        (decode_object_loop_S sp pow fuel).
      cbv zeta.
      destruct (negb (char_at data pos =? 0) && negb last
                && negb (char_at data pos =? Ch.rbrace)); [ | reflexivity].
      destruct (negb (char_at data (skip_spaces sp data pos) =? Ch.quote));
        [reflexivity | ].
      destruct (decode_string data (skip_spaces sp data pos))
        as [[key p2] | e | ]; cbn [bind]; try reflexivity.
      destruct (negb (char_at data (skip_spaces sp data p2) =? Ch.colon));
        [reflexivity | ].
      intros H. pose proof (bind_fuel _ _ H) as Hv. rewrite (IHv _ Hv).
      destruct (decode_value sp pow fuel data
                  (skip_spaces sp data (S (skip_spaces sp data p2))))
        as [[value q] | e | ]; cbn [bind] in *; try reflexivity.
      destruct (char_at data (skip_spaces sp data q) =? Ch.comma); now apply IHol.
Qed.

Lemma fuel_more (data : wstring) (pos fuel k : nat) :
  decode_value sp pow fuel data pos <> OutOfFuel ->
  decode_value sp pow (fuel + k) data pos = decode_value sp pow fuel data pos.
Proof.
  intros H. induction k as [| k IH]; [now rewrite Nat.add_0_r | ].
  rewrite Nat.add_succ_r.
  rewrite (proj1 (fuel_step data (fuel + k))); [exact IH | now rewrite IH].
Qed.

(** X1: [decode] returns a value or raises on every input: the budget that
    bounds the recursion in the model, three units for each code unit of
    the input, never runs out, and a larger budget gives the same
    result. *)
Theorem decode_terminates (json : wstring) (more : nat) :
  decode sp pow json <> OutOfFuel
  /\ decode_value sp pow (decode_fuel json + more) json 0 = decode_at sp pow json.
Proof.
  destruct (decode_total sp pow json) as [Hat Hdecode]. split; [exact Hdecode | ].
  now apply fuel_more.
Qed.

End Fuel.

(** *** The cursor stays in the buffer *)

Lemma skip_spaces_loop_le (sp : wchar_t -> bool) (n : nat) (data : wstring) :
  forall pos, (pos <= List.length data)%nat ->
    (skip_spaces_loop sp n data pos <= List.length data)%nat.
Proof.
  induction n as [| n IH]; intros pos Hpos; cbn [skip_spaces_loop]; [exact Hpos | ].
  destruct (negb (char_at data pos =? 0) && iswspace sp (char_at data pos)) eqn:E;
    [ | exact Hpos].
  apply IH. apply andb_prop in E as [E _]. apply negb_true_iff, Z.eqb_neq in E.
  now apply char_at_nonzero.
Qed.

Lemma skip_spaces_le (sp : wchar_t -> bool) (data : wstring) (pos : nat) :
  (pos <= List.length data)%nat -> (skip_spaces sp data pos <= List.length data)%nat.
Proof. apply skip_spaces_loop_le. Qed.

Lemma decode_integer_loop_le (n : nat) (data : wstring) :
  forall pos res, (pos <= List.length data)%nat ->
    (snd (decode_integer_loop n data pos res) <= List.length data)%nat.
Proof.
  induction n as [| n IH]; intros pos res Hpos; cbn [decode_integer_loop];
    [exact Hpos | ].
  destruct (negb (char_at data pos =? 0) && iswdigit (char_at data pos)) eqn:E;
    [ | exact Hpos].
  apply IH. apply andb_prop in E as [E _]. apply negb_true_iff, Z.eqb_neq in E.
  now apply char_at_nonzero.
Qed.

Lemma decode_integer_le (data : wstring) (pos : nat) :
  (pos <= List.length data)%nat ->
  (snd (decode_integer data pos) <= List.length data)%nat.
Proof. apply decode_integer_loop_le. Qed.

Lemma starts_with_length (expected : wstring) :
  forall text, starts_with expected text = true ->
    (List.length expected <= List.length text)%nat.
Proof.
  induction expected as [| e expected IH]; intros [| t text] H; cbn in *;
    try lia; try discriminate.
  apply andb_prop in H as [_ H]. apply IH in H. lia.
Qed.

Lemma compare_forward_le (data : wstring) (pos : nat) (expected : wstring) :
  Forall (fun c => c <> 0) expected -> (pos <= List.length data)%nat ->
  (snd (compare_forward data pos expected) <= List.length data)%nat.
Proof.
  intros Hnz Hpos. rewrite (compare_forward_spec _ _ _ Hnz).
  destruct (literal_at data pos expected) eqn:E; [ | exact Hpos].
  apply starts_with_length in E. rewrite length_skipn in E. cbn [snd]. lia.
Qed.

Lemma char_before_end (data : wstring) (pos : nat) (c : wchar_t) :
  char_at data pos = c -> c <> 0 -> (S pos <= List.length data)%nat.
Proof. intros <- H. now apply char_at_nonzero. Qed.

Lemma sound_invalid_character (data : wstring) (message : string) (pos : nat) :
  (pos <= List.length data)%nat -> sound_error data (InvalidCharacter message pos).
Proof. intros H. split; [exact H | exact I]. Qed.

Lemma unescape_hex_within (n : nat) (data : wstring) (pos : nat) :
  forall i code, (pos + i <= List.length data)%nat ->
    match unescape_hex n data pos i code with
    | Ok _ => (pos + i + n <= List.length data)%nat
    | Raise e => sound_error data e
    | OutOfFuel => True
    end.
Proof.
  induction n as [| n IH]; intros i code Hpos; cbn [unescape_hex]; [lia | ].
  destruct (iswxdigit (char_at data (pos + i))) eqn:Ex; cbn [negb].
  - assert (Hlt : (S (pos + i) <= List.length data)%nat).
    { apply (char_before_end data _ _ eq_refl). intros E. rewrite E in Ex.
      discriminate. }
    match goal with
    | |- match unescape_hex n data pos (S i) ?c with _ => _ end =>
        specialize (IH (S i) c ltac:(lia));
        destruct (unescape_hex n data pos (S i) c)
    end; try exact IH. lia.
  - now apply sound_invalid_character.
Qed.

Lemma unescape_within (data : wstring) (pos : nat) :
  (pos < List.length data)%nat -> within data (unescape data pos).
Proof.
  intros Hpos. unfold unescape.
  repeat match goal with
  | |- context [if ?b then _ else _] => destruct b
  end; try (cbn [within]; lia).
  - pose proof (unescape_hex_within 4 data (S pos) 0 0 ltac:(lia)) as H.
    destruct (unescape_hex 4 data (S pos) 0 0); cbn [bind within]; try exact H. lia.
  - apply sound_invalid_character. lia.
Qed.

Lemma decode_string_loop_within (n : nat) (data : wstring) :
  forall pos str escape, (pos <= List.length data)%nat ->
    within data (decode_string_loop n data pos str escape).
Proof.
  induction n as [| n IH]; intros pos str escape Hpos; cbn [decode_string_loop];
    destruct (negb (char_at data pos =? 0)
              && (escape || negb (char_at data pos =? Ch.quote))) eqn:Ec;
    try exact I; try exact Hpos.
  assert (Hlt : (pos < List.length data)%nat).
  { apply char_at_nonzero. intros E0. rewrite E0 in Ec. discriminate. }
  destruct escape.
  - pose proof (unescape_within data pos Hlt) as Hu.
    destruct (unescape data pos) as [[ch p] | e | ]; cbn [bind within] in *;
      [now apply IH | exact Hu | exact I].
  - destruct (char_at data pos =? Ch.backslash); apply IH; lia.
Qed.

Lemma decode_string_within (data : wstring) (pos : nat) :
  char_at data pos = Ch.quote -> within data (decode_string data pos).
Proof.
  intros Hq.
  assert (Hlt : (S pos <= List.length data)%nat)
    by (apply (char_before_end data pos _ Hq); discriminate).
  unfold decode_string.
  pose proof (decode_string_loop_within (List.length data - S pos) data (S pos)
                [] false Hlt) as Hl.
  destruct (decode_string_loop _ data (S pos) [] false) as [[str p] | e | ] eqn:El;
    cbn [bind within] in *; [ | exact Hl | exact I].
  apply decode_string_loop_ge in El.
  destruct (char_at data p =? 0) eqn:E0.
  - apply Z.eqb_eq in E0. split; [exact Hl | ].
    split; [reflexivity | split; [exact E0 | ]]. exists pos. split; [lia | exact Hq].
  - apply Z.eqb_neq in E0. now apply char_at_nonzero.
Qed.

Lemma number_fraction_within (data : wstring) (pos : nat) :
  (pos <= List.length data)%nat -> within data (number_fraction data pos).
Proof.
  intros Hpos. unfold number_fraction.
  destruct (char_at data pos =? Ch.dot) eqn:Ed; [ | exact Hpos].
  apply Z.eqb_eq in Ed.
  assert (Hlt : (S pos <= List.length data)%nat)
    by (apply (char_before_end data pos _ Ed); discriminate).
  cbv zeta. destruct (negb (iswdigit (char_at data (S pos)))).
  - now apply sound_invalid_character.
  - pose proof (decode_integer_le data (S pos) Hlt) as Hi.
    destruct (decode_integer data (S pos)) as [r p]. exact Hi.
Qed.

Lemma number_exponent_within (data : wstring) (pos : nat) :
  (pos <= List.length data)%nat -> within data (number_exponent data pos).
Proof.
  intros Hpos. unfold number_exponent.
  destruct ((char_at data pos =? 101) || (char_at data pos =? 69)) eqn:Ee;
    [ | exact Hpos].
  assert (Hlt : (S pos <= List.length data)%nat).
  { apply (char_before_end data pos _ eq_refl). intros E0. rewrite E0 in Ee.
    discriminate. }
  cbv zeta.
  set (ps := if char_at data (S pos) =? Ch.plus then (false, S (S pos))
             else if char_at data (S pos) =? Ch.minus then (true, S (S pos))
                  else (false, S pos)).
  assert (Hs : (snd ps <= List.length data)%nat).
  { subst ps. destruct (char_at data (S pos) =? Ch.plus) eqn:Ep.
    - apply Z.eqb_eq in Ep. apply (char_before_end data _ _ Ep). discriminate.
    - destruct (char_at data (S pos) =? Ch.minus) eqn:Em; [ | exact Hlt].
      apply Z.eqb_eq in Em. apply (char_before_end data _ _ Em). discriminate. }
  destruct ps as [ne p]. cbn [snd] in Hs.
  destruct (negb (iswdigit (char_at data p))).
  - now apply sound_invalid_character.
  - pose proof (decode_integer_le data p Hs) as Hi.
    destruct (decode_integer data p) as [x q]. exact Hi.
Qed.

Lemma decode_number_within (pow : float -> float -> float) (data : wstring)
    (pos : nat) :
  (pos <= List.length data)%nat -> within data (decode_number pow data pos).
Proof.
  intros Hpos. rewrite decode_number_parts.
  set (p0 := if char_at data pos =? Ch.minus then (true, S pos) else (false, pos)).
  assert (H0 : (snd p0 <= List.length data)%nat).
  { subst p0. destruct (char_at data pos =? Ch.minus) eqn:Em; [ | exact Hpos].
    apply Z.eqb_eq in Em. apply (char_before_end data _ _ Em). discriminate. }
  destruct p0 as [neg pos0]. cbn [snd] in H0.
  destruct (iswdigit (char_at data pos0)) eqn:Hd; cbn [negb];
    [ | now apply sound_invalid_character].
  set (p1 := if negb (char_at data pos0 =? Ch.zero)
             then decode_integer data pos0 else (0, S pos0)).
  assert (H1 : (snd p1 <= List.length data)%nat).
  { subst p1. destruct (negb (char_at data pos0 =? Ch.zero)).
    - now apply decode_integer_le.
    - apply (char_before_end data pos0 _ eq_refl). intros E0. rewrite E0 in Hd.
      discriminate. }
  destruct p1 as [integer pos1]. cbn [snd] in H1.
  pose proof (number_fraction_within data pos1 H1) as H2.
  destruct (number_fraction data pos1) as [[[remainder count] pos2] | e | ];
    cbn [bind within] in *; [ | exact H2 | exact I].
  pose proof (number_exponent_within data pos2 H2) as H3.
  destruct (number_exponent data pos2) as [[[exponent ne] pos3] | e | ];
    cbn [bind within] in *; [ | exact H3 | exact I].
  destruct ((count =? 0) && (exponent =? 0)); exact H3.
Qed.

Section Bounds.

Variable sp : wchar_t -> bool.
Variable pow : float -> float -> float.

Lemma literal_within (data : wstring) (p : nat) (expected : wstring) (value : Value) :
  Forall (fun c => c <> 0) expected -> (p <= List.length data)%nat ->
  within data
    match compare_forward data p expected with
    | (true, p') => Ok (value, p')
    | (false, p') => Raise (InvalidCharacter "Invalid token found" p')
    end.
Proof.
  intros Hnz Hp. pose proof (compare_forward_le data p expected Hnz Hp) as H.
  destruct (compare_forward data p expected) as [[] p']; cbn [snd within] in *;
    [exact H | now apply sound_invalid_character].
Qed.

(** Started inside the buffer, every production ends inside it. *)
Lemma decode_within (data : wstring) (fuel : nat) :
  (forall pos, (pos <= List.length data)%nat ->
     within data (decode_value sp pow fuel data pos))
  /\ (forall pos, (pos < List.length data)%nat ->
        within data (decode_array sp pow fuel data pos))
  /\ (forall pos l last, (pos <= List.length data)%nat ->
        within data (decode_array_loop sp pow fuel data pos l last))
  /\ (forall pos, (pos < List.length data)%nat ->
        within data (decode_object sp pow fuel data pos))
  /\ (forall pos o last, (pos <= List.length data)%nat ->
        within data (decode_object_loop sp pow fuel data pos o last)).
Proof.
  induction fuel as [| fuel (IHv & IHa & IHal & IHo & IHol)].
  - split; [ | split; [ | split; [ | split]]]; intros; try exact I.
    + rewrite decode_array_loop_O.
      destruct (negb (char_at data pos =? 0) && negb last
                && negb (char_at data pos =? Ch.rbracket)); [exact I | assumption].
    + rewrite decode_object_loop_O.
      destruct (negb (char_at data pos =? 0) && negb last
                && negb (char_at data pos =? Ch.rbrace)); [exact I | assumption].
  - split; [ | split; [ | split; [ | split]]].
    + intros pos Hpos. rewrite decode_value_S. cbv zeta.
      pose proof (skip_spaces_le sp data pos Hpos) as Hs.
      set (p := skip_spaces sp data pos) in *.
      destruct (char_at data p =? 116);
        [now apply literal_within; [apply wstr_nonzero_true | ] | ].
      destruct (char_at data p =? 102);
        [now apply literal_within; [apply wstr_nonzero_false | ] | ].
      destruct (char_at data p =? 110);
        [now apply literal_within; [apply wstr_nonzero_null | ] | ].
      destruct (char_at data p =? Ch.quote) eqn:Eq;
        [apply decode_string_within; now apply Z.eqb_eq | ].
      destruct (char_at data p =? Ch.lbrace) eqn:Eo.
      { apply IHo. apply Z.eqb_eq in Eo.
        apply (char_before_end data p _ Eo). discriminate. }
      destruct (char_at data p =? Ch.lbracket) eqn:Ea.
      { apply IHa. apply Z.eqb_eq in Ea.
        apply (char_before_end data p _ Ea). discriminate. }
      destruct (iswdigit (char_at data p) || (char_at data p =? Ch.minus));
        [now apply decode_number_within | now apply sound_invalid_character].
    + intros pos Hpos. rewrite decode_array_S. cbv zeta.
      pose proof (skip_spaces_le sp data (S pos) Hpos) as Hs.
      set (p := skip_spaces sp data (S pos)) in *.
      assert (Hl : within data
                     (if negb (char_at data p =? Ch.rbracket)
                      then decode_array_loop sp pow fuel data p [] false
                      else Ok ([], true, p)))
        by (destruct (negb (char_at data p =? Ch.rbracket)); [now apply IHal | exact Hs]).
      destruct (if negb (char_at data p =? Ch.rbracket)
                then decode_array_loop sp pow fuel data p [] false
                else Ok ([], true, p)) as [[[l last] q] | e | ];
        cbn [bind within] in *; [ | exact Hl | exact I].
      destruct (negb last || negb (char_at data q =? Ch.rbracket));
        [now apply sound_invalid_character | exact Hl].
    + intros pos l last Hpos. rewrite decode_array_loop_S. cbv zeta.
      destruct (negb (char_at data pos =? 0) && negb last
                && negb (char_at data pos =? Ch.rbracket)); [ | exact Hpos].
      pose proof (skip_spaces_le sp data pos Hpos) as Hs1.
      pose proof (IHv _ Hs1) as Hv.
      destruct (decode_value sp pow fuel data (skip_spaces sp data pos))
        as [[value p2] | e | ]; cbn [bind within] in *; [ | exact Hv | exact I].
      pose proof (skip_spaces_le sp data p2 Hv) as Hs3.
      set (p3 := skip_spaces sp data p2) in *.
      destruct (char_at data p3 =? Ch.comma) eqn:Ec; apply IHal.
      * apply skip_spaces_le. apply Z.eqb_eq in Ec.
        apply (char_before_end data p3 _ Ec). discriminate.
      * now apply skip_spaces_le.
    + intros pos Hpos. rewrite decode_object_S. cbv zeta.
      pose proof (skip_spaces_le sp data (S pos) Hpos) as Hs.
      set (p := skip_spaces sp data (S pos)) in *.
      assert (Hl : within data
                     (if negb (char_at data p =? Ch.rbrace)
                      then decode_object_loop sp pow fuel data p [] false
                      else Ok ([], true, p)))
        by (destruct (negb (char_at data p =? Ch.rbrace)); [now apply IHol | exact Hs]).
      destruct (if negb (char_at data p =? Ch.rbrace)
                then decode_object_loop sp pow fuel data p [] false
                else Ok ([], true, p)) as [[[o last] q] | e | ];
        cbn [bind within] in *; [ | exact Hl | exact I].
      destruct (negb last || negb (char_at data q =? Ch.rbrace));
        [now apply sound_invalid_character | exact Hl].
    + intros pos o last Hpos. rewrite decode_object_loop_S. cbv zeta.
      destruct (negb (char_at data pos =? 0) && negb last
                && negb (char_at data pos =? Ch.rbrace)); [ | exact Hpos].
      pose proof (skip_spaces_le sp data pos Hpos) as Hs1.
      set (p1 := skip_spaces sp data pos) in *.
      destruct (char_at data p1 =? Ch.quote) eqn:Eq; cbn [negb];
        [ | now apply sound_invalid_character].
      apply Z.eqb_eq in Eq. pose proof (decode_string_within data p1 Eq) as Hk.
      destruct (decode_string data p1) as [[key p2] | e | ];
        cbn [bind within] in *; [ | exact Hk | exact I].
      pose proof (skip_spaces_le sp data p2 Hk) as Hs3.
      set (p3 := skip_spaces sp data p2) in *.
      destruct (char_at data p3 =? Ch.colon) eqn:Ecolon; cbn [negb];
        [ | now apply sound_invalid_character].
      apply Z.eqb_eq in Ecolon.
      assert (Hp3 : (S p3 <= List.length data)%nat)
        by (apply (char_before_end data p3 _ Ecolon); discriminate).
      pose proof (skip_spaces_le sp data (S p3) Hp3) as Hs4.
      pose proof (IHv _ Hs4) as Hv.
      destruct (decode_value sp pow fuel data (skip_spaces sp data (S p3)))
        as [[value p5] | e | ]; cbn [bind within] in *; [ | exact Hv | exact I].
      pose proof (skip_spaces_le sp data p5 Hv) as Hs6.
      set (p6 := skip_spaces sp data p5) in *.
      destruct (char_at data p6 =? Ch.comma) eqn:Ec; apply IHol.
      * apply skip_spaces_le. apply Z.eqb_eq in Ec.
        apply (char_before_end data p6 _ Ec). discriminate.
      * now apply skip_spaces_le.
Qed.

(** X2: The cursor never leaves the input: [decode] ends with the cursor behind
    at least one code unit and at most on the terminator, and an
    exception of [decode] carries a position of the input, the terminator
    at most. *)
Theorem decode_stays_in_the_input (json : wstring) :
  match decode_at sp pow json with
  | Ok (_, cursor) => (0 < cursor <= List.length json)%nat
  | Raise e => (error_position e <= List.length json)%nat
  | OutOfFuel => False
  end.
Proof.
  pose proof (proj1 (decode_within json (decode_fuel json)) 0%nat ltac:(lia)) as H.
  pose proof (proj1 (decode_total sp pow json)) as Ht.
  pose proof (proj1 (decode_progress sp pow json (decode_fuel json)) 0%nat) as Hp.
  unfold decode_at in *.
  destruct (decode_value sp pow (decode_fuel json) json 0) as [[v q] | e | ];
    cbn [within] in H.
  - split; [exact (Hp v q eq_refl) | exact H].
  - exact (proj1 H).
  - congruence.
Qed.

(** X3: [UnexpectedEof] is the exception of a string that is not closed, and of
    nothing else: when [decode] raises it, the message is
    [Unexpected end of input], the position is that of a terminator, and a
    double quote stands somewhere in front of that position. *)
Theorem unexpected_eof_is_an_open_string (json : wstring) (message : string)
    (position : nat) :
  decode sp pow json = Raise (UnexpectedEof message position) ->
  message = "Unexpected end of input"%string
  /\ char_at json position = 0
  /\ exists i, (i < position)%nat /\ char_at json i = Ch.quote.
Proof.
  intros H.
  pose proof (proj1 (decode_within json (decode_fuel json)) 0%nat ltac:(lia)) as Hw.
  unfold decode, decode_at in *.
  destruct (decode_value sp pow (decode_fuel json) json 0) as [[v q] | e | ];
    cbn [bind within] in *; try discriminate.
  injection H as ->. exact (proj2 Hw).
Qed.

End Bounds.

Lemma unexpected_eof_is_an_open_string_witness :
  "Unexpected end of input"%string = "Unexpected end of input"%string
  /\ char_at (jtext "{'key': 'abc") 12 = 0
  /\ exists i, (i < 12)%nat /\ char_at (jtext "{'key': 'abc") i = Ch.quote.
Proof.
  apply (unexpected_eof_is_an_open_string c_locale (fun x _ => x)
           (jtext "{'key': 'abc") "Unexpected end of input" 12).
  vm_compute. reflexivity.
Defined.

(** *** Text in front of the input *)

Section Shift.

Variable pre data : wstring.

Lemma char_at_shift (pos : nat) :
  char_at (pre ++ data) (List.length pre + pos)
  = char_at data pos.
Proof. apply char_at_app_plus. Qed.

Lemma skip_spaces_loop_shift (sp : wchar_t -> bool) (n : nat) :
  forall pos,
    skip_spaces_loop sp n (pre ++ data) (List.length pre + pos)
    = (List.length pre + skip_spaces_loop sp n data pos)%nat.
Proof.
  induction n as [| n IH]; intros pos; cbn [skip_spaces_loop]; [reflexivity | ].
  rewrite char_at_shift.
  destruct (negb (char_at data pos =? 0) && iswspace sp (char_at data pos));
    [ | reflexivity].
  rewrite <- Nat.add_succ_r. apply IH.
Qed.

Lemma skip_spaces_shift (sp : wchar_t -> bool) (pos : nat) :
  skip_spaces sp (pre ++ data) (List.length pre + pos)
  = (List.length pre + skip_spaces sp data pos)%nat.
Proof.
  unfold skip_spaces. rewrite length_app.
  replace (List.length pre + List.length data - (List.length pre + pos))%nat
    with (List.length data - pos)%nat by lia.
  apply skip_spaces_loop_shift.
Qed.

Lemma decode_integer_loop_shift (n : nat) :
  forall pos res,
    decode_integer_loop n (pre ++ data) (List.length pre + pos) res
    = (fst (decode_integer_loop n data pos res),
       (List.length pre + snd (decode_integer_loop n data pos res))%nat).
Proof.
  induction n as [| n IH]; intros pos res; cbn [decode_integer_loop];
    [reflexivity | ].
  rewrite char_at_shift.
  destruct (negb (char_at data pos =? 0) && iswdigit (char_at data pos));
    [ | reflexivity].
  rewrite <- Nat.add_succ_r. apply IH.
Qed.

Lemma decode_integer_shift (pos : nat) :
  decode_integer (pre ++ data) (List.length pre + pos)
  = (fst (decode_integer data pos), (List.length pre + snd (decode_integer data pos))%nat).
Proof.
  unfold decode_integer. rewrite length_app.
  replace (List.length pre + List.length data - (List.length pre + pos))%nat
    with (List.length data - pos)%nat by lia.
  apply decode_integer_loop_shift.
Qed.

Lemma compare_forward_loop_shift (expected : wstring) (n : nat) :
  forall datapos exppos,
    compare_forward_loop n (pre ++ data) expected (List.length pre + datapos) exppos
    = ((List.length pre + fst (compare_forward_loop n data expected datapos exppos))%nat,
       snd (compare_forward_loop n data expected datapos exppos)).
Proof.
  induction n as [| n IH]; intros datapos exppos; cbn [compare_forward_loop];
    [reflexivity | ].
  rewrite char_at_shift.
  destruct (negb (char_at data datapos =? 0) && negb (char_at expected exppos =? 0)
            && (char_at data datapos =? char_at expected exppos));
    [ | reflexivity].
  rewrite <- Nat.add_succ_r. apply IH.
Qed.

Lemma compare_forward_shift (pos : nat) (expected : wstring) :
  compare_forward (pre ++ data) (List.length pre + pos) expected
  = (fst (compare_forward data pos expected),
     (List.length pre + snd (compare_forward data pos expected))%nat).
Proof.
  unfold compare_forward. rewrite compare_forward_loop_shift.
  destruct (compare_forward_loop (List.length expected) data expected pos 0)
    as [datapos exppos].
  cbn [fst snd]. destruct (char_at expected exppos =? 0); reflexivity.
Qed.

Lemma unescape_hex_shift (n : nat) (pos : nat) :
  forall i code,
    unescape_hex n (pre ++ data) (List.length pre + pos) i code
    = shifted_error (List.length pre) (unescape_hex n data pos i code).
Proof.
  induction n as [| n IH]; intros i code; cbn [unescape_hex]; [reflexivity | ].
  rewrite <- Nat.add_assoc, char_at_shift.
  destruct (negb (iswxdigit (char_at data (pos + i)))); [reflexivity | ].
  apply IH.
Qed.

Lemma unescape_shift (pos : nat) :
  unescape (pre ++ data) (List.length pre + pos)
  = shifted (List.length pre) (unescape data pos).
Proof.
  unfold unescape. rewrite char_at_shift.
  replace (S (List.length pre + pos) - 1)%nat with (List.length pre + pos)%nat by lia.
  replace (S pos - 1)%nat with pos by lia.
  rewrite char_at_shift.
  repeat match goal with
  | |- context [if ?b then _ else _] => destruct b
  end; cbn [shifted shift_error]; rewrite <- ?Nat.add_succ_r; try reflexivity.
  cbv zeta. rewrite unescape_hex_shift.
  destruct (unescape_hex 4 data (S pos) 0 0); cbn [bind shifted shifted_error];
    try reflexivity.
  do 2 f_equal. lia.
Qed.

Lemma decode_string_loop_shift (n : nat) :
  forall pos str escape,
    decode_string_loop n (pre ++ data) (List.length pre + pos) str escape
    = shifted (List.length pre) (decode_string_loop n data pos str escape).
Proof.
  induction n as [| n IH]; intros pos str escape; cbn [decode_string_loop];
    rewrite char_at_shift;
    destruct (negb (char_at data pos =? 0)
              && (escape || negb (char_at data pos =? Ch.quote)));
    try reflexivity.
  destruct escape.
  - rewrite unescape_shift.
    destruct (unescape data pos) as [[ch p] | e | ]; cbn [bind shifted];
      try reflexivity.
    apply IH.
  - destruct (char_at data pos =? Ch.backslash); rewrite <- Nat.add_succ_r; apply IH.
Qed.

Lemma decode_string_shift (pos : nat) :
  decode_string (pre ++ data) (List.length pre + pos)
  = shifted (List.length pre) (decode_string data pos).
Proof.
  unfold decode_string. rewrite length_app.
  replace (List.length pre + List.length data - S (List.length pre + pos))%nat
    with (List.length data - S pos)%nat by lia.
  rewrite <- Nat.add_succ_r, decode_string_loop_shift.
  destruct (decode_string_loop (List.length data - S pos) data (S pos) [] false)
    as [[str p] | e | ]; cbn [bind shifted]; try reflexivity.
  rewrite char_at_shift. destruct (char_at data p =? 0); cbn [shifted shift_error];
    rewrite <- ?Nat.add_succ_r; reflexivity.
Qed.

Lemma number_fraction_shift (pos : nat) :
  number_fraction (pre ++ data) (List.length pre + pos)
  = shifted (List.length pre) (number_fraction data pos).
Proof.
  unfold number_fraction. rewrite char_at_shift.
  destruct (char_at data pos =? Ch.dot); [ | reflexivity].
  cbv zeta. rewrite <- Nat.add_succ_r, char_at_shift.
  destruct (negb (iswdigit (char_at data (S pos)))); [reflexivity | ].
  rewrite decode_integer_shift.
  destruct (decode_integer data (S pos)) as [r q]. cbn [fst snd shifted].
  do 3 f_equal. lia.
Qed.

Lemma number_exponent_shift (pos : nat) :
  number_exponent (pre ++ data) (List.length pre + pos)
  = shifted (List.length pre) (number_exponent data pos).
Proof.
  unfold number_exponent. rewrite char_at_shift.
  destruct ((char_at data pos =? 101) || (char_at data pos =? 69)); [ | reflexivity].
  cbv zeta. rewrite <- !Nat.add_succ_r, char_at_shift.
  destruct (char_at data (S pos) =? Ch.plus);
    [ | destruct (char_at data (S pos) =? Ch.minus)];
    rewrite char_at_shift;
    match goal with
    | |- context [iswdigit (char_at data ?p)] =>
        destruct (negb (iswdigit (char_at data p))); [reflexivity | ];
        rewrite decode_integer_shift; destruct (decode_integer data p); reflexivity
    end.
Qed.

Lemma decode_number_shift (pow : float -> float -> float) (pos : nat) :
  decode_number pow (pre ++ data) (List.length pre + pos)
  = shifted (List.length pre) (decode_number pow data pos).
Proof.
  rewrite !decode_number_parts. rewrite char_at_shift.
  assert (Hrest : forall (neg : bool) (p : nat),
    (if negb (iswdigit (char_at (pre ++ data) (List.length pre + p)))
     then Raise (InvalidCharacter "Invalid digit" (List.length pre + p))
     else
       let '(integer, pos) :=
         if negb (char_at (pre ++ data) (List.length pre + p) =? Ch.zero)
         then decode_integer (pre ++ data) (List.length pre + p)
         else (0, S (List.length pre + p)) in
       let* (remainder, remainder_count, pos) := number_fraction (pre ++ data) pos in
       let* (exponent, neg_exponent, pos) := number_exponent (pre ++ data) pos in
       if (remainder_count =? 0) && (exponent =? 0) then
         let integer := if neg then wrap_int (- integer) else integer in
         Ok (Integer integer, pos)
       else
         let res :=
           (int_to_double integer
            + int_to_double remainder / pow 10 (int_to_double remainder_count))%float in
         let res := if neg then (- res)%float else res in
         let exponent := if neg_exponent then wrap_int (- exponent) else exponent in
         let res := (res * pow 10 (int_to_double exponent))%float in
         Ok (Float res, pos))
    = shifted (List.length pre)
        (if negb (iswdigit (char_at data p))
         then Raise (InvalidCharacter "Invalid digit" p)
         else
           let '(integer, pos) :=
             if negb (char_at data p =? Ch.zero)
             then decode_integer data p else (0, S p) in
           let* (remainder, remainder_count, pos) := number_fraction data pos in
           let* (exponent, neg_exponent, pos) := number_exponent data pos in
           if (remainder_count =? 0) && (exponent =? 0) then
             let integer := if neg then wrap_int (- integer) else integer in
             Ok (Integer integer, pos)
           else
             let res :=
               (int_to_double integer
                + int_to_double remainder
                  / pow 10 (int_to_double remainder_count))%float in
             let res := if neg then (- res)%float else res in
             let exponent :=
               if neg_exponent then wrap_int (- exponent) else exponent in
             let res := (res * pow 10 (int_to_double exponent))%float in
             Ok (Float res, pos))).
  { intros neg p. rewrite char_at_shift.
    destruct (negb (iswdigit (char_at data p))); [reflexivity | ].
    set (r := if negb (char_at data p =? Ch.zero)
              then decode_integer data p else (0, S p)).
    assert (Hint :
      (if negb (char_at data p =? Ch.zero)
       then decode_integer (pre ++ data) (List.length pre + p)
       else (0, S (List.length pre + p)))
      = (fst r, (List.length pre + snd r)%nat)).
    { subst r. destruct (negb (char_at data p =? Ch.zero));
        [apply decode_integer_shift | cbn [fst snd]; now rewrite Nat.add_succ_r]. }
    rewrite Hint. destruct r as [integer p1].
    cbn [fst snd]. rewrite number_fraction_shift.
    destruct (number_fraction data p1) as [[[remainder count] p2] | e | ];
      cbn [bind shifted]; try reflexivity.
    rewrite number_exponent_shift.
    destruct (number_exponent data p2) as [[[exponent ne] p3] | e | ];
      cbn [bind shifted]; try reflexivity.
    destruct ((count =? 0) && (exponent =? 0)); reflexivity. }
  destruct (char_at data pos =? Ch.minus).
  - rewrite <- Nat.add_succ_r. exact (Hrest true (S pos)).
  - exact (Hrest false pos).
Qed.

Variable sp : wchar_t -> bool.
Variable pow : float -> float -> float.

(** The decoder reads a text behind other text as it reads the text
    alone, every position moved by the length of what is in front. *)
Lemma decode_shift (fuel : nat) :
  (forall pos,
     decode_value sp pow fuel (pre ++ data) (List.length pre + pos)
     = shifted (List.length pre) (decode_value sp pow fuel data pos))
  /\ (forall pos,
        decode_array sp pow fuel (pre ++ data) (List.length pre + pos)
        = shifted (List.length pre) (decode_array sp pow fuel data pos))
  /\ (forall pos l last,
        decode_array_loop sp pow fuel (pre ++ data) (List.length pre + pos) l last
        = shifted (List.length pre) (decode_array_loop sp pow fuel data pos l last))
  /\ (forall pos,
        decode_object sp pow fuel (pre ++ data) (List.length pre + pos)
        = shifted (List.length pre) (decode_object sp pow fuel data pos))
  /\ (forall pos o last,
        decode_object_loop sp pow fuel (pre ++ data) (List.length pre + pos) o last
        = shifted (List.length pre) (decode_object_loop sp pow fuel data pos o last)).
Proof.
  induction fuel as [| fuel (IHv & IHa & IHal & IHo & IHol)].
  - split; [ | split; [ | split; [ | split]]]; try reflexivity.
    + intros pos l last. rewrite !decode_array_loop_O, char_at_shift.
      destruct (negb (char_at data pos =? 0) && negb last
                && negb (char_at data pos =? Ch.rbracket)); reflexivity.
    + intros pos o last. rewrite !decode_object_loop_O, char_at_shift.
      destruct (negb (char_at data pos =? 0) && negb last
                && negb (char_at data pos =? Ch.rbrace)); reflexivity.
  - split; [ | split; [ | split; [ | split]]].
    + intros pos. rewrite !decode_value_S. cbv zeta.
      rewrite skip_spaces_shift, char_at_shift.
      set (p := skip_spaces sp data pos).
      repeat match goal with
      | |- context [compare_forward (pre ++ data) (List.length pre + p) ?e] =>
          rewrite (compare_forward_shift p e);
          destruct (compare_forward data p e) as [[] ?]; cbn [fst snd]
      end.
      all: repeat match goal with
           | |- context [if ?b then _ else _] => destruct b
           end;
        try reflexivity;
        first [apply decode_string_shift | apply IHo | apply IHa
              | apply decode_number_shift].
    + intros pos. rewrite !decode_array_S. cbv zeta.
      rewrite <- Nat.add_succ_r, skip_spaces_shift, char_at_shift.
      set (p := skip_spaces sp data (S pos)).
      destruct (negb (char_at data p =? Ch.rbracket)).
      * rewrite IHal.
        destruct (decode_array_loop sp pow fuel data p [] false)
          as [[[l last] q] | e | ]; cbn [bind shifted]; try reflexivity.
        rewrite char_at_shift.
        destruct (negb last || negb (char_at data q =? Ch.rbracket)); reflexivity.
      * cbn [bind shifted]. rewrite char_at_shift.
        destruct (negb true || negb (char_at data p =? Ch.rbracket)); reflexivity.
    + intros pos l last. rewrite !decode_array_loop_S. cbv zeta.
      rewrite char_at_shift.
      destruct (negb (char_at data pos =? 0) && negb last
                && negb (char_at data pos =? Ch.rbracket)); [ | reflexivity].
      rewrite skip_spaces_shift, IHv.
      destruct (decode_value sp pow fuel data (skip_spaces sp data pos))
        as [[value q] | e | ]; cbn [bind shifted]; try reflexivity.
      rewrite skip_spaces_shift, char_at_shift.
      destruct (char_at data (skip_spaces sp data q) =? Ch.comma);
        rewrite <- ?Nat.add_succ_r, skip_spaces_shift; apply IHal.
    + intros pos. rewrite !decode_object_S. cbv zeta.
      rewrite <- Nat.add_succ_r, skip_spaces_shift, char_at_shift.
      set (p := skip_spaces sp data (S pos)).
      destruct (negb (char_at data p =? Ch.rbrace)).
      * rewrite IHol.
        destruct (decode_object_loop sp pow fuel data p [] false)
          as [[[o last] q] | e | ]; cbn [bind shifted]; try reflexivity.
        rewrite char_at_shift.
        destruct (negb last || negb (char_at data q =? Ch.rbrace)); reflexivity.
      * cbn [bind shifted]. rewrite char_at_shift.
        destruct (negb true || negb (char_at data p =? Ch.rbrace)); reflexivity.
    + intros pos o last. rewrite !decode_object_loop_S. cbv zeta.
      rewrite char_at_shift.
      destruct (negb (char_at data pos =? 0) && negb last
                && negb (char_at data pos =? Ch.rbrace)); [ | reflexivity].
      rewrite skip_spaces_shift, char_at_shift.
      set (p1 := skip_spaces sp data pos).
      destruct (negb (char_at data p1 =? Ch.quote)); [reflexivity | ].
      rewrite decode_string_shift.
      destruct (decode_string data p1) as [[key p2] | e | ]; cbn [bind shifted];
        try reflexivity.
      rewrite skip_spaces_shift, char_at_shift.
      set (p3 := skip_spaces sp data p2).
      destruct (negb (char_at data p3 =? Ch.colon)); [reflexivity | ].
      rewrite <- Nat.add_succ_r, skip_spaces_shift, IHv.
      destruct (decode_value sp pow fuel data (skip_spaces sp data (S p3)))
        as [[value q] | e | ]; cbn [bind shifted]; try reflexivity.
      rewrite skip_spaces_shift, char_at_shift.
      destruct (char_at data (skip_spaces sp data q) =? Ch.comma);
        rewrite <- ?Nat.add_succ_r, skip_spaces_shift; apply IHol.
Qed.

End Shift.

Lemma decode_value_skips (sp : wchar_t -> bool) (pow : float -> float -> float)
    (fuel : nat) (data : wstring) (pos : nat) :
  decode_value sp pow (S fuel) data (skip_spaces sp data pos)
  = decode_value sp pow (S fuel) data pos.
Proof. rewrite !decode_value_S. cbv zeta. now rewrite skip_spaces_idempotent. Qed.

(** X6: White space in front of the input changes nothing but the positions:
    [decode] gives the value it gives without the white space, or raises
    the same exception with its position moved by the length of the white
    space. *)
Theorem leading_white_space_moves_positions (sp : wchar_t -> bool)
    (pow : float -> float -> float) (ws json : wstring) :
  Forall (fun c => iswspace sp c = true) ws ->
  decode sp pow (ws ++ json) = shifted_error (List.length ws) (decode sp pow json).
Proof.
  intros Hws. rewrite decode_unfold.
  rewrite <- decode_value_skips.
  pose proof (skip_spaces_over sp ws [] json Hws) as Hskip.
  cbn [app List.length Nat.add] in Hskip. rewrite Hskip.
  rewrite decode_value_skips.
  pose proof (proj1 (decode_shift ws json sp pow
                       (S (3 * List.length (ws ++ json) + 3))) 0%nat) as Hshift.
  rewrite Nat.add_0_r in Hshift. rewrite Hshift.
  replace (S (3 * List.length (ws ++ json) + 3))
    with (decode_fuel json + 3 * List.length ws)%nat
    by (unfold decode_fuel; rewrite length_app; lia).
  rewrite (fuel_more sp pow json 0 (decode_fuel json) (3 * List.length ws)
             (proj1 (decode_total sp pow json))).
  unfold decode. fold (decode_at sp pow json).
  destruct (decode_at sp pow json) as [[v q] | e | ]; reflexivity.
Qed.

Lemma leading_white_space_moves_positions_witness :
  decode c_locale (fun x _ => x) ([32; 10; 9] ++ wstr "[1, x]")
  = shifted_error 3 (decode c_locale (fun x _ => x) (wstr "[1, x]"))
  /\ shifted_error 3 (decode c_locale (fun x _ => x) (wstr "[1, x]"))
     = Raise (InvalidCharacter "Invalid character found" 7).
Proof.
  split; [ | reflexivity].
  apply (leading_white_space_moves_positions c_locale (fun x _ => x) [32; 10; 9]).
  repeat constructor.
Defined.

(** *** The digits of [hex] *)

Lemma hex_number_app (a b : wstring) :
  forall code, hex_number (a ++ b) code = hex_number b (hex_number a code).
Proof. induction a as [| d a IH]; intros code; [reflexivity | apply IH]. Qed.

Lemma hex_digit_lowercase (d : Z) :
  0 <= d < 16 -> iswxdigit (hex_digit d) = true /\ isupper (hex_digit d) = false.
Proof.
  intros H.
  assert (E : d = 0 \/ d = 1 \/ d = 2 \/ d = 3 \/ d = 4 \/ d = 5 \/ d = 6 \/ d = 7
              \/ d = 8 \/ d = 9 \/ d = 10 \/ d = 11 \/ d = 12 \/ d = 13 \/ d = 14
              \/ d = 15) by lia.
  repeat (destruct E as [-> | E]; [split; reflexivity | ]).
  subst d. split; reflexivity.
Qed.

Lemma hex_digits_spec (n : nat) :
  forall (value : Z) (acc : wstring),
    (1 <= n)%nat -> 0 <= value < 16 ^ Z.of_nat n ->
    exists ds,
      hex_digits n value acc = ds ++ acc
      /\ Forall (fun c => iswxdigit c = true /\ isupper c = false) ds
      /\ forall code,
           hex_number ds code = code * 16 ^ Z.of_nat (List.length ds) + value.
Proof.
  induction n as [| n IH]; intros value acc Hn Hv; [lia | ].
  cbn [hex_digits].
  assert (Hm : 0 <= value mod 16 < 16) by (apply Z.mod_pos_bound; lia).
  destruct (hex_digit_value _ Hm) as [_ Hval].
  pose proof (hex_digit_lowercase _ Hm) as Hlow.
  destruct (Z.eqb_spec (value / 16) 0) as [E | E].
  - exists [hex_digit (value mod 16)]. split; [reflexivity | ].
    split; [now constructor | ].
    intros code. cbn [hex_number List.length]. rewrite Hval.
    change (16 ^ Z.of_nat 1) with 16.
    pose proof (Z.div_mod value 16 ltac:(lia)). lia.
  - rewrite Nat2Z.inj_succ, Z.pow_succ_r in Hv by lia.
    assert (Hq : 0 <= value / 16 < 16 ^ Z.of_nat n)
      by (split; [apply Z.div_pos; lia | apply Z.div_lt_upper_bound; lia]).
    assert (Hn' : (1 <= n)%nat) by (destruct n; [cbn in Hq; lia | lia]).
    destruct (IH (value / 16) (hex_digit (value mod 16) :: acc) Hn' Hq)
      as (ds & Eds & Hall & Hnum).
    exists (ds ++ [hex_digit (value mod 16)]).
    split; [rewrite Eds, <- app_assoc; reflexivity | ].
    split; [apply Forall_app; split; [exact Hall | now constructor] | ].
    intros code. rewrite hex_number_app, Hnum, length_app.
    cbn [hex_number List.length]. rewrite Hval.
    rewrite Nat2Z.inj_add, Z.pow_add_r by lia.
    change (16 ^ Z.of_nat 1) with 16.
    pose proof (Z.div_mod value 16 ltac:(lia)). lia.
Qed.

Lemma hex_number_zeros (n : nat) : hex_number (repeat Ch.zero n) 0 = 0.
Proof. induction n as [| n IH]; [reflexivity | exact IH]. Qed.

(** X21: [hex] writes an [unsigned] as lowercase hexadecimal digits, at least
    four of them (zeros in front of a short number) and at most eight, and
    the digits read back as a hexadecimal number give the value. *)
Theorem hex_digits_read_back (value : Z) :
  0 <= value < 2 ^ 32 ->
  hex_number (hex value) 0 = value
  /\ (4 <= List.length (hex value) <= 8)%nat
  /\ Forall (fun c => iswxdigit c = true /\ isupper c = false) (hex value).
Proof.
  intros Hv. unfold hex.
  destruct (hex_digits_spec 8 value [] ltac:(lia) Hv) as (ds & Eds & Hall & Hnum).
  pose proof (hex_digits_length_bounds 8 value [] ltac:(lia) Hv) as Hlen.
  rewrite Eds, app_nil_r in *. cbn [List.length] in Hlen.
  split; [ | split].
  - rewrite hex_number_app, hex_number_zeros, Hnum. lia.
  - rewrite length_app, repeat_length. lia.
  - apply Forall_app. split; [ | exact Hall].
    apply Forall_forall. intros c Hc. apply repeat_spec in Hc. subst c.
    split; reflexivity.
Qed.

Lemma hex_digits_read_back_witness :
  hex_number (hex 2748) 0 = 2748
  /\ (4 <= List.length (hex 2748) <= 8)%nat
  /\ Forall (fun c => iswxdigit c = true /\ isupper c = false) (hex 2748).
Proof. apply hex_digits_read_back. vm_compute. intuition discriminate. Defined.

(** *** White space inside a list *)

Section Spaced.

Variable sp pr : wchar_t -> bool.
Variable pow : float -> float -> float.
Variable show_double : float -> wstring.

Lemma space_ends_value (x : Value) (c : wchar_t) :
  iswspace sp c = true -> ends_value x c.
Proof.
  intros Hc. destruct x; try exact I. cbn [ends_value].
  unfold iswspace, is_ascii, iswdigit, Ch.dot in *.
  destruct (Z.leb_spec 0 c), (Z.ltb_spec c 128); cbn [andb] in Hc.
  - destruct (Z.eqb_spec c 32), (Z.leb_spec 9 c), (Z.leb_spec c 13);
      cbn in Hc; try discriminate;
      (repeat split; [destruct (Z.leb_spec 48 c), (Z.leb_spec c 57); cbn; auto; lia
                     | lia | lia | lia]).
  - repeat split; [destruct (Z.leb_spec 48 c), (Z.leb_spec c 57); cbn; auto; lia
                  | lia | lia | lia].
  - repeat split; [destruct (Z.leb_spec 48 c), (Z.leb_spec c 57); cbn; auto; lia
                  | lia | lia | lia].
  - repeat split; [destruct (Z.leb_spec 48 c), (Z.leb_spec c 57); cbn; auto; lia
                  | lia | lia | lia].
Qed.

Lemma ends_value_behind_space (x : Value) (ws tail : wstring) :
  Forall (fun c => iswspace sp c = true) ws ->
  In (hd 0 tail) [Ch.comma; Ch.rbracket] ->
  ends_value x (hd 0 (ws ++ tail)).
Proof.
  intros Hws Htail. destruct ws as [| c ws].
  - cbn [app]. destruct x; try exact I. cbn [ends_value In] in *.
    destruct Htail as [<- | [<- | []]]; repeat split; discriminate.
  - inversion Hws; subst. now apply space_ends_value.
Qed.

(** An element, white space, a comma, white space: the loop goes on. *)
Lemma array_loop_step_spaced (fuel : nat) (data : wstring) (pos : nat)
    (acc : list Value) (v : Value) (q : nat) :
  opens_value (char_at data pos) ->
  decode_value sp pow fuel data pos = Ok (v, q) ->
  char_at data (skip_spaces sp data q) = Ch.comma ->
  decode_array_loop sp pow (S fuel) data pos acc false
  = decode_array_loop sp pow fuel data
      (skip_spaces sp data (S (skip_spaces sp data q))) (acc ++ [v]) false.
Proof.
  intros Hopen Hv Hcomma. rewrite decode_array_loop_S.
  rewrite (opens_value_cond _ Ch.rbracket Hopen (or_introl eq_refl)). cbv zeta.
  rewrite (skip_spaces_on_value sp data pos Hopen), Hv. cbn [bind].
  rewrite Hcomma, Z.eqb_refl. reflexivity.
Qed.

Lemma array_loop_stop_spaced (fuel : nat) (data : wstring) (pos : nat)
    (acc : list Value) (v : Value) (q : nat) :
  opens_value (char_at data pos) ->
  decode_value sp pow fuel data pos = Ok (v, q) ->
  char_at data (skip_spaces sp data q) <> Ch.comma ->
  decode_array_loop sp pow (S fuel) data pos acc false
  = Ok (acc ++ [v], true, skip_spaces sp data q).
Proof.
  intros Hopen Hv Hcomma. rewrite decode_array_loop_S.
  rewrite (opens_value_cond _ Ch.rbracket Hopen (or_introl eq_refl)). cbv zeta.
  rewrite (skip_spaces_on_value sp data pos Hopen), Hv. cbn [bind].
  apply Z.eqb_neq in Hcomma. rewrite Hcomma. cbv beta iota.
  rewrite skip_spaces_idempotent. apply decode_array_loop_last.
Qed.

(** The loop of [decode_array] over scalars with white space around
    them and commas between them. *)
Lemma array_loop_spaced (r : list (wstring * Value * wstring)) :
  forall (x : Value) (w2 pre rest : wstring) (acc : list Value) (fuel : nat),
    scalar pr x -> Forall (fun c => iswspace sp c = true) w2 ->
    Forall (spaced_ok sp pr) r ->
    (List.length r + 2 <= fuel)%nat ->
    decode_array_loop sp pow fuel
      (pre ++ encode pr show_double x ++ w2
           ++ flat_map (fun it => Ch.comma :: spaced_element pr show_double it) r
           ++ Ch.rbracket :: rest)
      (List.length pre) acc false
    = Ok (acc ++ x :: map (fun it => snd (fst it)) r, true,
          (List.length pre
           + List.length
               (encode pr show_double x ++ w2
                ++ flat_map (fun it => Ch.comma :: spaced_element pr show_double it)
                     r))%nat).
Proof.
  induction r as [| [[w1' y] w2'] r IH]; intros x w2 pre rest acc fuel Hx Hw2 Hr Hfuel;
    (destruct fuel as [| [| fuel]]; [cbn in Hfuel; lia | cbn in Hfuel; lia | ]);
    destruct (encode_scalar_opens pr show_double x Hx) as (c & text & Ec & Hc);
    set (ex := encode pr show_double x) in *.
  - cbn [flat_map app map].
    set (data := pre ++ ex ++ w2 ++ Ch.rbracket :: rest).
    assert (Hopen : opens_value (char_at data (List.length pre)))
      by (subst data; rewrite Ec; cbn [app]; now rewrite char_at_app_cons).
    assert (Hv : decode_value sp pow (S fuel) data (List.length pre)
                 = Ok (x, (List.length pre + List.length ex)%nat)).
    { apply decode_value_scalar_before; [exact Hx | ].
      apply ends_value_behind_space; [exact Hw2 | cbn; tauto]. }
    assert (Hskip : skip_spaces sp data (List.length pre + List.length ex)
                    = (List.length pre + List.length ex + List.length w2)%nat).
    { subst data. rewrite app_assoc, <- length_app.
      apply skip_spaces_over_to; [exact Hw2 | now right]. }
    assert (Hclose : char_at data (List.length pre + List.length ex + List.length w2)
                     = Ch.rbracket)
      by (apply (char_at_split _ (pre ++ ex ++ w2) Ch.rbracket rest);
          subst data; split_text).
    rewrite (array_loop_stop_spaced (S fuel) data _ acc x _ Hopen Hv)
      by (rewrite Hskip, Hclose; discriminate).
    rewrite Hskip. do 2 f_equal. subst ex. text_length.
  - inversion Hr as [| ? ? Hy Hr']; subst.
    destruct Hy as (Hw1' & Hy & Hw2'). cbn [fst snd] in Hw1', Hy, Hw2'.
    destruct (encode_scalar_opens pr show_double y Hy) as (cy & ty & Ey & Hcy).
    cbn [flat_map map]. unfold spaced_element at 1. cbn [fst snd].
    set (ey := encode pr show_double y) in *.
    set (tail := flat_map (fun it => Ch.comma :: spaced_element pr show_double it) r
                 ++ Ch.rbracket :: rest).
    match goal with
    | |- decode_array_loop _ _ _ ?d _ _ _ = _ => set (data := d)
    end.
    assert (Edata : data = pre ++ ex ++ w2 ++ Ch.comma :: w1' ++ ey ++ w2' ++ tail)
      by (subst data tail; text_assoc).
    assert (Hopen : opens_value (char_at data (List.length pre)))
      by (rewrite Edata, Ec; cbn [app]; now rewrite char_at_app_cons).
    assert (Hv : decode_value sp pow (S fuel) data (List.length pre)
                 = Ok (x, (List.length pre + List.length ex)%nat)).
    { rewrite Edata. apply decode_value_scalar_before; [exact Hx | ].
      apply ends_value_behind_space; [exact Hw2 | cbn; tauto]. }
    assert (Hskip : skip_spaces sp data (List.length pre + List.length ex)
                    = (List.length pre + List.length ex + List.length w2)%nat).
    { rewrite Edata, app_assoc, <- length_app.
      apply skip_spaces_over_to; [exact Hw2 | now right]. }
    assert (Hcomma : char_at data (List.length pre + List.length ex + List.length w2)
                     = Ch.comma)
      by (apply (char_at_split _ (pre ++ ex ++ w2) Ch.comma (w1' ++ ey ++ w2' ++ tail));
          rewrite ?Edata; split_text).
    set (pre' := pre ++ ex ++ w2 ++ [Ch.comma]).
    assert (Hskip' : skip_spaces sp data
                       (S (List.length pre + List.length ex + List.length w2))
                     = (List.length pre' + List.length w1')%nat).
    { replace (S (List.length pre + List.length ex + List.length w2))
        with (List.length pre') by (subst pre'; text_length).
      replace data with (pre' ++ w1' ++ ey ++ w2' ++ tail)
        by (rewrite Edata; subst pre'; text_assoc).
      apply skip_spaces_over_to; [exact Hw1' | ].
      right. rewrite Ey. cbn [app hd]. now destruct Hcy as (_ & _ & _ & Hn). }
    rewrite (array_loop_step_spaced (S fuel) data _ acc x _ Hopen Hv)
      by (now rewrite Hskip, Hcomma).
    rewrite Hskip, Hskip'.
    replace data with ((pre' ++ w1') ++ ey ++ w2'
                         ++ flat_map (fun it => Ch.comma
                                                  :: spaced_element pr show_double it) r
                         ++ Ch.rbracket :: rest)
      by (rewrite Edata; subst pre' tail; text_assoc).
    rewrite <- length_app. subst ey.
    rewrite (IH y w2' (pre' ++ w1') rest (acc ++ [x]) (S fuel) Hy Hw2' Hr')
      by (cbn in Hfuel; lia).
    rewrite <- app_assoc. cbn [app]. do 2 f_equal.
    subst pre' ex. unfold spaced_element at 2. cbn [fst snd]. text_length.
Qed.

(** X12: A list of scalars is read whatever white space stands around its
    elements and its commas: in front of an element and behind it, spaces,
    tabs and line ends are skipped. *)
Theorem white_space_in_lists_is_skipped
    (items : list (wstring * Value * wstring)) (rest : wstring) :
  Forall (spaced_ok sp pr) items -> items <> [] ->
  decode sp pow
    (Ch.lbracket :: spaced_elements pr show_double items ++ Ch.rbracket :: rest)
  = Ok (List (map (fun it => snd (fst it)) items)).
Proof.
  intros Hitems Hne. destruct items as [| [[w1 x] w2] r]; [congruence | ].
  inversion Hitems as [| ? ? Hfirst Hr]; subst.
  destruct Hfirst as (Hw1 & Hx & Hw2). cbn [fst snd] in Hw1, Hx, Hw2.
  destruct (encode_scalar_opens pr show_double x Hx) as (c & text & Ec & Hc).
  unfold spaced_elements. cbn [map]. rewrite join_cons.
  unfold spaced_element at 1. cbn [fst snd].
  set (ex := encode pr show_double x) in *.
  assert (Etail : flat_map (fun t => [Ch.comma] ++ t)
                    (map (spaced_element pr show_double) r)
                  = flat_map (fun it => Ch.comma :: spaced_element pr show_double it) r).
  { clear. induction r as [| it r IH]; [reflexivity | ].
    change (map (spaced_element pr show_double) (it :: r))
      with (spaced_element pr show_double it :: map (spaced_element pr show_double) r).
    cbn [flat_map]. rewrite IH. reflexivity. }
  rewrite Etail.
  set (body := flat_map (fun it => Ch.comma :: spaced_element pr show_double it) r).
  match goal with |- decode _ _ ?d = _ => set (data := d) end.
  assert (Edata : data = ([Ch.lbracket] ++ w1) ++ ex ++ w2 ++ body
                           ++ Ch.rbracket :: rest)
    by (subst data; text_assoc).
  rewrite decode_unfold.
  assert (Hskip0 : skip_spaces sp data 0 = 0%nat)
    by (apply skip_spaces_fixed; reflexivity).
  rewrite decode_value_array by (now rewrite Hskip0).
  rewrite Hskip0.
  replace (3 * List.length data + 3)%nat with (S (3 * List.length data + 2)) by lia.
  rewrite decode_array_S. cbv zeta.
  assert (Hskip1 : skip_spaces sp data 1 = List.length ([Ch.lbracket] ++ w1)).
  { replace data with ([Ch.lbracket] ++ w1 ++ ex ++ w2 ++ body ++ Ch.rbracket :: rest)
      by (subst data; text_assoc).
    rewrite length_app.
    apply (skip_spaces_over_to sp [Ch.lbracket] w1); [exact Hw1 | ].
    right. rewrite Ec. cbn [app hd]. now destruct Hc as (_ & _ & _ & Hn). }
  rewrite Hskip1.
  assert (Hfirst : char_at data (List.length ([Ch.lbracket] ++ w1)) = c)
    by (rewrite Edata, Ec; cbn [app]; apply char_at_app_cons).
  rewrite Hfirst. destruct Hc as (_ & Hcb & _). apply Z.eqb_neq in Hcb.
  rewrite Hcb. cbn [negb].
  assert (Hlen : (List.length r <= List.length body)%nat).
  { subst body. clear. induction r as [| it r IH]; [cbn; lia | ].
    cbn [flat_map List.length]. rewrite length_app. cbn [List.length]. lia. }
  assert (Hdata : (List.length body <= List.length data)%nat)
    by (rewrite Edata, !length_app; lia).
  set (fuel := (3 * List.length data + 2)%nat).
  assert (Hfuel : (List.length r + 2 <= fuel)%nat) by (subst fuel; lia).
  clearbody fuel. rewrite Edata. subst ex body.
  rewrite (array_loop_spaced r x w2 ([Ch.lbracket] ++ w1) rest [] fuel Hx Hw2 Hr Hfuel).
  cbn [bind negb orb].
  set (ex := encode pr show_double x).
  set (body := flat_map (fun it => Ch.comma :: spaced_element pr show_double it) r).
  set (front := [Ch.lbracket] ++ w1).
  assert (Hclose : char_at (front ++ ex ++ w2 ++ body ++ Ch.rbracket :: rest)
                     (List.length front + List.length (ex ++ w2 ++ body))
                   = Ch.rbracket)
    by (apply (char_at_split _ (front ++ ex ++ w2 ++ body) Ch.rbracket rest);
        clearbody front ex body; split_text).
  rewrite Hclose. reflexivity.
Qed.

End Spaced.

Lemma white_space_in_lists_is_skipped_witness :
  decode c_locale (fun x _ => x)
    (Ch.lbracket
       :: spaced_elements c_locale (fun _ => [])
            [([10; 32; 32], Integer 1, [32]); ([9], String (wstr "a"), []);
             ([], Null, [13; 10])]
       ++ Ch.rbracket :: [])
  = Ok (List [Integer 1; String (wstr "a"); Null]).
Proof.
  apply (white_space_in_lists_is_skipped c_locale c_locale (fun x _ => x) (fun _ => [])
           [([10; 32; 32], Integer 1, [32]); ([9], String (wstr "a"), []);
            ([], Null, [13; 10])] []);
    [ | discriminate].
  repeat (apply Forall_cons; [repeat split; cbn [fst snd] | ]);
    try apply Forall_nil;
    try (repeat constructor; vm_compute; intuition discriminate).
Defined.

(** *** The loop of [decode_object], one entry at a time *)

Section Entries.

Variable sp pr : wchar_t -> bool.
Variable pow : float -> float -> float.
Variable show_double : float -> wstring.

(** One round of the loop on a key, a colon and a value: with a comma
    behind the value the loop goes on, without one it ends. *)
Lemma object_loop_round (fuel : nat) (data : wstring) (pos : nat)
    (acc : list (wstring * Value)) (k : wstring) (p2 : nat) (v : Value) (q : nat) :
  char_at data pos = Ch.quote ->
  decode_string data pos = Ok (String k, p2) ->
  char_at data (skip_spaces sp data p2) = Ch.colon ->
  decode_value sp pow fuel data (skip_spaces sp data (S (skip_spaces sp data p2)))
  = Ok (v, q) ->
  decode_object_loop sp pow (S fuel) data pos acc false
  = if char_at data (skip_spaces sp data q) =? Ch.comma
    then decode_object_loop sp pow fuel data
           (skip_spaces sp data (S (skip_spaces sp data q)))
           (object_insert k v acc) false
    else Ok (object_insert k v acc, true, skip_spaces sp data q).
Proof.
  intros Hq Hkey Hcolon Hv.
  assert (Hfix : skip_spaces sp data pos = pos)
    by (apply skip_spaces_fixed; rewrite Hq; reflexivity).
  rewrite decode_object_loop_S. rewrite Hq.
  change (negb (Ch.quote =? 0) && negb false && negb (Ch.quote =? Ch.rbrace))
    with true.
  cbv beta iota zeta. rewrite Hfix, Hq, Z.eqb_refl. cbn [negb].
  rewrite Hkey. cbn [bind]. rewrite Hcolon, Z.eqb_refl. cbn [negb].
  rewrite Hv. cbn [bind].
  destruct (char_at data (skip_spaces sp data q) =? Ch.comma); [reflexivity | ].
  rewrite skip_spaces_idempotent. apply decode_object_loop_last.
Qed.

(** The text of an entry under a key of plain code units, with a scalar
    as its value. *)
Lemma object_loop_entry (fuel : nat) (pre tail : wstring)
    (acc : list (wstring * Value)) (kv : wstring * Value) :
  pair_round_trips pr kv -> ends_value (snd kv) (hd 0 tail) ->
  hd 0 tail = 0 \/ iswspace sp (hd 0 tail) = false ->
  let data := pre ++ pair_text pr show_double kv ++ tail in
  let q := (List.length pre + List.length (pair_text pr show_double kv))%nat in
  decode_object_loop sp pow (S (S fuel)) data (List.length pre) acc false
  = if hd 0 tail =? Ch.comma
    then decode_object_loop sp pow (S fuel) data (skip_spaces sp data (S q))
           (object_insert (fst kv) (snd kv) acc) false
    else Ok (object_insert (fst kv) (snd kv) acc, true, q).
Proof.
  destruct kv as [k x]. intros [Hk Hx] Hends Hsp data q. cbn [fst snd] in *.
  destruct (encode_scalar_opens pr show_double x Hx) as (c & text & Ec & Hc).
  set (ex := encode pr show_double x) in *.
  assert (Edata : data = pre ++ Ch.quote :: k ++ Ch.quote :: Ch.colon :: ex ++ tail).
  { subst data. unfold pair_text. cbn [fst snd]. change (wstr ":") with [Ch.colon].
    fold ex. text_assoc. }
  assert (Eq : q = (List.length pre + List.length k + 3 + List.length ex)%nat).
  { subst q. unfold pair_text. cbn [fst snd]. change (wstr ":") with [Ch.colon].
    fold ex. text_length. }
  assert (Hquote : char_at data (List.length pre) = Ch.quote)
    by (rewrite Edata; apply char_at_app_cons).
  assert (Hkey : decode_string data (List.length pre)
                 = Ok (String k, (List.length pre + List.length k + 2)%nat))
    by (rewrite Edata; now apply decode_string_verbatim).
  assert (Hcolon : char_at data (List.length pre + List.length k + 2) = Ch.colon)
    by (apply (char_at_split _ (pre ++ Ch.quote :: k ++ [Ch.quote]) Ch.colon
                 (ex ++ tail)); rewrite ?Edata; split_text).
  assert (Hskip2 : skip_spaces sp data (List.length pre + List.length k + 2)
                   = (List.length pre + List.length k + 2)%nat)
    by (apply skip_spaces_after_value; rewrite Hcolon; cbn; tauto).
  set (pre' := pre ++ Ch.quote :: k ++ [Ch.quote; Ch.colon]).
  assert (Edata' : data = pre' ++ ex ++ tail)
    by (rewrite Edata; subst pre'; text_assoc).
  assert (Hpre' : S (List.length pre + List.length k + 2) = List.length pre')
    by (subst pre'; text_length).
  assert (Hval : char_at data (List.length pre') = c)
    by (rewrite Edata', Ec; apply char_at_app_cons).
  assert (Hskip3 : skip_spaces sp data (List.length pre') = List.length pre')
    by (apply skip_spaces_on_value; now rewrite Hval).
  assert (Hv : decode_value sp pow (S fuel) data (List.length pre')
               = Ok (x, q)).
  { rewrite Edata'. subst ex.
    rewrite (decode_value_scalar_before sp pr pow show_double fuel pre' tail x Hx Hends).
    do 2 f_equal. rewrite Eq, <- Hpre'. lia. }
  assert (Hat : char_at data q = hd 0 tail).
  { rewrite Edata'.
    replace q with (List.length (pre' ++ ex))
      by (rewrite length_app, Eq, <- Hpre'; lia).
    rewrite app_assoc. apply char_at_app_hd. }
  assert (Hskipq : skip_spaces sp data q = q).
  { apply skip_spaces_fixed. rewrite Hat.
    destruct Hsp as [-> | ->]; [reflexivity | apply andb_false_r]. }
  rewrite (object_loop_round (S fuel) data (List.length pre) acc k
             (List.length pre + List.length k + 2) x q Hquote Hkey).
  - now rewrite Hskipq, Hat.
  - now rewrite Hskip2.
  - now rewrite Hskip2, Hpre', Hskip3.
Qed.

Lemma pair_text_opens (kv : wstring * Value) (tail : wstring) :
  hd 0 (pair_text pr show_double kv ++ tail) = Ch.quote.
Proof. reflexivity. Qed.

(** The loop over entries that each have a comma and white space behind
    them. *)
Lemma object_loop_entries_then (ws : wstring) (l : list (wstring * Value)) :
  forall (pre tail : wstring) (acc : list (wstring * Value)) (fuel : nat),
    Forall (fun c => iswspace sp c = true) ws ->
    Forall (pair_round_trips pr) l ->
    hd 0 tail = 0 \/ iswspace sp (hd 0 tail) = false ->
    decode_object_loop sp pow (List.length l + S fuel)
      (pre ++ entries_then pr show_double ws l ++ tail) (List.length pre) acc false
    = decode_object_loop sp pow (S fuel)
        (pre ++ entries_then pr show_double ws l ++ tail)
        (List.length pre + List.length (entries_then pr show_double ws l))
        (inserted l acc) false.
Proof.
  induction l as [| kv l IH]; intros pre tail acc fuel Hws Hl Htail.
  - cbn [entries_then flat_map List.length Nat.add app inserted fold_left].
    now rewrite Nat.add_0_r.
  - inversion Hl as [| ? ? Hkv Hl']; subst.
    unfold entries_then. cbn [flat_map]. fold (entries_then pr show_double ws l).
    set (et := pair_text pr show_double kv).
    set (el := entries_then pr show_double ws l).
    match goal with
    | |- decode_object_loop _ _ _ ?d _ _ _ = _ => set (data := d)
    end.
    assert (Edata : data = pre ++ et ++ Ch.comma :: ws ++ el ++ tail)
      by (subst data; text_assoc).
    assert (Hnext : hd 0 (el ++ tail) = 0 \/ iswspace sp (hd 0 (el ++ tail)) = false).
    { destruct l as [| kv' l]; [exact Htail | ]. right. reflexivity. }
    cbn [List.length Nat.add inserted fold_left].
    replace (List.length l + S fuel)%nat with (S (List.length l + fuel)) by lia.
    rewrite Edata. subst et.
    rewrite (object_loop_entry (List.length l + fuel) pre
               (Ch.comma :: ws ++ el ++ tail) acc kv Hkv).
    2:{ cbn [hd]. destruct (snd kv); try exact I. repeat split; discriminate. }
    2:{ right. reflexivity. }
    cbn [hd]. rewrite Z.eqb_refl.
    set (et := pair_text pr show_double kv).
    set (pre' := pre ++ et ++ [Ch.comma]).
    replace (pre ++ et ++ Ch.comma :: ws ++ el ++ tail)
      with (pre' ++ ws ++ el ++ tail) by (subst pre'; text_assoc).
    replace (S (List.length pre + List.length et)) with (List.length pre')
      by (subst pre'; text_length).
    rewrite (skip_spaces_over_to sp pre' ws (el ++ tail) Hws Hnext).
    replace (pre' ++ ws ++ el ++ tail) with ((pre' ++ ws) ++ el ++ tail)
      by text_assoc.
    rewrite <- length_app.
    replace (S (List.length l + fuel)) with (List.length l + S fuel)%nat by lia.
    subst el. rewrite (IH (pre' ++ ws) tail _ fuel Hws Hl' Htail).
    f_equal. subst pre'. text_length.
Qed.



Lemma entries_then_length (ws : wstring) (l : list (wstring * Value)) :
  (List.length l <= List.length (entries_then pr show_double ws l))%nat.
Proof.
  induction l as [| kv l IH]; [cbn; lia | ].
  unfold entries_then in *. cbn [flat_map List.length].
  rewrite !length_app. cbn [List.length]. lia.
Qed.

(** [decode] on a text that starts with an opening brace and a key. *)
Lemma decode_open_object (data : wstring) :
  char_at data 0 = Ch.lbrace -> char_at data 1 = Ch.quote ->
  decode sp pow data
  = let* (value, _) :=
      (let* (object, last, pos) :=
         decode_object_loop sp pow (3 * List.length data + 2) data 1 [] false in
       if negb last || negb (char_at data pos =? Ch.rbrace)
       then Raise (InvalidCharacter "Object ended with invalid character" pos)
       else Ok (Object object, pos)) in
    Ok value.
Proof.
  intros Hopen Hnext. rewrite decode_unfold.
  assert (Hskip : skip_spaces sp data 0 = 0%nat)
    by (apply skip_spaces_fixed; now rewrite Hopen).
  rewrite decode_value_object by (now rewrite Hskip).
  rewrite Hskip.
  replace (3 * List.length data + 3)%nat with (S (3 * List.length data + 2)) by lia.
  rewrite decode_object_S. cbv zeta.
  rewrite (skip_spaces_fixed sp data 1) by (now rewrite Hnext).
  now rewrite Hnext.
Qed.

End Entries.

(** *** Keys that come more than once *)









Section FirstValue.

Variable sp pr : wchar_t -> bool.
Variable pow : float -> float -> float.
Variable show_double : float -> wstring.



End FirstValue.


(** *** A comma before the closing bracket or brace *)

Section TrailingComma.

Variable sp pr : wchar_t -> bool.
Variable pow : float -> float -> float.
Variable show_double : float -> wstring.

(** The loop of [decode_array] over scalars that each have a comma behind
    them: it goes on behind the last comma. *)
Lemma array_loop_elements_then (items : list (Value * wstring * wstring)) :
  forall (pre tail : wstring) (acc : list Value) (fuel : nat),
    Forall (element_then_ok sp pr) items ->
    hd 0 tail = 0 \/ iswspace sp (hd 0 tail) = false ->
    decode_array_loop sp pow (List.length items + S fuel)
      (pre ++ flat_map (element_then pr show_double) items ++ tail)
      (List.length pre) acc false
    = decode_array_loop sp pow (S fuel)
        (pre ++ flat_map (element_then pr show_double) items ++ tail)
        (List.length pre
         + List.length (flat_map (element_then pr show_double) items))
        (acc ++ map (fun it => fst (fst it)) items) false.
Proof.
  induction items as [| [[x w2] w1] r IH]; intros pre tail acc fuel Hitems Htail.
  - cbn [flat_map List.length Nat.add app map].
    now rewrite Nat.add_0_r, app_nil_r.
  - inversion Hitems as [| ? ? Hit Hr]; subst.
    destruct Hit as (Hx & Hw2 & Hw1). cbn [fst snd] in Hx, Hw2, Hw1.
    destruct (encode_scalar_opens pr show_double x Hx) as (c & text & Ec & Hc).
    cbn [flat_map map]. unfold element_then at 1 3. cbn [fst snd].
    set (ex := encode pr show_double x) in *.
    set (body := flat_map (element_then pr show_double) r).
    match goal with
    | |- decode_array_loop _ _ _ ?d _ _ _ = _ => set (data := d)
    end.
    assert (Edata : data = pre ++ ex ++ w2 ++ Ch.comma :: w1 ++ body ++ tail)
      by (subst data; text_assoc).
    assert (Hopen : opens_value (char_at data (List.length pre)))
      by (rewrite Edata, Ec; cbn [app]; now rewrite char_at_app_cons).
    cbn [List.length Nat.add].
    replace (List.length r + S fuel)%nat with (S (List.length r + fuel)) by lia.
    assert (Hv : decode_value sp pow (S (List.length r + fuel)) data (List.length pre)
                 = Ok (x, (List.length pre + List.length ex)%nat)).
    { rewrite Edata. apply decode_value_scalar_before; [exact Hx | ].
      apply (ends_value_behind_space sp x w2 (Ch.comma :: w1 ++ body ++ tail) Hw2).
      cbn; tauto. }
    assert (Hskip : skip_spaces sp data (List.length pre + List.length ex)
                    = (List.length pre + List.length ex + List.length w2)%nat).
    { rewrite Edata, app_assoc, <- length_app.
      apply skip_spaces_over_to; [exact Hw2 | now right]. }
    assert (Hcomma : char_at data (List.length pre + List.length ex + List.length w2)
                     = Ch.comma)
      by (apply (char_at_split _ (pre ++ ex ++ w2) Ch.comma (w1 ++ body ++ tail));
          rewrite ?Edata; split_text).
    set (pre' := pre ++ ex ++ w2 ++ [Ch.comma]).
    assert (Hnext : hd 0 (body ++ tail) = 0
                    \/ iswspace sp (hd 0 (body ++ tail)) = false).
    { subst body. destruct r as [| [[y w2'] w1'] r']; [exact Htail | ].
      inversion Hr as [| ? ? Hy _]; subst. destruct Hy as (Hy & _).
      cbn [fst] in Hy.
      destruct (encode_scalar_opens pr show_double y Hy) as (cy & ty & Ey & Hcy).
      cbn [flat_map]. unfold element_then. cbn [fst snd]. rewrite Ey.
      cbn [app hd]. right. now destruct Hcy as (_ & _ & _ & Hn). }
    assert (Hskip' : skip_spaces sp data
                       (S (List.length pre + List.length ex + List.length w2))
                     = (List.length pre' + List.length w1)%nat).
    { replace (S (List.length pre + List.length ex + List.length w2))
        with (List.length pre') by (subst pre'; text_length).
      replace data with (pre' ++ w1 ++ body ++ tail)
        by (rewrite Edata; subst pre'; text_assoc).
      now apply skip_spaces_over_to. }
    rewrite (array_loop_step_spaced sp pow (S (List.length r + fuel)) data _ acc x _
               Hopen Hv)
      by (now rewrite Hskip, Hcomma).
    rewrite Hskip, Hskip'.
    replace (S (List.length r + fuel)) with (List.length r + S fuel)%nat by lia.
    replace data with ((pre' ++ w1) ++ body ++ tail)
      by (rewrite Edata; subst pre'; text_assoc).
    rewrite <- length_app. subst body.
    rewrite (IH (pre' ++ w1) tail (acc ++ [x]) fuel Hr Htail).
    f_equal; [ | now rewrite <- app_assoc].
    subst pre' ex. unfold element_then at 2. cbn [fst snd]. text_length.
Qed.

(** A list of scalars with a comma behind its last element. *)
Lemma decode_list_trailing_comma (w0 : wstring)
    (items : list (Value * wstring * wstring)) (rest : wstring) :
  Forall (fun c => iswspace sp c = true) w0 ->
  Forall (element_then_ok sp pr) items -> items <> [] ->
  decode sp pow
    (Ch.lbracket
       :: w0 ++ flat_map (element_then pr show_double) items ++ Ch.rbracket :: rest)
  = Raise (InvalidCharacter "List ended with an invalid character"
             (S (List.length w0
                 + List.length (flat_map (element_then pr show_double) items)))).
Proof.
  intros Hw0 Hitems Hne.
  assert (Hbody : exists c text,
             flat_map (element_then pr show_double) items = c :: text
             /\ opens_value c).
  { destruct items as [| [[x w2] w1] r]; [congruence | ].
    inversion Hitems as [| ? ? Hit _]; subst. destruct Hit as (Hx & _).
    cbn [fst] in Hx.
    destruct (encode_scalar_opens pr show_double x Hx) as (c & text & Ec & Hc).
    cbn [flat_map]. unfold element_then at 1. cbn [fst snd]. rewrite Ec.
    cbn [app]. eauto. }
  destruct Hbody as (c & text & Ebody & Hc).
  assert (Hlen : (List.length items
                  <= List.length (flat_map (element_then pr show_double) items))%nat).
  { clear. induction items as [| it r IH]; [cbn; lia | ].
    cbn [flat_map List.length]. unfold element_then at 1.
    rewrite !length_app. cbn [List.length]. lia. }
  set (body := flat_map (element_then pr show_double) items) in *.
  match goal with |- decode _ _ ?d = _ => set (data := d) end.
  assert (Edata : data = ([Ch.lbracket] ++ w0) ++ body ++ Ch.rbracket :: rest)
    by (subst data; text_assoc).
  rewrite decode_unfold.
  assert (Hskip0 : skip_spaces sp data 0 = 0%nat)
    by (apply skip_spaces_fixed; reflexivity).
  rewrite decode_value_array by (now rewrite Hskip0).
  rewrite Hskip0.
  replace (3 * List.length data + 3)%nat with (S (3 * List.length data + 2)) by lia.
  rewrite decode_array_S. cbv zeta.
  assert (Hskip1 : skip_spaces sp data 1 = List.length ([Ch.lbracket] ++ w0)).
  { replace data with ([Ch.lbracket] ++ w0 ++ body ++ Ch.rbracket :: rest)
      by (subst data; text_assoc).
    rewrite length_app.
    apply (skip_spaces_over_to sp [Ch.lbracket] w0); [exact Hw0 | ].
    right. rewrite Ebody. cbn [app hd]. now destruct Hc as (_ & _ & _ & Hn). }
  rewrite Hskip1.
  assert (Hfirst : char_at data (List.length ([Ch.lbracket] ++ w0)) = c)
    by (rewrite Edata, Ebody; cbn [app]; apply char_at_app_cons).
  rewrite Hfirst. destruct Hc as (_ & Hcb & _). apply Z.eqb_neq in Hcb.
  rewrite Hcb. cbn [negb].
  assert (Hdata : (List.length body <= List.length data)%nat)
    by (rewrite Edata, !length_app; lia).
  set (fuel := (3 * List.length data + 2)%nat).
  replace fuel with (List.length items + S (fuel - List.length items - 1))%nat
    by (subst fuel; lia).
  clearbody fuel. rewrite Edata. clear Ebody Hfirst. subst body.
  rewrite (array_loop_elements_then items ([Ch.lbracket] ++ w0) (Ch.rbracket :: rest)
             [] _ Hitems (or_intror eq_refl)).
  set (body := flat_map (element_then pr show_double) items).
  set (front := [Ch.lbracket] ++ w0).
  assert (Hclose : char_at (front ++ body ++ Ch.rbracket :: rest)
                     (List.length front + List.length body)
                   = Ch.rbracket)
    by (apply (char_at_split _ (front ++ body) Ch.rbracket rest);
        clearbody front body; split_text).
  rewrite (decode_array_loop_on_bracket sp pow _ _ _ _ _ Hclose).
  cbn [bind negb orb]. subst front. rewrite length_app. reflexivity.
Qed.

(** An object of scalars with a comma behind its last entry. *)
Lemma decode_object_trailing_comma_entries (ws : wstring)
    (l : list (wstring * Value)) (rest : wstring) :
  Forall (fun c => iswspace sp c = true) ws ->
  Forall (pair_round_trips pr) l -> l <> [] ->
  decode sp pow (Ch.lbrace :: entries_then pr show_double ws l ++ Ch.rbrace :: rest)
  = Raise (InvalidCharacter "Object ended with invalid character"
             (S (List.length (entries_then pr show_double ws l)))).
Proof.
  intros Hws Hl Hne.
  pose proof (entries_then_length pr show_double ws l) as Hlen.
  assert (Hhead : hd 0 (entries_then pr show_double ws l ++ Ch.rbrace :: rest)
                  = Ch.quote)
    by (destruct l; [congruence | reflexivity]).
  set (el := entries_then pr show_double ws l) in *.
  match goal with |- decode _ _ ?d = _ => set (data := d) end.
  assert (Edata : data = [Ch.lbrace] ++ el ++ Ch.rbrace :: rest) by reflexivity.
  assert (Hfirst : char_at data 1 = Ch.quote).
  { rewrite Edata. change 1%nat with (List.length [Ch.lbrace]).
    now rewrite char_at_app_hd. }
  rewrite (decode_open_object sp pow data eq_refl Hfirst).
  assert (Hdata : (List.length el <= List.length data)%nat)
    by (rewrite Edata, !length_app; lia).
  set (fuel := (3 * List.length data + 2)%nat).
  replace fuel with (List.length l + S (fuel - List.length l - 1))%nat
    by (subst fuel; lia).
  clearbody fuel. rewrite Edata. clear Hhead. subst el.
  rewrite (object_loop_entries_then sp pr pow show_double ws l [Ch.lbrace]
             (Ch.rbrace :: rest) [] _ Hws Hl (or_intror eq_refl)).
  set (el := entries_then pr show_double ws l).
  assert (Hclose : char_at ([Ch.lbrace] ++ el ++ Ch.rbrace :: rest)
                     (List.length [Ch.lbrace] + List.length el)
                   = Ch.rbrace)
    by (apply (char_at_split _ ([Ch.lbrace] ++ el) Ch.rbrace rest);
        clearbody el; split_text).
  rewrite (decode_object_loop_on_brace sp pow _ _ _ _ _ Hclose).
  reflexivity.
Qed.

(** A string that the input ends before its closing quote. *)
Lemma decode_open_string (k : wstring) :
  Forall plain_unit k ->
  decode sp pow (Ch.quote :: k)
  = Raise (UnexpectedEof "Unexpected end of input" (S (List.length k))).
Proof.
  intros Hk. rewrite decode_unfold.
  set (data := Ch.quote :: k).
  assert (Hskip : skip_spaces sp data 0 = 0%nat)
    by (apply skip_spaces_fixed; reflexivity).
  rewrite decode_value_string by (now rewrite Hskip).
  rewrite Hskip, decode_string_unterminated.
  - reflexivity.
  - cbn; lia.
  - intros i Hi. subst data. destruct i as [| i]; [lia | ].
    cbn [List.length] in Hi. unfold char_at. cbn [nth].
    rewrite Forall_forall in Hk. apply Hk, nth_In. lia.
Qed.

(** A list whose last element is a list: the inner list leaves the cursor
    on its closing bracket, the enclosing list takes that bracket for its
    own and reads nothing of what follows. *)
Lemma decode_list_behind_inner_list (l : list Value) (v : Value) (tail : wstring) :
  Forall (scalar pr) l -> right_nested pr v ->
  decode sp pow
    (Ch.lbracket :: elements_then pr show_double l ++ encode pr show_double v ++ tail)
  = Ok (List (l ++ [v])).
Proof.
  intros Hl Hv.
  destruct (encode_right_nested_opens pr show_double v Hv) as (text & Ev).
  pose proof (elements_then_length pr show_double l) as Hlen.
  set (el := elements_then pr show_double l) in *.
  set (ev := encode pr show_double v) in *.
  match goal with |- decode _ _ ?d = _ => set (data := d) end.
  assert (Edata : data = [Ch.lbracket] ++ el ++ ev ++ tail) by reflexivity.
  assert (Hev : opens_value (hd 0 (ev ++ tail)))
    by (rewrite Ev; apply bracket_opens_value).
  assert (Hfirst : opens_value (char_at data 1)).
  { rewrite Edata. change 1%nat with (List.length [Ch.lbracket]).
    rewrite char_at_app_hd. subst el. now apply elements_then_opens. }
  rewrite (decode_open_list sp pow data eq_refl Hfirst).
  assert (Hdata : (List.length data
                   = 1 + List.length el + List.length ev + List.length tail)%nat)
    by (rewrite Edata; text_length).
  set (fuel := (3 * List.length data + 2)%nat).
  set (k := (fuel - List.length l - 2)%nat).
  assert (Hk : (3 * List.length ev <= k)%nat) by (subst k fuel; lia).
  replace fuel with (List.length l + S (S k))%nat by (subst k fuel; lia).
  clearbody k. clear fuel. rewrite Edata. subst el.
  rewrite (array_loop_scalars_then sp pr pow show_double l [Ch.lbracket]
             (ev ++ tail) [] _ Hl Hev).
  set (el := elements_then pr show_double l).
  set (pre' := [Ch.lbracket] ++ el).
  replace ([Ch.lbracket] ++ el ++ ev ++ tail) with (pre' ++ ev ++ tail)
    by (subst pre'; text_assoc).
  replace (List.length [Ch.lbracket] + List.length el)%nat
    with (List.length pre') by (subst pre'; text_length).
  destruct (decode_array_right_nested sp pr pow show_double v Hv pre' tail k Hk)
    as (q & Hq).
  fold ev in Hq.
  pose proof (decode_array_leaves_cursor_on_bracket _ _ _ _ _ _ _ Hq) as Hclose.
  assert (Hopen : char_at (pre' ++ ev ++ tail) (List.length pre') = Ch.lbracket)
    by (rewrite Ev; apply char_at_app_cons).
  rewrite (array_loop_stop sp pow (S k) _ _ _ v q).
  - cbn [bind negb orb]. rewrite Hclose. reflexivity.
  - rewrite Hopen. apply bracket_opens_value.
  - rewrite decode_value_array;
      rewrite (skip_spaces_fixed sp _ (List.length pre')); try exact Hq;
      try (now rewrite Hopen).
  - rewrite Hclose. discriminate.
  - rewrite Hclose. now right.
Qed.

(** An object whose last value is an object: the inner object leaves the
    cursor on its closing brace, the enclosing object takes that brace for
    its own and reads nothing of what follows. *)
Lemma decode_object_behind_inner_object (ws : wstring) (l : list (wstring * Value))
    (k : wstring) (o : list (wstring * Value)) (tail : wstring) :
  Forall (fun c => iswspace sp c = true) ws ->
  Forall (pair_round_trips pr) l -> Forall plain_unit k ->
  Forall (pair_round_trips pr) o -> NoDup (map fst o) ->
  decode sp pow
    (Ch.lbrace
       :: entries_then pr show_double ws l
       ++ Ch.quote :: k ++ Ch.quote :: Ch.colon
       :: encode pr show_double (Object o) ++ tail)
  = Ok (Object (inserted (l ++ [(k, Object o)]) [])).
Proof.
  intros Hws Hl Hk Ho Hnd.
  pose proof (entries_then_length pr show_double ws l) as Hlen.
  pose proof (encode_pairs_length pr show_double o true) as Hpairs.
  assert (Hhead : hd 0 (entries_then pr show_double ws l
                        ++ Ch.quote :: k ++ Ch.quote :: Ch.colon
                        :: encode pr show_double (Object o) ++ tail)
                  = Ch.quote)
    by (destruct l; reflexivity).
  assert (Eo : encode pr show_double (Object o)
               = Ch.lbrace :: encode_pairs pr show_double true o ++ [Ch.rbrace])
    by (now rewrite encode_Object).
  set (el := entries_then pr show_double ws l) in *.
  set (eo := encode pr show_double (Object o)) in *.
  set (key := Ch.quote :: k ++ Ch.quote :: Ch.colon :: eo ++ tail) in *.
  match goal with |- decode _ _ ?d = _ => set (data := d) end.
  assert (Edata : data = [Ch.lbrace] ++ el ++ key) by reflexivity.
  assert (Hfirst : char_at data 1 = Ch.quote).
  { rewrite Edata. change 1%nat with (List.length [Ch.lbrace]).
    now rewrite char_at_app_hd. }
  rewrite (decode_open_object sp pow data eq_refl Hfirst).
  assert (Hdata : (List.length data
                   = 1 + List.length el + (List.length k + 3 + List.length eo
                                           + List.length tail))%nat)
    by (rewrite Edata; subst key; text_length).
  assert (Hleo : (List.length o + 2 <= List.length eo)%nat)
    by (rewrite Eo; cbn [List.length]; rewrite length_app; cbn [List.length]; lia).
  set (fuel := (3 * List.length data + 2)%nat).
  set (n := (fuel - List.length l - 3)%nat).
  assert (Hn : (List.length o + 3 <= S n)%nat) by (subst n fuel; lia).
  replace fuel with (List.length l + S (S (S n)))%nat by (subst n fuel; lia).
  clearbody n. clear fuel Hdata Hhead Hfirst. rewrite Edata. subst el.
  rewrite (object_loop_entries_then sp pr pow show_double ws l [Ch.lbrace]
             key [] _ Hws Hl (or_intror eq_refl)).
  set (el := entries_then pr show_double ws l).
  set (pre := [Ch.lbrace] ++ el).
  replace ([Ch.lbrace] ++ el ++ key) with (pre ++ key)
    by (subst pre; text_assoc).
  replace (List.length [Ch.lbrace] + List.length el)%nat
    with (List.length pre) by (subst pre; text_length).
  clearbody pre. subst key.
  set (text := pre ++ Ch.quote :: k ++ Ch.quote :: Ch.colon :: eo ++ tail).
  assert (Hquote : char_at text (List.length pre) = Ch.quote)
    by (apply char_at_app_cons).
  assert (Hkey : decode_string text (List.length pre)
                 = Ok (String k, (List.length pre + List.length k + 2)%nat))
    by (now apply decode_string_verbatim).
  assert (Hcolon : char_at text (List.length pre + List.length k + 2) = Ch.colon)
    by (apply (char_at_split _ (pre ++ Ch.quote :: k ++ [Ch.quote]) Ch.colon
                 (eo ++ tail)); subst text; split_text).
  assert (Hskip2 : skip_spaces sp text (List.length pre + List.length k + 2)
                   = (List.length pre + List.length k + 2)%nat)
    by (apply skip_spaces_after_value; rewrite Hcolon; cbn; tauto).
  set (pre' := pre ++ Ch.quote :: k ++ [Ch.quote; Ch.colon]).
  assert (Etext : text = pre' ++ eo ++ tail) by (subst text pre'; text_assoc).
  assert (Hpre' : S (List.length pre + List.length k + 2) = List.length pre')
    by (subst pre'; text_length).
  assert (Hval : char_at text (List.length pre') = Ch.lbrace)
    by (rewrite Etext, Eo; apply char_at_app_cons).
  assert (Hskip3 : skip_spaces sp text (List.length pre') = List.length pre')
    by (apply skip_spaces_fixed; now rewrite Hval).
  assert (Hinner : decode_object sp pow (S n) text (List.length pre')
                   = Ok (Object o,
                         (List.length pre'
                          + S (List.length (encode_pairs pr show_double true o)))%nat))
    by (rewrite Etext; subst eo; now apply decode_object_scalars).
  pose proof (decode_object_leaves_cursor_on_brace _ _ _ _ _ _ _ Hinner) as Hclose.
  set (q := (List.length pre'
             + S (List.length (encode_pairs pr show_double true o)))%nat) in *.
  assert (Hskipq : skip_spaces sp text q = q)
    by (apply skip_spaces_after_value; rewrite Hclose; cbn; tauto).
  rewrite (object_loop_round sp pow (S (S n)) text (List.length pre) (inserted l [])
             k (List.length pre + List.length k + 2) (Object o) q Hquote Hkey).
  - rewrite Hskipq, Hclose. change (Ch.rbrace =? Ch.comma) with false.
    cbn [bind negb orb]. rewrite Hclose.
    change (negb (Ch.rbrace =? Ch.rbrace)) with false. cbn [bind].
    do 2 f_equal. unfold inserted. now rewrite fold_left_app.
  - now rewrite Hskip2.
  - rewrite Hskip2, Hpre', Hskip3.
    rewrite decode_value_object by (now rewrite Hskip3, Hval).
    now rewrite Hskip3.
Qed.

(** C5 (the code departs from the claim): a comma before the closing
    bracket or brace is rejected only behind a scalar.  A list of any number
    of scalars with a comma behind the last one raises [InvalidCharacter]
    at the closing bracket, whatever white space stands around the elements
    and the commas; an object of entries with scalars as values and a comma
    behind the last entry raises [InvalidCharacter] at the closing brace; a
    string that the input ends before its closing quote raises
    [UnexpectedEof] at the end of the input.  But behind a list that is the
    last element of a list, and behind an object that is the last value of
    an object, nothing is read any more: the inner container leaves the
    cursor on its closing bracket or brace, the enclosing one takes it for
    its own, and [decode] returns a value whatever follows - a trailing
    comma as in [[[2],]] and [{'a':{},}], or nothing at all. *)
Theorem trailing_comma_is_rejected_behind_scalars_only :
  (forall (w0 : wstring) (items : list (Value * wstring * wstring)) (rest : wstring),
     Forall (fun c => iswspace sp c = true) w0 ->
     Forall (element_then_ok sp pr) items -> items <> [] ->
     decode sp pow
       (Ch.lbracket
          :: w0 ++ flat_map (element_then pr show_double) items
          ++ Ch.rbracket :: rest)
     = Raise (InvalidCharacter "List ended with an invalid character"
                (S (List.length w0
                    + List.length (flat_map (element_then pr show_double) items)))))
  /\ (forall (ws : wstring) (l : list (wstring * Value)) (rest : wstring),
        Forall (fun c => iswspace sp c = true) ws ->
        Forall (pair_round_trips pr) l -> l <> [] ->
        decode sp pow
          (Ch.lbrace :: entries_then pr show_double ws l ++ Ch.rbrace :: rest)
        = Raise (InvalidCharacter "Object ended with invalid character"
                   (S (List.length (entries_then pr show_double ws l)))))
  /\ (forall k : wstring,
        Forall plain_unit k ->
        decode sp pow (Ch.quote :: k)
        = Raise (UnexpectedEof "Unexpected end of input" (S (List.length k))))
  /\ (forall (l : list Value) (v : Value) (tail : wstring),
        Forall (scalar pr) l -> right_nested pr v ->
        decode sp pow
          (Ch.lbracket
             :: elements_then pr show_double l ++ encode pr show_double v ++ tail)
        = Ok (List (l ++ [v])))
  /\ (forall (ws : wstring) (l : list (wstring * Value)) (k : wstring)
             (o : list (wstring * Value)) (tail : wstring),
        Forall (fun c => iswspace sp c = true) ws ->
        Forall (pair_round_trips pr) l -> Forall plain_unit k ->
        Forall (pair_round_trips pr) o -> NoDup (map fst o) ->
        decode sp pow
          (Ch.lbrace
             :: entries_then pr show_double ws l
             ++ Ch.quote :: k ++ Ch.quote :: Ch.colon
             :: encode pr show_double (Object o) ++ tail)
        = Ok (Object (inserted (l ++ [(k, Object o)]) [])))
  /\ decode sp pow (jtext "[1,]")
     = Raise (InvalidCharacter "List ended with an invalid character" 3)
  /\ decode sp pow (jtext "{'a':1,}")
     = Raise (InvalidCharacter "Object ended with invalid character" 7)
  /\ decode sp pow (jtext "'abc")
     = Raise (UnexpectedEof "Unexpected end of input" 4)
  /\ decode sp pow (jtext "[[2],]") = Ok (List [List [Integer 2]])
  /\ decode sp pow (jtext "{'a':{},}") = Ok (Object [(wstr "a", Object [])]).
Proof.
  split; [exact decode_list_trailing_comma | ].
  split; [exact decode_object_trailing_comma_entries | ].
  split; [exact decode_open_string | ].
  split; [exact decode_list_behind_inner_list | ].
  split; [exact decode_object_behind_inner_object | ].
  repeat split; vm_compute; reflexivity.
Qed.

End TrailingComma.

Lemma trailing_comma_is_rejected_behind_scalars_only_witness :
  decode c_locale (fun x _ => x) (jtext "[1, 2 , ]")
  = Raise (InvalidCharacter "List ended with an invalid character" 8)
  /\ decode c_locale (fun x _ => x) (jtext "{'a':1, 'b':null, }")
     = Raise (InvalidCharacter "Object ended with invalid character" 18)
  /\ decode c_locale (fun x _ => x) (jtext "'abc")
     = Raise (UnexpectedEof "Unexpected end of input" 4)
  /\ decode c_locale (fun x _ => x) (jtext "[1, [2],]")
     = Ok (List ([Integer 1] ++ [List [Integer 2]]))
  /\ decode c_locale (fun x _ => x) (jtext "{'a':{'b':1},}")
     = Ok (Object [(wstr "a", Object [(wstr "b", Integer 1)])]).
Proof.
  pose proof (trailing_comma_is_rejected_behind_scalars_only c_locale c_locale
                (fun x _ => x) (fun _ => []))
    as (Hlist & Hobject & Hstring & Hinner & Hinner' & _).
  split; [ | split; [ | split; [ | split]]].
  - apply (Hlist [] [(Integer 1, [], [32]); (Integer 2, [32], [32])] []);
      [constructor | | discriminate].
    repeat (apply Forall_cons; [repeat split; cbn [fst snd] | ]);
      try apply Forall_nil;
      try (repeat constructor; vm_compute; intuition discriminate).
  - apply (Hobject [32] [(wstr "a", Integer 1); (wstr "b", Null)] []);
      [repeat constructor | | discriminate].
    repeat (apply Forall_cons; [split; cbn [fst snd] | ]); try apply Forall_nil;
      try (repeat constructor; vm_compute; intuition discriminate).
  - apply (Hstring (wstr "abc")).
    repeat constructor; vm_compute; intuition discriminate.
  - apply (Hinner [Integer 1] (List [Integer 2]) (jtext ",]")).
    + repeat constructor; vm_compute; intuition discriminate.
    + apply right_nested_flat.
      repeat constructor; vm_compute; intuition discriminate.
  - apply (Hinner' [] [] (wstr "a") [(wstr "b", Integer 1)] (jtext ",}")).
    + constructor.
    + constructor.
    + repeat constructor; vm_compute; intuition discriminate.
    + repeat (apply Forall_cons; [split; cbn [fst snd] | ]); try apply Forall_nil;
        try (repeat constructor; vm_compute; intuition discriminate).
    + repeat constructor. intros [].
Defined.

(** *** Integer or Float, with every digit run kept in an [int] *)

Lemma wrap_int_zero (z : Z) : wrap_int z = 0 <-> z mod 2 ^ 32 = 0.
Proof.
  unfold wrap_int.
  change (2 ^ 31) with 2147483648. change (2 ^ 32) with 4294967296.
  Z.div_mod_to_equations. lia.
Qed.

Lemma digits_number_bounds (ds : wstring) :
  forall res, forallb iswdigit ds = true -> 0 <= res -> 0 <= digits_number ds res.
Proof.
  induction ds as [| d ds IH]; intros res Hds Hres; [exact Hres | ].
  cbn [forallb] in Hds. apply andb_true_iff in Hds as [Hd Hds].
  cbn [digits_number fold_left]. apply IH; [exact Hds | ].
  unfold iswdigit in Hd. apply andb_true_iff in Hd as [Hd _].
  apply Z.leb_le in Hd. unfold Ch.zero. lia.
Qed.

Lemma exponent_value_number (t : number_token) :
  exponent_value t = wrap_int (exponent_number t).
Proof.
  unfold exponent_value, exponent_number.
  destruct (tok_exponent t) as [[[upper s] ed] | ]; [ | reflexivity].
  apply digits_value_number.
Qed.

(** C3, as the code has it: the number production reads the whole of a
    token of the JSON number grammar.  Each of its three digit runs - the
    integer part, the fraction, the exponent - is accumulated in a 32-bit
    [int] with no check for overflow, so what the production keeps of a run
    is the decimal number it writes taken modulo [2^32] into
    [-2^31, 2^31).  The result is an Integer exactly when the token has no
    fraction and the exponent so kept is zero: the exponent is absent, or
    its digits write a multiple of [2^32] ([1e0], [1e4294967296]).  With a
    fraction, or with an exponent that is kept as another number, the
    result is the Float
    [+-(integer + fraction / 10^digits) * 10^(+-exponent)] of the three
    numbers as kept ([0.4294967297] is read as [0 + 1 / 10^10]).  A run of
    digits that writes a number below [2^31] is kept as that number.  [0]
    and [-0] are Integer 0. *)
Theorem number_is_integer_without_fraction_and_kept_exponent (pre rest : wstring)
    (t : number_token) :
  token_ok t = true -> token_ends_before t (hd 0 rest) = true ->
  forall pow : float -> float -> float,
    (exists value,
       decode_number pow (pre ++ token_text t ++ rest) (List.length pre)
       = Ok (value, (List.length pre + List.length (token_text t))%nat)
       /\ ((exists i, value = Integer i)
           <-> tok_fraction t = None /\ exponent_number t mod 2 ^ 32 = 0)
       /\ ((exists d, value = Float d)
           <-> tok_fraction t <> None \/ exponent_number t mod 2 ^ 32 <> 0)
       /\ (tok_fraction t = None -> exponent_number t mod 2 ^ 32 = 0 ->
           value
           = Integer (wrap_int (if tok_negative t
                                then - digits_number (tok_integer t) 0
                                else digits_number (tok_integer t) 0)))
       /\ (tok_fraction t <> None \/ exponent_number t mod 2 ^ 32 <> 0 ->
           value
           = Float
               ((if tok_negative t
                 then - (int_to_double (wrap_int (digits_number (tok_integer t) 0))
                         + int_to_double
                             (wrap_int (digits_number (fraction_digits t) 0))
                           / pow 10 (int_to_double
                                       (Z.of_nat (List.length (fraction_digits t)))))
                 else int_to_double (wrap_int (digits_number (tok_integer t) 0))
                      + int_to_double
                          (wrap_int (digits_number (fraction_digits t) 0))
                        / pow 10 (int_to_double
                                    (Z.of_nat (List.length (fraction_digits t)))))
                * pow 10 (int_to_double
                            (wrap_int
                               match tok_exponent t with
                               | Some (_, MinusSign, _) => - exponent_number t
                               | _ => exponent_number t
                               end)))%float))
    /\ (forall ds : wstring,
          forallb iswdigit ds = true -> digits_number ds 0 < 2 ^ 31 ->
          wrap_int (digits_number ds 0) = digits_number ds 0)
    /\ (forall sp,
          decode sp pow (wstr "0") = Ok (Integer 0)
          /\ decode sp pow (wstr "-0") = Ok (Integer 0)
          /\ decode sp pow (wstr "1e0") = Ok (Integer 1)
          /\ decode sp pow (wstr "1e4294967296") = Ok (Integer 1)
          /\ decode sp pow (wstr "3.14")
             = Ok (Float ((3 + 14 / pow 10 2) * pow 10 0)%float)
          /\ decode sp pow (wstr "0.4294967297")
             = Ok (Float ((0 + 1 / pow 10 10) * pow 10 0)%float)
          /\ decode sp pow (wstr "1e3")
             = Ok (Float ((1 + 0 / pow 10 0) * pow 10 3)%float)
          /\ decode sp pow (wstr "-2.5e-2")
             = Ok (Float (- (2 + 5 / pow 10 1) * pow 10 (-2))%float)).
Proof.
  intros Hok Hend pow.
  pose proof (exponent_value_number t) as Eexp.
  pose proof (wrap_int_zero (exponent_number t)) as Hzero.
  split; [exists (token_value pow t) | split].
  - split; [now apply decode_number_token | ].
    unfold token_value, fraction_digits. rewrite !digits_value_number, Eexp.
    destruct (tok_fraction t) as [fd | ].
    + split; [ | split; [ | split]].
      * split; [intros [i H]; discriminate | intros [H _]; discriminate].
      * split; [intros _; left; discriminate | intros _; eexists; reflexivity].
      * intros H; discriminate.
      * intros _. destruct (tok_exponent t) as [[[upper []] ed] | ];
          rewrite ?wrap_int_opp; reflexivity.
    + destruct (Z.eqb_spec (wrap_int (exponent_number t)) 0) as [E | E].
      * apply Hzero in E. split; [ | split; [ | split]].
        -- split; [auto | intros _; eexists; reflexivity].
        -- split; [intros [d H]; discriminate | intros [H | H]; contradiction].
        -- intros _ _. destruct (tok_negative t); [ | reflexivity].
           now rewrite wrap_int_opp.
        -- intros [H | H]; contradiction.
      * assert (E' : exponent_number t mod 2 ^ 32 <> 0)
          by (intros H; apply E, Hzero, H).
        split; [ | split; [ | split]].
        -- split; [intros [i H]; discriminate | intros [_ H]; contradiction].
        -- split; [intros _; now right | intros _; eexists; reflexivity].
        -- intros _ H; contradiction.
        -- intros _. destruct (tok_exponent t) as [[[upper []] ed] | ];
             rewrite ?wrap_int_opp; reflexivity.
  - intros ds Hds Hlt. apply wrap_int_small.
    pose proof (digits_number_bounds ds 0 Hds ltac:(lia)). lia.
  - intros sp. repeat (split; [vm_compute; reflexivity | ]).
    vm_compute; reflexivity.
Qed.

Lemma number_is_integer_without_fraction_and_kept_exponent_witness :
  decode_number (fun x _ => x) (wstr "1e4294967296") 0 = Ok (Integer 1, 12%nat)
  /\ decode_number (fun x _ => x) (wstr "[-12,") 1 = Ok (Integer (-12), 4%nat)
  /\ decode_number (fun x _ => x) (wstr "0.4294967297") 0
     = Ok (Float ((0 + 1 / 10) * 10)%float, 12%nat).
Proof.
  split; [ | split].
  - destruct (proj1 (number_is_integer_without_fraction_and_kept_exponent [] []
                       {| tok_negative := false; tok_integer := wstr "1";
                          tok_fraction := None;
                          tok_exponent := Some (false, NoSign, wstr "4294967296") |}
                       eq_refl eq_refl (fun x _ => x)))
      as (value & Hd & _ & _ & Hint & _).
    rewrite (Hint eq_refl eq_refl) in Hd. exact Hd.
  - destruct (proj1 (number_is_integer_without_fraction_and_kept_exponent
                       (wstr "[") (wstr ",")
                       {| tok_negative := true; tok_integer := wstr "12";
                          tok_fraction := None; tok_exponent := None |}
                       eq_refl eq_refl (fun x _ => x)))
      as (value & Hd & _ & _ & Hint & _).
    rewrite (Hint eq_refl eq_refl) in Hd. exact Hd.
  - destruct (proj1 (number_is_integer_without_fraction_and_kept_exponent [] []
                       {| tok_negative := false; tok_integer := wstr "0";
                          tok_fraction := Some (wstr "4294967297");
                          tok_exponent := None |}
                       eq_refl eq_refl (fun x _ => x)))
      as (value & Hd & _ & _ & _ & Hfloat).
    assert (Hsome : Some (wstr "4294967297") <> None) by discriminate.
    rewrite (Hfloat (or_introl Hsome)) in Hd. exact Hd.
Defined.

(** C3, as the claim states it, fails on [1e0]: the token has an exponent
    part and the result is an Integer.  So it is on [1e4294967296], whose
    exponent is kept as 0; and the fraction of [0.4294967297] is kept as
    1, the fraction of [0.0000000001]. *)
Lemma zero_exponent_is_integer_counterexample :
  exists i,
    (forall sp pow, decode sp pow (wstr "1e0") = Ok (Integer i))
    /\ (forall sp pow, decode sp pow (wstr "1e4294967296") = Ok (Integer i))
    /\ (forall sp pow,
          decode sp pow (wstr "0.4294967297") = decode sp pow (wstr "0.0000000001")).
Proof.
  exists 1. repeat split; intros sp pow; vm_compute; reflexivity.
Qed.

(** *** A list that is not closed *)

Section OpenList.

Variable sp pr : wchar_t -> bool.
Variable pow : float -> float -> float.
Variable show_double : float -> wstring.

(** X13: In a list of scalars, when the last element read and the white
    space behind it (if any) are followed by a code unit that is neither a
    comma nor the closing bracket - the terminator at the end of the
    input, a closing brace, the first code unit of a value where the comma
    is missing - [decode] raises [InvalidCharacter] with the message
    [List ended with an invalid character] at the position of that code
    unit.  (Directly behind an integer, a digit, a point or an exponent
    marker would continue the number: [ends_value].) *)
Theorem list_without_closing_bracket_is_rejected (l : list Value) (x : Value)
    (ws tail : wstring) :
  Forall (scalar pr) l -> scalar pr x ->
  Forall (fun c => iswspace sp c = true) ws ->
  hd 0 tail <> Ch.comma -> hd 0 tail <> Ch.rbracket ->
  hd 0 tail = 0 \/ iswspace sp (hd 0 tail) = false ->
  ends_value x (hd 0 (ws ++ tail)) ->
  decode sp pow
    (Ch.lbracket :: encode_elements pr show_double true (l ++ [x]) ++ ws ++ tail)
  = Raise (InvalidCharacter "List ended with an invalid character"
             (S (List.length (encode_elements pr show_double true (l ++ [x]))
                 + List.length ws))).
Proof.
  intros Hl Hx Hws Hcomma Hclose Hsp Hends.
  rewrite (encode_elements_app pr show_double l true x []).
  cbn [encode_elements app]. rewrite app_nil_r.
  pose proof (elements_then_length pr show_double l) as Hlen.
  set (el := elements_then pr show_double l) in *.
  set (ex := encode pr show_double x).
  set (data := Ch.lbracket :: (el ++ ex) ++ ws ++ tail).
  assert (Edata : data = [Ch.lbracket] ++ el ++ ex ++ ws ++ tail)
    by (subst data; text_assoc).
  assert (Hopen : opens_value (hd 0 (ex ++ ws ++ tail))).
  { destruct (encode_scalar_opens pr show_double x Hx) as (c & text & Ec & Hc).
    subst ex. now rewrite Ec. }
  assert (Hfirst : opens_value (char_at data 1)).
  { rewrite Edata. change 1%nat with (List.length [Ch.lbracket]).
    rewrite char_at_app_hd. subst el. now apply elements_then_opens. }
  rewrite (decode_open_list sp pow data eq_refl Hfirst).
  assert (Hdata : List.length data = (1 + List.length el + List.length ex
                                      + List.length ws + List.length tail)%nat)
    by (rewrite Edata; text_length).
  set (fuel := (3 * List.length data + 2)%nat).
  replace fuel with (List.length l + S (S (fuel - List.length l - 2)))%nat
    by (subst fuel; lia).
  set (k := (fuel - List.length l - 2)%nat). clearbody k. clear fuel.
  rewrite Edata. subst el.
  rewrite (array_loop_scalars_then sp pr pow show_double l [Ch.lbracket]
             (ex ++ ws ++ tail) [] _ Hl Hopen).
  set (el := elements_then pr show_double l).
  set (pre := [Ch.lbracket] ++ el).
  replace ([Ch.lbracket] ++ el ++ ex ++ ws ++ tail) with (pre ++ ex ++ ws ++ tail)
    by (subst pre; text_assoc).
  replace (List.length [Ch.lbracket] + List.length el)%nat
    with (List.length pre) by (subst pre; text_length).
  set (text := pre ++ ex ++ ws ++ tail).
  assert (Hv : decode_value sp pow (S k) text (List.length pre)
               = Ok (x, (List.length pre + List.length ex)%nat))
    by (now apply decode_value_scalar_before).
  assert (Hskip : skip_spaces sp text (List.length pre + List.length ex)
                  = (List.length pre + List.length ex + List.length ws)%nat).
  { subst text. rewrite app_assoc, <- length_app.
    now apply skip_spaces_over_to. }
  assert (Hat : char_at text (List.length pre + List.length ex + List.length ws)
                = hd 0 tail).
  { subst text. rewrite !app_assoc, <- !length_app. apply char_at_app_hd. }
  rewrite (array_loop_stop_spaced sp pow (S k) text (List.length pre) _ x
             (List.length pre + List.length ex)).
  - rewrite Hskip. cbn [bind negb orb]. rewrite Hat.
    apply Z.eqb_neq in Hclose. rewrite Hclose. cbn [negb bind]. do 2 f_equal.
    subst pre. rewrite !length_app. cbn [List.length]. lia.
  - subst text. now rewrite char_at_app_hd.
  - exact Hv.
  - now rewrite Hskip, Hat.
Qed.

End OpenList.

Lemma list_without_closing_bracket_is_rejected_witness :
  decode c_locale (fun x _ => x)
    (Ch.lbracket
       :: encode_elements c_locale (fun _ => []) true ([Integer 1] ++ [Integer 2])
       ++ [] ++ [])
  = Raise (InvalidCharacter "List ended with an invalid character" 5)
  /\ decode c_locale (fun x _ => x)
       (Ch.lbracket
          :: encode_elements c_locale (fun _ => []) true ([] ++ [Null])
          ++ [] ++ wstr "}")
     = Raise (InvalidCharacter "List ended with an invalid character" 5)
  /\ decode c_locale (fun x _ => x)
       (Ch.lbracket
          :: encode_elements c_locale (fun _ => []) true ([] ++ [Integer 1])
          ++ [32] ++ wstr "2]")
     = Raise (InvalidCharacter "List ended with an invalid character" 3).
Proof.
  split; [ | split].
  - apply (list_without_closing_bracket_is_rejected c_locale c_locale (fun x _ => x)
             (fun _ => []) [Integer 1] (Integer 2) [] []);
      try discriminate.
    + repeat constructor; vm_compute; intuition discriminate.
    + constructor; vm_compute; intuition discriminate.
    + constructor.
    + now left.
    + vm_compute. repeat split; discriminate.
  - apply (list_without_closing_bracket_is_rejected c_locale c_locale (fun x _ => x)
             (fun _ => []) [] Null [] (wstr "}"));
      try discriminate.
    + constructor.
    + constructor.
    + constructor.
    + now right.
    + exact I.
  - apply (list_without_closing_bracket_is_rejected c_locale c_locale (fun x _ => x)
             (fun _ => []) [] (Integer 1) [32] (wstr "2]"));
      try discriminate.
    + constructor.
    + constructor; vm_compute; intuition discriminate.
    + repeat constructor.
    + now right.
    + vm_compute. repeat split; discriminate.
Defined.
